(** * Configuration store of the RPC gateway (store/mysql, [confStore]).

    A shallow embedding of the Go code that keeps rate-limit strategies,
    access-control allow lists, node route groups and the reorg version in
    the single [configs] table, together with the parts of the Go standard
    library and of GORM that this code calls.  Go strings are byte strings
    and are modelled by [string] (one [ascii] per byte); Go's [int] is the
    64-bit two's complement integer; a Go map is a [gmap]. *)

From Stdlib Require Import ZArith Ascii String List Lia Bool.
From stdpp Require Import gmap strings list fin_maps.

Open Scope string_scope.
Open Scope Z_scope.

(** ** Go values, errors and panics *)

Module Go.

(** The double quote character, code 34. *)
Definition dq : ascii := "034"%char.

(** Value of a byte. *)
Definition byte_val (c : ascii) : Z := Z.of_N (N_of_ascii c).

(** The byte with a given value (taken modulo 256, as a Go conversion
    [byte(x)] does). *)
Definition byte_of (z : Z) : ascii := ascii_of_N (Z.to_N (z mod 256)).

(** [len(s)] *)
Definition len (s : string) : Z := Z.of_nat (String.length s).

(** [len(l)] of a slice *)
Definition len_list {A} (l : list A) : Z := Z.of_nat (length l).

(** [s[i:]] for [0 <= i <= len(s)]; the bounds check is made by the
    caller of this helper. *)
Fixpoint drop_bytes (n : nat) (s : string) : string :=
  match n, s with
  | O, _ => s
  | S n', String _ s' => drop_bytes n' s'
  | S _, EmptyString => EmptyString
  end.

(** [strings.HasPrefix] *)
Fixpoint HasPrefix (s prefix : string) {struct prefix} : bool :=
  match prefix, s with
  | EmptyString, _ => true
  | String p prefix', String c s' =>
      if Ascii.eqb p c then HasPrefix s' prefix' else false
  | String _ _, EmptyString => false
  end.

(** The two sentinel errors of package strconv. *)
Inductive num_err := ErrSyntax | ErrRange.

(** Error values that reach this package.  [errors.New] and
    [errors.WithMessage] are the pkg/errors constructors the code uses;
    the other constructors are the error types of the libraries it
    calls. *)
Inductive error :=
| errors_New (msg : string)
| errors_WithMessage (cause : error) (msg : string)
| NumError (fn : string) (num : string) (err : num_err)
| SyntaxError (msg : string)
| UnmarshalTypeError (value : string)
| ErrRecordNotFound
| ErrDriver (msg : string).

(** Run-time panics. *)
Inductive panic :=
| SliceBoundsOutOfRange (lo : Z) (length : Z)
| InterfaceConversion (dynamic_type : string).

(** A dynamically typed value ([interface{}]): the dynamic types a
    caller of [StoreConfig] can pass. *)
Inductive any :=
| AnyNil
| AnyString (s : string)
| AnyInt (n : Z)
| AnyBool (b : bool)
| AnyBytes (bs : string).

Definition type_name (v : any) : string :=
  match v with
  | AnyNil => "nil"
  | AnyString _ => "string"
  | AnyInt _ => "int"
  | AnyBool _ => "bool"
  | AnyBytes _ => "[]uint8"
  end.

(** A call either returns its results or panics. *)
Inductive outcome (A : Type) : Type :=
| Returns (a : A)
| Panics (p : panic).
Arguments Returns {A} a.
Arguments Panics {A} p.

#[export] Instance outcome_ret : MRet outcome := fun A a => Returns a.
#[export] Instance outcome_bind : MBind outcome := fun A B f m =>
  match m with
  | Returns a => f a
  | Panics p => Panics p
  end.

(** [v.(string)], the unchecked type assertion. *)
Definition assert_string (v : any) : outcome string :=
  match v with
  | AnyString s => Returns s
  | _ => Panics (InterfaceConversion (type_name v))
  end.

(** [s[n:]] with its bounds check. *)
Definition slice_from (s : string) (n : Z) : outcome string :=
  if (n <? 0) || (len s <? n) then Panics (SliceBoundsOutOfRange n (len s))
  else Returns (drop_bytes (Z.to_nat n) s).

(** Result of a function that returns a pointer and an error: either
    [(p, nil)] or [(nil, err)]. *)
Inductive result (A : Type) : Type :=
| Ok (a : A)
| Err (e : error).
Arguments Ok {A} a.
Arguments Err {A} e.

(** 64-bit [int]. *)
Definition intSize : Z := 64.
Definition maxInt : Z := 2 ^ (intSize - 1) - 1.
Definition minInt : Z := - 2 ^ (intSize - 1).
Definition maxUint64 : Z := 2 ^ 64 - 1.

(** Two's complement wrap-around of [int] arithmetic. *)
Definition wrap_int (z : Z) : Z :=
  (z + 2 ^ (intSize - 1)) mod 2 ^ intSize - 2 ^ (intSize - 1).

Definition int_add (a b : Z) : Z := wrap_int (a + b).

End Go.
Export Go.

(** ** Package strconv *)

Module strconv.

Definition syntaxError (fn str : string) : error := NumError fn str ErrSyntax.
Definition rangeError (fn str : string) : error := NumError fn str ErrRange.

Definition is_digit (c : ascii) : bool :=
  (48 <=? byte_val c) && (byte_val c <=? 57).

(** [lower(c)]: [c | ('x' - 'X')] *)
Definition lower (c : ascii) : Z := Z.lor (byte_val c) 32.

(** Decimal digits of an unsigned number, least significant first into
    the accumulator, as [formatBits] fills its buffer from the right.
    Twenty digits are enough for a 64-bit number. *)
Fixpoint formatBits (fuel : nat) (u : Z) (acc : string) : string :=
  match fuel with
  | O => acc
  | S fuel' =>
      if u <? 10 then String (byte_of (48 + u)) acc
      else formatBits fuel' (u / 10) (String (byte_of (48 + u mod 10)) acc)
  end.

(** [strconv.Itoa] *)
Definition Itoa (i : Z) : string :=
  if i <? 0 then String "-" (formatBits 20 (- i) EmptyString)
  else formatBits 20 i EmptyString.

(** The digit loop of [ParseUint] for base 10 and 64 bits: [n] is the
    value read so far, [s0] the whole argument (for the error). *)
Fixpoint parseUint_loop (s0 : string) (s : string) (n : Z) : Z * option error :=
  match s with
  | EmptyString => (n, None)
  | String c s' =>
      let cutoff := maxUint64 / 10 + 1 in
      if is_digit c then
        let d := byte_val c - 48 in
        if cutoff <=? n then (maxUint64, Some (rangeError "ParseUint" s0))
        else
          let n10 := n * 10 in
          let n1 := n10 + d in
          if maxUint64 <? n1 then (maxUint64, Some (rangeError "ParseUint" s0))
          else parseUint_loop s0 s' n1
      else if (97 <=? lower c) && (lower c <=? 122) then
        (* a letter is a digit of value at least 10 = base *)
        (0, Some (syntaxError "ParseUint" s0))
      else (0, Some (syntaxError "ParseUint" s0))
  end.

(** [ParseUint(s, 10, 64)] *)
Definition ParseUint (s : string) : Z * option error :=
  match s with
  | EmptyString => (0, Some (syntaxError "ParseUint" s))
  | _ => parseUint_loop s s 0
  end.

(** [ParseInt(s, 10, 0)] *)
Definition ParseInt (s : string) : Z * option error :=
  match s with
  | EmptyString => (0, Some (syntaxError "ParseInt" s))
  | String c0 rest =>
      let s0 := s in
      let '(neg, s1) :=
        if Ascii.eqb c0 "+" then (false, rest)
        else if Ascii.eqb c0 "-" then (true, rest)
        else (false, s) in
      let '(un, err) := ParseUint s1 in
      match err with
      | Some (NumError _ _ ErrSyntax) => (0, Some (syntaxError "ParseInt" s0))
      | _ =>
          let cutoff := 2 ^ (intSize - 1) in
          if negb neg && (cutoff <=? un) then
            (cutoff - 1, Some (rangeError "ParseInt" s0))
          else if neg && (cutoff <? un) then
            (- cutoff, Some (rangeError "ParseInt" s0))
          else (if neg then - un else un, None)
      end
  end.

(** The digit loop of the fast path of [Atoi]. *)
Fixpoint atoi_fast_loop (s0 : string) (s : string) (n : Z) : Z * option error :=
  match s with
  | EmptyString => (n, None)
  | String ch s' =>
      let d := (byte_val ch - 48) mod 256 in
      if 9 <? d then (0, Some (syntaxError "Atoi" s0))
      else atoi_fast_loop s0 s' (n * 10 + d)
  end.

(** [strconv.Atoi]: strings of 1 to 18 bytes take the fast path, the
    others go through [ParseInt], whose error is renamed. *)
Definition Atoi (s : string) : Z * option error :=
  let sLen := len s in
  if (0 <? sLen) && (sLen <? 19) then
    match s with
    | EmptyString => (0, Some (syntaxError "Atoi" s))
    | String c0 rest =>
        let signed := Ascii.eqb c0 "-" || Ascii.eqb c0 "+" in
        let s1 := if signed then rest else s in
        if signed && (len s1 <? 1) then (0, Some (syntaxError "Atoi" s))
        else
          let '(n, err) := atoi_fast_loop s s1 0 in
          match err with
          | Some e => (0, Some e)
          | None => (if Ascii.eqb c0 "-" then - n else n, None)
          end
    end
  else
    let '(i64, err) := ParseInt s in
    match err with
    | Some (NumError _ num e) => (i64, Some (NumError "Atoi" num e))
    | other => (i64, other)
    end.

End strconv.

(** ** Package unicode/utf8 *)

Module utf8.

Definition RuneError : Z := 0xFFFD.
Definition MaxRune : Z := 0x10FFFF.
Definition RuneSelf : Z := 0x80.

(** What the table [first] and [acceptRanges] say about a leading byte:
    an ASCII byte, an invalid byte, or the length of the sequence with
    the range accepted for its second byte. *)
Inductive first_info :=
| Ascii
| Invalid
| Lead (size : nat) (lo hi : Z).

Definition first (p0 : Z) : first_info :=
  if p0 <? 0x80 then Ascii
  else if p0 <? 0xC2 then Invalid
  else if p0 <? 0xE0 then Lead 2 0x80 0xBF
  else if p0 =? 0xE0 then Lead 3 0xA0 0xBF
  else if p0 <? 0xED then Lead 3 0x80 0xBF
  else if p0 =? 0xED then Lead 3 0x80 0x9F
  else if p0 <? 0xF0 then Lead 3 0x80 0xBF
  else if p0 =? 0xF0 then Lead 4 0x90 0xBF
  else if p0 <? 0xF4 then Lead 4 0x80 0xBF
  else if p0 =? 0xF4 then Lead 4 0x80 0x8F
  else Invalid.

(** Continuation byte range [locb..hicb]. *)
Definition is_cont (b : Z) : bool := (0x80 <=? b) && (b <=? 0xBF).

(** The rune of a sequence of two, three and four bytes. *)
Definition rune2 (p0 b1 : Z) : Z :=
  Z.lor (Z.shiftl (Z.land p0 0x1F) 6) (Z.land b1 0x3F).
Definition rune3 (p0 b1 b2 : Z) : Z :=
  Z.lor (Z.lor (Z.shiftl (Z.land p0 0x0F) 12) (Z.shiftl (Z.land b1 0x3F) 6))
        (Z.land b2 0x3F).
Definition rune4 (p0 b1 b2 b3 : Z) : Z :=
  Z.lor (Z.lor (Z.lor (Z.shiftl (Z.land p0 0x07) 18) (Z.shiftl (Z.land b1 0x3F) 12))
               (Z.shiftl (Z.land b2 0x3F) 6))
        (Z.land b3 0x3F).

(** [utf8.DecodeRuneInString]: the rune at the head of [s] and its
    width in bytes; [(RuneError, 1)] for an invalid encoding and
    [(RuneError, 0)] for the empty string. *)
Definition DecodeRuneInString (s : string) : Z * nat :=
  match s with
  | EmptyString => (RuneError, 0%nat)
  | String c0 s1 =>
      let p0 := byte_val c0 in
      match first p0 with
      | Ascii => (p0, 1%nat)
      | Invalid => (RuneError, 1%nat)
      | Lead sz lo hi =>
          match s1 with
          | EmptyString => (RuneError, 1%nat)
          | String c1 s2 =>
              let b1 := byte_val c1 in
              if (b1 <? lo) || (hi <? b1) then (RuneError, 1%nat)
              else if (sz <=? 2)%nat then
                (rune2 p0 b1, 2%nat)
              else
                match s2 with
                | EmptyString => (RuneError, 1%nat)
                | String c2 s3 =>
                    let b2 := byte_val c2 in
                    if negb (is_cont b2) then (RuneError, 1%nat)
                    else if (sz <=? 3)%nat then
                      (rune3 p0 b1 b2, 3%nat)
                    else
                      match s3 with
                      | EmptyString => (RuneError, 1%nat)
                      | String c3 _ =>
                          let b3 := byte_val c3 in
                          if negb (is_cont b3) then (RuneError, 1%nat)
                          else
                            (rune4 p0 b1 b2 b3, 4%nat)
                      end
                end
          end
      end
  end.

Definition encode3 (r : Z) : string :=
  String (byte_of (Z.lor 0xE0 (Z.shiftr r 12)))
    (String (byte_of (Z.lor 0x80 (Z.land (Z.shiftr r 6) 0x3F)))
       (String (byte_of (Z.lor 0x80 (Z.land r 0x3F))) EmptyString)).

(** [utf8.EncodeRune] (the bytes written); [r] is a rune, a signed
    32-bit number. *)
Definition EncodeRune (r : Z) : string :=
  let i := r mod 2 ^ 32 in
  if i <=? 0x7F then String (byte_of r) EmptyString
  else if i <=? 0x7FF then
    String (byte_of (Z.lor 0xC0 (Z.shiftr r 6)))
      (String (byte_of (Z.lor 0x80 (Z.land r 0x3F))) EmptyString)
  else if (MaxRune <? i) || ((0xD800 <=? i) && (i <=? 0xDFFF)) then
    encode3 RuneError
  else if i <=? 0xFFFF then encode3 r
  else
    String (byte_of (Z.lor 0xF0 (Z.shiftr r 18)))
      (String (byte_of (Z.lor 0x80 (Z.land (Z.shiftr r 12) 0x3F)))
         (String (byte_of (Z.lor 0x80 (Z.land (Z.shiftr r 6) 0x3F)))
            (String (byte_of (Z.lor 0x80 (Z.land r 0x3F))) EmptyString))).

(** [utf8.ValidString] *)
Fixpoint valid_loop (fuel : nat) (s : string) : bool :=
  match fuel with
  | O => match s with EmptyString => true | _ => false end
  | S fuel' =>
      match s with
      | EmptyString => true
      | String c _ =>
          let '(r, size) := DecodeRuneInString s in
          if (r =? RuneError) && (size =? 1)%nat then false
          else valid_loop fuel' (drop_bytes size s)
      end
  end.

Definition ValidString (s : string) : bool := valid_loop (String.length s) s.

End utf8.

(** ** Package encoding/json, for the values this package encodes and
       decodes *)

Module json.

(** *** Encoding *)

Definition hex_digit (n : Z) : ascii :=
  if n <? 10 then byte_of (48 + n) else byte_of (87 + n).

(** [htmlSafeSet]: the ASCII bytes written as they are. *)
Definition htmlSafe (b : Z) : bool :=
  (0x20 <=? b) && negb (b =? 0x22) && negb (b =? 0x5C)
  && negb (b =? 0x3C) && negb (b =? 0x3E) && negb (b =? 0x26).

(** Escape of an ASCII byte outside [htmlSafeSet].  (Go 1.22 and later
    write bytes 8 and 12 as backslash-b and backslash-f instead of the
    six-byte form; the decoder reads both alike.) *)
Definition escape_ascii (b : Z) : string :=
  if (b =? 0x5C) || (b =? 0x22) then String "\" (String (byte_of b) EmptyString)
  else if b =? 0x0A then "\n"
  else if b =? 0x0D then "\r"
  else if b =? 0x09 then "\t"
  else "\u00" ++ String (hex_digit (Z.shiftr b 4))
                   (String (hex_digit (Z.land b 0xF)) EmptyString).

(** The loop of the string encoder, between the quotes. *)
Fixpoint encode_string_body (fuel : nat) (s : string) : string :=
  match fuel with
  | O => EmptyString
  | S fuel' =>
      match s with
      | EmptyString => EmptyString
      | String c0 s1 =>
          let b := byte_val c0 in
          if b <? utf8.RuneSelf then
            if htmlSafe b then String c0 (encode_string_body fuel' s1)
            else escape_ascii b ++ encode_string_body fuel' s1
          else
            let '(c, size) := utf8.DecodeRuneInString s in
            if (c =? utf8.RuneError) && (size =? 1)%nat then
              ("\u" ++ "fffd") ++ encode_string_body fuel' s1
            else if (c =? 0x2028) || (c =? 0x2029) then
              "\u202" ++ String (hex_digit (Z.land c 0xF))
                           (encode_string_body fuel' (drop_bytes size s))
            else
              substring 0 size s ++ encode_string_body fuel' (drop_bytes size s)
      end
  end.

(** What becomes of a string that is written and read back: each byte
    that does not start a well-formed UTF-8 sequence is replaced by the
    three bytes of U+FFFD. *)
Fixpoint coerce_loop (fuel : nat) (s : string) : string :=
  match fuel with
  | O => EmptyString
  | S fuel' =>
      match s with
      | EmptyString => EmptyString
      | String c0 s1 =>
          let '(c, size) := utf8.DecodeRuneInString s in
          if (c =? utf8.RuneError) && (size =? 1)%nat then
            utf8.EncodeRune utf8.RuneError ++ coerce_loop fuel' s1
          else
            substring 0 size s ++ coerce_loop fuel' (drop_bytes size s)
      end
  end.

Definition coerce (s : string) : string := coerce_loop (String.length s) s.

(** A Go string as a JSON string. *)
Definition encode_string (s : string) : string :=
  String dq (encode_string_body (String.length s) s ++ String dq EmptyString).

Fixpoint encode_elems (l : list string) : string :=
  match l with
  | [] => EmptyString
  | [x] => encode_string x
  | x :: l' => encode_string x ++ "," ++ encode_elems l'
  end.

(** A [[]string]: [null] for the nil slice, else an array. *)
Definition encode_string_slice (v : option (list string)) : string :=
  match v with
  | None => "null"
  | Some l => "[" ++ encode_elems l ++ "]"
  end.

(** *** Decoding: the syntax *)

(** A JSON text as a tree.  Strings are already unquoted; a number
    keeps its literal; the members of an object are kept in order, with
    repetitions. *)
Inductive value :=
| Null
| Bool (b : bool)
| Number (lit : string)
| Str (s : string)
| Array (elems : list value)
| Object (members : list (string * value)).

Definition maxNestingDepth : Z := 10000.

Definition isSpace (c : ascii) : bool :=
  let b := byte_val c in
  (b =? 0x20) || (b =? 0x09) || (b =? 0x0D) || (b =? 0x0A).

Fixpoint skip_space (s : string) : string :=
  match s with
  | String c s' => if isSpace c then skip_space s' else s
  | EmptyString => s
  end.

Definition hex_val (c : ascii) : option Z :=
  let b := byte_val c in
  if (48 <=? b) && (b <=? 57) then Some (b - 48)
  else if (97 <=? b) && (b <=? 102) then Some (b - 87)
  else if (65 <=? b) && (b <=? 70) then Some (b - 55)
  else None.

(** Four hexadecimal digits at the head of [s]. *)
Definition hex4 (s : string) : option (Z * string) :=
  match s with
  | String c1 (String c2 (String c3 (String c4 rest))) =>
      match hex_val c1, hex_val c2, hex_val c3, hex_val c4 with
      | Some h1, Some h2, Some h3, Some h4 =>
          Some (((h1 * 16 + h2) * 16 + h3) * 16 + h4, rest)
      | _, _, _, _ => None
      end
  | _ => None
  end.

(** [getu4]: the number of a backslash-u escape at the head of [s]. *)
Definition getu4 (s : string) : option (Z * string) :=
  match s with
  | String "\" (String "u" rest) => hex4 rest
  | _ => None
  end.

(** [utf16.DecodeRune] *)
Definition utf16_DecodeRune (r1 r2 : Z) : Z :=
  if (0xD800 <=? r1) && (r1 <? 0xDC00) && (0xDC00 <=? r2) && (r2 <? 0xE000)
  then Z.lor (Z.shiftl (r1 - 0xD800) 10) (r2 - 0xDC00) + 0x10000
  else utf8.RuneError.

Definition isSurrogate (r : Z) : bool := (0xD800 <=? r) && (r <? 0xE000).

(** The body of a string literal after its opening quote: the unquoted
    bytes and the text after the closing quote.  The scanner refuses
    control bytes and unknown escapes; unquoting replaces invalid UTF-8
    and unpaired surrogates by U+FFFD. *)
Fixpoint parse_string_body (fuel : nat) (s : string) : option (string * string) :=
  match fuel with
  | O => None
  | S fuel' =>
      match s with
      | EmptyString => None
      | String c s1 =>
          let b := byte_val c in
          if b =? 0x22 then Some (EmptyString, s1)
          else if b =? 0x5C then
            match s1 with
            | EmptyString => None
            | String e s2 =>
                let simple (x : Z) :=
                  match parse_string_body fuel' s2 with
                  | Some (out, rest) => Some (String (byte_of x) out, rest)
                  | None => None
                  end in
                let eb := byte_val e in
                if (eb =? 0x22) || (eb =? 0x5C) || (eb =? 0x2F) then simple eb
                else if eb =? 0x62 then simple 0x08
                else if eb =? 0x66 then simple 0x0C
                else if eb =? 0x6E then simple 0x0A
                else if eb =? 0x72 then simple 0x0D
                else if eb =? 0x74 then simple 0x09
                else if eb =? 0x75 then
                  match hex4 s2 with
                  | None => None
                  | Some (rr, s3) =>
                      let '(rune, s4) :=
                        if isSurrogate rr then
                          match getu4 s3 with
                          | Some (rr1, s3') =>
                              let dec := utf16_DecodeRune rr rr1 in
                              if negb (dec =? utf8.RuneError) then (dec, s3')
                              else (utf8.RuneError, s3)
                          | None => (utf8.RuneError, s3)
                          end
                        else (rr, s3) in
                      match parse_string_body fuel' s4 with
                      | Some (out, rest) => Some (utf8.EncodeRune rune ++ out, rest)
                      | None => None
                      end
                  end
                else None
            end
          else if b <? 0x20 then None
          else if b <? utf8.RuneSelf then
            match parse_string_body fuel' s1 with
            | Some (out, rest) => Some (String c out, rest)
            | None => None
            end
          else
            let '(rr, size) := utf8.DecodeRuneInString s in
            match parse_string_body fuel' (drop_bytes size s) with
            | Some (out, rest) => Some (utf8.EncodeRune rr ++ out, rest)
            | None => None
            end
      end
  end.

Definition is_digit (c : ascii) : bool :=
  (48 <=? byte_val c) && (byte_val c <=? 57).

(** The longest run of digits at the head of [s]. *)
Fixpoint span_digits (s : string) : string * string :=
  match s with
  | String c s' =>
      if is_digit c then
        let '(ds, rest) := span_digits s' in (String c ds, rest)
      else (EmptyString, s)
  | EmptyString => (EmptyString, s)
  end.

(** At least one digit. *)
Definition digits1 (s : string) : option (string * string) :=
  match span_digits s with
  | (EmptyString, _) => None
  | (ds, rest) => Some (ds, rest)
  end.

(** A number literal: minus, integer part, fraction, exponent. *)
Definition scan_number (s : string) : option (string * string) :=
  let '(sign, s1) :=
    match s with
    | String "-" s' => ("-", s')
    | _ => (EmptyString, s)
    end in
  let int_part :=
    match s1 with
    | String "0" s' => Some ("0", s')
    | _ => digits1 s1
    end in
  match int_part with
  | None => None
  | Some (ip, s2) =>
      let frac :=
        match s2 with
        | String "." s' =>
            match digits1 s' with
            | Some (ds, rest) => Some (String "." ds, rest)
            | None => None
            end
        | _ => Some (EmptyString, s2)
        end in
      match frac with
      | None => None
      | Some (fp, s3) =>
          let expo :=
            match s3 with
            | String e s' =>
                if Ascii.eqb e "e" || Ascii.eqb e "E" then
                  let '(sg, s'') :=
                    match s' with
                    | String "+" t => ("+", t)
                    | String "-" t => ("-", t)
                    | _ => (EmptyString, s')
                    end in
                  match digits1 s'' with
                  | Some (ds, rest) => Some (String e (sg ++ ds), rest)
                  | None => None
                  end
                else Some (EmptyString, s3)
            | EmptyString => Some (EmptyString, s3)
            end in
          match expo with
          | None => None
          | Some (ep, s4) => Some (sign ++ ip ++ fp ++ ep, s4)
          end
      end
  end.

Definition expect_literal (lit : string) (v : value) (s : string)
  : option (value * string) :=
  if HasPrefix s lit then Some (v, drop_bytes (String.length lit) s) else None.

(** A value at the head of [s] (leading space already skipped), inside
    [depth] open arrays and objects.  [parse_elems] reads the rest of an
    array after its first element position, [parse_members] the rest of
    an object from a key on. *)
Fixpoint parse_value (fuel : nat) (depth : Z) (s : string) {struct fuel}
  : option (value * string) :=
  match fuel with
  | O => None
  | S fuel' =>
      match s with
      | EmptyString => None
      | String c s1 =>
          let b := byte_val c in
          if b =? 0x22 then
            match parse_string_body (String.length s1) s1 with
            | Some (str, rest) => Some (Str str, rest)
            | None => None
            end
          else if b =? 0x7B then
            if maxNestingDepth <? depth + 1 then None
            else
              let s2 := skip_space s1 in
              match s2 with
              | String "}" rest => Some (Object [], rest)
              | _ =>
                  match parse_members fuel' (depth + 1) s2 with
                  | Some (ms, rest) => Some (Object ms, rest)
                  | None => None
                  end
              end
          else if b =? 0x5B then
            if maxNestingDepth <? depth + 1 then None
            else
              let s2 := skip_space s1 in
              match s2 with
              | String "]" rest => Some (Array [], rest)
              | _ =>
                  match parse_elems fuel' (depth + 1) s2 with
                  | Some (es, rest) => Some (Array es, rest)
                  | None => None
                  end
              end
          else if b =? 0x74 then expect_literal "true" (Bool true) s
          else if b =? 0x66 then expect_literal "false" (Bool false) s
          else if b =? 0x6E then expect_literal "null" Null s
          else if (b =? 0x2D) || is_digit c then
            match scan_number s with
            | Some (lit, rest) => Some (Number lit, rest)
            | None => None
            end
          else None
      end
  end

with parse_elems (fuel : nat) (depth : Z) (s : string) {struct fuel}
  : option (list value * string) :=
  match fuel with
  | O => None
  | S fuel' =>
      match parse_value fuel' depth s with
      | None => None
      | Some (v, s1) =>
          match skip_space s1 with
          | String "," s2 =>
              match parse_elems fuel' depth (skip_space s2) with
              | Some (vs, rest) => Some (v :: vs, rest)
              | None => None
              end
          | String "]" rest => Some ([v], rest)
          | _ => None
          end
      end
  end

with parse_members (fuel : nat) (depth : Z) (s : string) {struct fuel}
  : option (list (string * value) * string) :=
  match fuel with
  | O => None
  | S fuel' =>
      match s with
      | String c s1 =>
          if byte_val c =? 0x22 then
            match parse_string_body (String.length s1) s1 with
            | None => None
            | Some (key, s2) =>
                match skip_space s2 with
                | String ":" s3 =>
                    match parse_value fuel' depth (skip_space s3) with
                    | None => None
                    | Some (v, s4) =>
                        match skip_space s4 with
                        | String "," s5 =>
                            match parse_members fuel' depth (skip_space s5) with
                            | Some (ms, rest) => Some ((key, v) :: ms, rest)
                            | None => None
                            end
                        | String "}" rest => Some ([(key, v)], rest)
                        | _ => None
                        end
                    end
                | _ => None
                end
            end
          else None
      | EmptyString => None
      end
  end.

(** [checkValid] and the scan of the whole text: one value, with space
    around it and nothing else. *)
Definition parse (data : string) : option value :=
  match parse_value (S (String.length data)) 0 (skip_space data) with
  | Some (v, rest) =>
      match skip_space rest with
      | EmptyString => Some v
      | _ => None
      end
  | None => None
  end.

(** *** Decoding: storing into Go values *)

(** The first error met while storing is kept ([saveError]). *)
Definition saveError (saved : option error) (e : error) : option error :=
  match saved with
  | Some _ => saved
  | None => Some e
  end.

(** Storing a JSON value into a [string] variable holding [old]. *)
Definition store_string (old : string) (v : value) (saved : option error)
  : string * option error :=
  match v with
  | Str s => (s, saved)
  | Null => (old, saved)
  | Bool _ => (old, saveError saved (UnmarshalTypeError "bool"))
  | Number _ => (old, saveError saved (UnmarshalTypeError "number"))
  | Array _ => (old, saveError saved (UnmarshalTypeError "array"))
  | Object _ => (old, saveError saved (UnmarshalTypeError "object"))
  end.

(** Storing the elements of an array into a slice: element [i] is
    stored into the old element [i] when there is one and into a zero
    string otherwise. *)
Fixpoint store_elems (old : list string) (vs : list value) (saved : option error)
  : list string * option error :=
  match vs with
  | [] => ([], saved)
  | v :: vs' =>
      let '(x, saved1) := store_string (hd EmptyString old) v saved in
      let '(xs, saved2) := store_elems (tl old) vs' saved1 in
      (x :: xs, saved2)
  end.

(** Storing a JSON value into a [[]string] variable holding [old]
    ([None] is the nil slice). *)
Definition store_string_slice (old : option (list string)) (v : value)
    (saved : option error) : option (list string) * option error :=
  match v with
  | Null => (None, saved)
  | Array vs =>
      let '(xs, saved') := store_elems (default [] old) vs saved in
      (Some xs, saved')
  | Str _ => (old, saveError saved (UnmarshalTypeError "string"))
  | Bool _ => (old, saveError saved (UnmarshalTypeError "bool"))
  | Number _ => (old, saveError saved (UnmarshalTypeError "number"))
  | Object _ => (old, saveError saved (UnmarshalTypeError "object"))
  end.

(** [foldRune] on the runes whose fold orbit holds an ASCII letter (the
    long s and the Kelvin sign); the other runes above ASCII fold to
    runes above ASCII. *)
Definition foldRune (r : Z) : Z :=
  if r =? 0x17F then 0x53
  else if r =? 0x212A then 0x4B
  else r.

(** [foldName]: the key an object member is looked up with when no
    field has exactly its name. *)
Fixpoint foldName (fuel : nat) (s : string) : string :=
  match fuel with
  | O => EmptyString
  | S fuel' =>
      match s with
      | EmptyString => EmptyString
      | String c s1 =>
          let b := byte_val c in
          if b <? utf8.RuneSelf then
            String (if (97 <=? b) && (b <=? 122) then byte_of (b - 32) else c)
                   (foldName fuel' s1)
          else
            let '(r, n) := utf8.DecodeRuneInString s in
            utf8.EncodeRune (foldRune r) ++ foldName fuel' (drop_bytes n s)
      end
  end.

(** Does the member name [key] select the struct field tagged [name]? *)
Definition field_matches (name key : string) : bool :=
  String.eqb key name
  || String.eqb (foldName (String.length key) key)
                (foldName (String.length name) name).

End json.

(** ** Package crypto/md5 *)

Module md5.

Definition Size : Z := 16.

(** The per-round shift amounts. *)
Definition shifts : list Z :=
  [ 7; 12; 17; 22;
     7; 12; 17; 22;
     7; 12; 17; 22;
     7; 12; 17; 22;
     5; 9; 14; 20;
     5; 9; 14; 20;
     5; 9; 14; 20;
     5; 9; 14; 20;
     4; 11; 16; 23;
     4; 11; 16; 23;
     4; 11; 16; 23;
     4; 11; 16; 23;
     6; 10; 15; 21;
     6; 10; 15; 21;
     6; 10; 15; 21;
     6; 10; 15; 21 ].

(** The table of constants, [floor(2^32 * abs(sin(i + 1)))]. *)
Definition table : list Z :=
  [ 0xd76aa478; 0xe8c7b756; 0x242070db; 0xc1bdceee;
     0xf57c0faf; 0x4787c62a; 0xa8304613; 0xfd469501;
     0x698098d8; 0x8b44f7af; 0xffff5bb1; 0x895cd7be;
     0x6b901122; 0xfd987193; 0xa679438e; 0x49b40821;
     0xf61e2562; 0xc040b340; 0x265e5a51; 0xe9b6c7aa;
     0xd62f105d; 0x02441453; 0xd8a1e681; 0xe7d3fbc8;
     0x21e1cde6; 0xc33707d6; 0xf4d50d87; 0x455a14ed;
     0xa9e3e905; 0xfcefa3f8; 0x676f02d9; 0x8d2a4c8a;
     0xfffa3942; 0x8771f681; 0x6d9d6122; 0xfde5380c;
     0xa4beea44; 0x4bdecfa9; 0xf6bb4b60; 0xbebfbc70;
     0x289b7ec6; 0xeaa127fa; 0xd4ef3085; 0x04881d05;
     0xd9d4d039; 0xe6db99e5; 0x1fa27cf8; 0xc4ac5665;
     0xf4292244; 0x432aff97; 0xab9423a7; 0xfc93a039;
     0x655b59c3; 0x8f0ccc92; 0xffeff47d; 0x85845dd1;
     0x6fa87e4f; 0xfe2ce6e0; 0xa3014314; 0x4e0811a1;
     0xf7537e82; 0xbd3af235; 0x2ad7d2bb; 0xeb86d391 ].

Definition mask32 : Z := 0xFFFFFFFF.
Definition add32 (a b : Z) : Z := Z.land (a + b) mask32.
Definition not32 (a : Z) : Z := Z.lxor a mask32.
Definition rotl32 (x n : Z) : Z :=
  Z.land (Z.lor (Z.shiftl x n) (Z.shiftr x (32 - n))) mask32.

(** The message followed by the byte 0x80, zero bytes up to 56 modulo
    64, and the length in bits as a 64-bit little-endian number. *)
Definition padding (msg : list Z) : list Z :=
  let n := Z.of_nat (length msg) in
  let zeros := Z.to_nat ((55 - n) mod 64) in
  let bits := (n * 8) mod 2 ^ 64 in
  msg ++ [0x80] ++ repeat 0 zeros
      ++ map (fun i => Z.land (Z.shiftr bits (8 * Z.of_nat i)) 0xFF) (seq 0 8).

(** Little-endian 32-bit words of a block of bytes. *)
Fixpoint words (bs : list Z) : list Z :=
  match bs with
  | b0 :: b1 :: b2 :: b3 :: rest =>
      (b0 + Z.shiftl b1 8 + Z.shiftl b2 16 + Z.shiftl b3 24) :: words rest
  | _ => []
  end.

(** Blocks of 16 words. *)
Fixpoint blocks (fuel : nat) (ws : list Z) : list (list Z) :=
  match fuel with
  | O => []
  | S fuel' =>
      match ws with
      | [] => []
      | _ => firstn 16 ws :: blocks fuel' (skipn 16 ws)
      end
  end.

Record state := mkstate { sa : Z; sb : Z; sc : Z; sd : Z }.

Definition init : state :=
  mkstate 0x67452301 0xefcdab89 0x98badcfe 0x10325476.

(** One of the 64 steps on a block [m]. *)
Definition step (m : list Z) (st : state) (i : nat) : state :=
  let '(mkstate a b c d) := st in
  let iz := Z.of_nat i in
  let '(f, g) :=
    if iz <? 16 then (Z.lor (Z.land b c) (Z.land (not32 b) d), iz)
    else if iz <? 32 then
      (Z.lor (Z.land d b) (Z.land (not32 d) c), (5 * iz + 1) mod 16)
    else if iz <? 48 then (Z.lxor (Z.lxor b c) d, (3 * iz + 5) mod 16)
    else (Z.lxor c (Z.lor b (not32 d)), (7 * iz) mod 16) in
  let f' := add32 (add32 (add32 f a) (nth i table 0)) (nth (Z.to_nat g) m 0) in
  mkstate d (add32 b (rotl32 f' (nth i shifts 0))) b c.

Definition block (st : state) (m : list Z) : state :=
  let '(mkstate a b c d) := fold_left (step m) (seq 0 64) st in
  mkstate (add32 (sa st) a) (add32 (sb st) b) (add32 (sc st) c) (add32 (sd st) d).

Definition le_bytes (w : Z) : list Z :=
  map (fun i => Z.land (Z.shiftr w (8 * Z.of_nat i)) 0xFF) (seq 0 4).

Definition bytes_of_string (s : string) : list Z :=
  map byte_val (list_ascii_of_string s).

(** [md5.Sum]: the 16 bytes of the digest. *)
Definition Sum (data : string) : list Z :=
  let ws := words (padding (bytes_of_string data)) in
  let st := fold_left block (blocks (length ws) ws) init in
  le_bytes (sa st) ++ le_bytes (sb st) ++ le_bytes (sc st) ++ le_bytes (sd st).

(** The digest in hexadecimal, as [fmt.Sprintf] with verb x prints it. *)
Definition hex (d : list Z) : string :=
  string_of_list_ascii
    (flat_map (fun b => [json.hex_digit (Z.shiftr b 4); json.hex_digit (Z.land b 0xF)]) d).

End md5.

(** ** The table [configs] and the GORM statements run against it *)

Module gorm.

(** Instants ([time.Time]), as a number. *)
Definition Time := Z.

(** [type conf struct], a row of table [configs]. *)
Record conf := mkconf {
  ID : Z;              (* uint32 *)
  Name : string;       (* gorm:"unique;size:128;not null" *)
  Value : string;      (* gorm:"size:16250;not null" *)
  CreatedAt : Time;
  UpdatedAt : Time
}.

Definition maxUint32 : Z := 2 ^ 32 - 1.
Definition nameSize : Z := 128.
Definition valueSize : Z := 16250.

(** The backing store: the rows of the table in insertion order, the
    next value of the auto-increment key, the state of the connection
    ([Some e] when every statement fails with [e]) and whether the
    engine refreshes [updated_at] on an update that does not assign
    it.  Names are compared byte by byte. *)
Record DB := mkDB {
  rows : list conf;
  auto_increment : Z;
  conn : option error;
  refresh_updated_at : bool
}.

Definition with_rows (db : DB) (rs : list conf) : DB :=
  mkDB rs (auto_increment db) (conn db) (refresh_updated_at db).

(** The size limits of the two string columns. *)
Definition fits_schema (c : conf) : bool :=
  (len (Name c) <=? nameSize) && (len (Value c) <=? valueSize).

(** SQL [LIKE]: [%] stands for any run of bytes, [_] for one byte (the
    escape character is left out: the patterns of this file have none). *)
Fixpoint like (pattern s : string) : bool :=
  match pattern with
  | EmptyString => match s with EmptyString => true | _ => false end
  | String p pattern' =>
      if Ascii.eqb p "%" then
        (fix any_tail (t : string) : bool :=
           like pattern' t
           || match t with
              | String _ t' => any_tail t'
              | EmptyString => false
              end) s
      else
        match s with
        | String c s' =>
            (Ascii.eqb p "_" || Ascii.eqb p c) && like pattern' s'
        | EmptyString => false
        end
  end.

Definition name_is (n : string) (c : conf) : bool := String.eqb (Name c) n.
Definition name_like (pattern : string) (c : conf) : bool := like pattern (Name c).
Definition name_in (ns : list string) (c : conf) : bool :=
  existsb (String.eqb (Name c)) ns.

(** [db.Where(cond).Find(&confs)] *)
Definition Find (cond : conf -> bool) (db : DB) : list conf * option error :=
  match conn db with
  | Some e => ([], Some e)
  | None => (List.filter cond (rows db), None)
  end.

(** The row with the smallest primary key. *)
Fixpoint min_by_ID (l : list conf) : option conf :=
  match l with
  | [] => None
  | c :: l' =>
      match min_by_ID l' with
      | None => Some c
      | Some m => if ID c <=? ID m then Some c else Some m
      end
  end.

(** [db.Where(cond).First(&cfg)]: the first matching row in primary key
    order, [ErrRecordNotFound] when there is none. *)
Definition First (cond : conf -> bool) (db : DB) : option conf * option error :=
  match conn db with
  | Some e => (None, Some e)
  | None =>
      match min_by_ID (List.filter cond (rows db)) with
      | Some c => (Some c, None)
      | None => (None, Some ErrRecordNotFound)
      end
  end.

(** [db.First(&cfg)] for [cfg := conf{ID: id}]: a non-zero primary key
    of the destination is the condition; with a zero key there is
    none. *)
Definition First_by_key (id : Z) (db : DB) : option conf * option error :=
  First (fun c => if id =? 0 then true else ID c =? id) db.

(** [clause.OnConflict] *)
Record OnConflict := mkOnConflict {
  Columns : list string;
  DoUpdates : list (string * any)
}.

(** An argument of a statement as the text stored in a string column;
    [None] is SQL NULL. *)
Definition sql_text (v : any) : option string :=
  match v with
  | AnyNil => None
  | AnyString s => Some s
  | AnyBytes s => Some s
  | AnyInt n => Some (strconv.Itoa n)
  | AnyBool b => Some (if b then "1" else "0")
  end.

(** One assignment [column = v] of an update; both string columns are
    declared [not null]. *)
Definition assign (c : conf) (a : string * any) : option conf :=
  let '(column, v) := a in
  match sql_text v with
  | None => None
  | Some s =>
      if String.eqb column "value" then
        Some (mkconf (ID c) (Name c) s (CreatedAt c) (UpdatedAt c))
      else if String.eqb column "name" then
        Some (mkconf (ID c) s (Value c) (CreatedAt c) (UpdatedAt c))
      else None
  end.

Fixpoint assign_all (c : conf) (l : list (string * any)) : option conf :=
  match l with
  | [] => Some c
  | a :: l' =>
      match assign c a with
      | Some c' => assign_all c' l'
      | None => None
      end
  end.

Definition touch (db : DB) (now : Time) (c : conf) : conf :=
  if refresh_updated_at db
  then mkconf (ID c) (Name c) (Value c) (CreatedAt c) now
  else c.

(** The update of a row that conflicts with the row to insert: the
    assignments of [DoUpdates] are applied to it, and nothing else is. *)
Definition on_duplicate_key (db : DB) (now : Time) (oc : OnConflict) (r : conf)
  : result conf :=
  match assign_all r (DoUpdates oc) with
  | None => Err (ErrDriver "Column cannot be null")
  | Some r' =>
      if fits_schema r' then Ok (touch db now r')
      else Err (ErrDriver "Data too long for column")
  end.

(** The rows that satisfy [cond] updated by [f], the others as they
    are; the first error stops the statement. *)
Fixpoint update_where (cond : conf -> bool) (f : conf -> result conf)
    (rs : list conf) : result (list conf) :=
  match rs with
  | [] => Ok []
  | r :: rs' =>
      match (if cond r then f r else Ok r) with
      | Err e => Err e
      | Ok r' =>
          match update_where cond f rs' with
          | Err e => Err e
          | Ok rs'' => Ok (r' :: rs'')
          end
      end
  end.

(** [db.Clauses(onConflict).Create(&c)] for a [c] with a zero key and
    zero times: [INSERT ... ON DUPLICATE KEY UPDATE ...].  A new row
    takes the next key and the current time for both times.  When a row
    with the same (unique) name exists, that row is updated instead.  A
    string longer than its column is refused (strict SQL mode). *)
Definition Create (now : Time) (onConflict : option OnConflict) (c : conf) (db : DB)
  : DB * option error :=
  match conn db with
  | Some e => (db, Some e)
  | None =>
      if negb (fits_schema c) then (db, Some (ErrDriver "Data too long for column"))
      else if existsb (name_is (Name c)) (rows db) then
        match onConflict with
        | None => (db, Some (ErrDriver "Duplicate entry"))
        | Some oc =>
            match update_where (name_is (Name c)) (on_duplicate_key db now oc) (rows db) with
            | Err e => (db, Some e)
            | Ok rs => (with_rows db rs, None)
            end
        end
      else if maxUint32 <? auto_increment db then
        (db, Some (ErrDriver "Out of range value for column"))
      else
        (mkDB (rows db ++ [mkconf (auto_increment db) (Name c) (Value c) now now])
              (auto_increment db + 1) (conn db) (refresh_updated_at db),
         None)
  end.

(** [db.Delete(&conf{}, cond)]: the new table, [RowsAffected] and
    [Error]. *)
Definition Delete (cond : conf -> bool) (db : DB) : DB * (Z * option error) :=
  match conn db with
  | Some e => (db, (0, Some e))
  | None =>
      (with_rows db (List.filter (fun c => negb (cond c)) (rows db)),
       (Z.of_nat (length (List.filter cond (rows db))), None))
  end.

End gorm.
Export gorm.

(** ** Packages of this repository that the file imports *)

(** Package util/acl: the type [AllowList], its constructor and its JSON
    decoding, which [json.Unmarshal] runs on a value made by the
    constructor. *)
Class acl_package := {
  acl_AllowList : Type;
  acl_NewAllowList : Z -> string -> acl_AllowList;
  acl_Unmarshal : string -> acl_AllowList -> acl_AllowList * option error
}.

(** Package util/rate: likewise for [Strategy]. *)
Class rate_package := {
  rate_Strategy : Type;
  rate_NewStrategy : Z -> string -> rate_Strategy;
  rate_Unmarshal : string -> rate_Strategy -> rate_Strategy * option error
}.

(** ** Package store/mysql: the configuration store *)

Module NodeRouteGroup.
(** [type NodeRouteGroup struct]; [None] is the nil slice. *)
Record t := mk {
  ID : Z;                        (* json:"-" *)
  Name : string;                 (* json:"-" *)
  Nodes : option (list string)   (* json:"nodes" *)
}.
End NodeRouteGroup.

Module mysql.

Definition MysqlConfKeyReorgVersion : string := "reorg.version".

Definition RateLimitStrategyConfKeyPrefix : string := "ratelimit.strategy.".
Definition rateLimitStrategySqlMatchPattern : string :=
  RateLimitStrategyConfKeyPrefix ++ "%".

Definition AclAllowListConfKeyPrefix : string := "acl.allowlist.".
Definition aclAllowListSqlMatchPattern : string :=
  AclAllowListConfKeyPrefix ++ "%".

Definition NodeRouteGroupConfKeyPrefix : string := "noderoute.group.".
Definition nodeRouteGroupSqlMatchPattern : string :=
  NodeRouteGroupConfKeyPrefix ++ "%".

(** A line written by [logrus...Warn]. *)
Record log_entry := mklog {
  log_msg : string;
  log_cfg : conf;
  log_err : error
}.

(** [json.Marshal] of a [NodeRouteGroup]: by its tags the only member
    is [nodes]; encoding strings cannot fail. *)
Definition json_Marshal (routeGrp : NodeRouteGroup.t) : string * option error :=
  ("{" ++ String dq ("nodes" ++ String dq (":" ++
     json.encode_string_slice (NodeRouteGroup.Nodes routeGrp) ++ "}")), None).

(** Storing the members of an object into a [NodeRouteGroup]: a member
    whose name selects field [Nodes] is stored into it, the other
    members are skipped. *)
Fixpoint store_members (ms : list (string * json.value))
    (nodes : option (list string)) (saved : option error)
  : option (list string) * option error :=
  match ms with
  | [] => (nodes, saved)
  | (key, v) :: ms' =>
      if json.field_matches "nodes" key then
        let '(nodes', saved') := json.store_string_slice nodes v saved in
        store_members ms' nodes' saved'
      else store_members ms' nodes saved
  end.

(** [json.Unmarshal(data, &grp)]: the group after the call and the
    error.  Invalid text leaves the group as it is. *)
Definition json_Unmarshal (data : string) (grp : NodeRouteGroup.t)
  : NodeRouteGroup.t * option error :=
  match json.parse data with
  | None => (grp, Some (SyntaxError "invalid JSON text"))
  | Some (json.Object ms) =>
      let '(nodes, saved) := store_members ms (NodeRouteGroup.Nodes grp) None in
      (NodeRouteGroup.mk (NodeRouteGroup.ID grp) (NodeRouteGroup.Name grp) nodes, saved)
  | Some json.Null => (grp, None)
  | Some (json.Bool _) => (grp, Some (UnmarshalTypeError "bool"))
  | Some (json.Number _) => (grp, Some (UnmarshalTypeError "number"))
  | Some (json.Str _) => (grp, Some (UnmarshalTypeError "string"))
  | Some (json.Array _) => (grp, Some (UnmarshalTypeError "array"))
  end.

(** Modelled from the spec: [baseStore.exists], declared outside this
    file; it loads into [modelPtr] the first row that satisfies the
    condition and reports an absent row as [false] without an error.
    The first component is the destination after the call, which starts
    as the zero [conf]. *)
Definition exists_ (cond : conf -> bool) (db : DB) : conf * (bool * option error) :=
  let zero := mkconf 0 EmptyString EmptyString 0 0 in
  match First cond db with
  | (Some c, _) => (c, (true, None))
  | (None, Some ErrRecordNotFound) => (zero, (false, None))
  | (None, Some err) => (zero, (false, Some err))
  | (None, None) => (zero, (false, None))
  end.

(** [LoadConfig] *)
Definition LoadConfig (confNames : list string) (db : DB)
  : option (gmap string any) * option error :=
  match Find (name_in confNames) db with
  | (_, Some err) => (None, Some err)
  | (confs, None) =>
      (Some (fold_left (fun res c => <[Name c := AnyString (Value c)]> res)
                       confs (∅ : gmap string any)),
       None)
  end.

(** [StoreConfig] *)
Definition StoreConfig (now : Time) (confName : string) (confVal : any) (db : DB)
  : outcome (DB * option error) :=
  let onConflict := mkOnConflict ["name"] [("value", confVal)] in
  value ← assert_string confVal;
  mret (Create now (Some onConflict) (mkconf 0 confName value 0 0) db).

(** [DeleteConfig] *)
Definition DeleteConfig (confName : string) (db : DB) : DB * (bool * option error) :=
  let '(db', (rowsAffected, err)) := Delete (name_is confName) db in
  (db', (0 <? rowsAffected, err)).

(** [GetReorgVersion] *)
Definition GetReorgVersion (db : DB) : Z * option error :=
  match exists_ (name_is MysqlConfKeyReorgVersion) db with
  | (_, (_, Some err)) => (0, Some err)
  | (_, (false, None)) => (0, None)
  | (result, (true, None)) => strconv.Atoi (Value result)
  end.

(** [createOrUpdateReorgVersion] *)
Definition createOrUpdateReorgVersion (now : Time) (db : DB)
  : outcome (DB * option error) :=
  match GetReorgVersion db with
  | (_, Some err) => mret (db, Some err)
  | (version, None) =>
      let newVersion := strconv.Itoa (int_add version 1) in
      StoreConfig now MysqlConfKeyReorgVersion (AnyString newVersion) db
  end.

Section decoders.
Context {acl : acl_package} {rate : rate_package}.

(** [decodeAclAllowLists] *)
Definition decodeAclAllowLists (cfg : conf) : outcome (result acl_AllowList) :=
  name ← slice_from (Name cfg) (len AclAllowListConfKeyPrefix);
  if len name =? 0 then mret (Err (errors_New "allowlist name is too short"))
  else
    let data := Value cfg in
    let al := acl_NewAllowList (ID cfg) name in
    match acl_Unmarshal data al with
    | (_, Some err) => mret (Err err)
    | (al', None) => mret (Ok al')
    end.

(** [LoadAclAllowList] *)
Definition LoadAclAllowList (name : string) (db : DB) : outcome (result acl_AllowList) :=
  match First (name_is (AclAllowListConfKeyPrefix ++ name)) db with
  | (_, Some err) => mret (Err err)
  | (Some cfg, None) => decodeAclAllowLists cfg
  | (None, None) => mret (Err ErrRecordNotFound)
  end.

(** [LoadAclAllowListById] *)
Definition LoadAclAllowListById (aclID : Z) (db : DB) : outcome (result acl_AllowList) :=
  match First_by_key aclID db with
  | (_, Some err) => mret (Err err)
  | (Some cfg, None) => decodeAclAllowLists cfg
  | (None, None) => mret (Err ErrRecordNotFound)
  end.

(** The loop of [LoadAclAllowListConfigs]. *)
Fixpoint decode_allowlists (cfgs : list conf)
    (allowLists : gmap Z acl_AllowList) (checksums : gmap Z (list Z))
    (log : list log_entry)
  : outcome (gmap Z acl_AllowList * gmap Z (list Z) * list log_entry) :=
  match cfgs with
  | [] => mret (allowLists, checksums, log)
  | v :: cfgs' =>
      r ← decodeAclAllowLists v;
      match r with
      | Err err =>
          decode_allowlists cfgs' allowLists checksums
            (log ++ [mklog "Invalid access control allowlist config" v err])
      | Ok al =>
          decode_allowlists cfgs' (<[ID v := al]> allowLists)
            (<[ID v := md5.Sum (Value v)]> checksums) log
      end
  end.

(** [LoadAclAllowListConfigs]: the two maps ([None] is the nil map)
    and the error, with the lines logged. *)
Definition LoadAclAllowListConfigs (db : DB)
  : outcome (option (gmap Z acl_AllowList) * option (gmap Z (list Z))
             * option error * list log_entry) :=
  match Find (name_like aclAllowListSqlMatchPattern) db with
  | (_, Some err) => mret (None, None, Some err, [])
  | ([], None) => mret (None, None, None, [])
  | (cfgs, None) =>
      '(allowLists, checksums, log) ← decode_allowlists cfgs ∅ ∅ [];
      mret (Some allowLists, Some checksums, None, log)
  end.

(** [decodeRateLimitStrategy] *)
Definition decodeRateLimitStrategy (cfg : conf) : outcome (result rate_Strategy) :=
  name ← slice_from (Name cfg) (len RateLimitStrategyConfKeyPrefix);
  if len name =? 0 then mret (Err (errors_New "strategy name is too short"))
  else
    let data := Value cfg in
    let stg := rate_NewStrategy (ID cfg) name in
    match rate_Unmarshal data stg with
    | (_, Some err) => mret (Err err)
    | (stg', None) => mret (Ok stg')
    end.

(** [LoadRateLimitStrategy] *)
Definition LoadRateLimitStrategy (name : string) (db : DB)
  : outcome (result rate_Strategy) :=
  match First (name_is (RateLimitStrategyConfKeyPrefix ++ name)) db with
  | (_, Some err) => mret (Err err)
  | (Some cfg, None) => decodeRateLimitStrategy cfg
  | (None, None) => mret (Err ErrRecordNotFound)
  end.

(** The loop of [LoadRateLimitStrategyConfigs]. *)
Fixpoint decode_strategies (cfgs : list conf)
    (strategies : gmap Z rate_Strategy) (checksums : gmap Z (list Z))
    (log : list log_entry)
  : outcome (gmap Z rate_Strategy * gmap Z (list Z) * list log_entry) :=
  match cfgs with
  | [] => mret (strategies, checksums, log)
  | v :: cfgs' =>
      r ← decodeRateLimitStrategy v;
      match r with
      | Err err =>
          decode_strategies cfgs' strategies checksums
            (log ++ [mklog "Invalid rate limit strategy config" v err])
      | Ok strategy =>
          decode_strategies cfgs' (<[ID v := strategy]> strategies)
            (<[ID v := md5.Sum (Value v)]> checksums) log
      end
  end.

(** [LoadRateLimitStrategyConfigs] *)
Definition LoadRateLimitStrategyConfigs (db : DB)
  : outcome (option (gmap Z rate_Strategy) * option (gmap Z (list Z))
             * option error * list log_entry) :=
  match Find (name_like rateLimitStrategySqlMatchPattern) db with
  | (_, Some err) => mret (None, None, Some err, [])
  | ([], None) => mret (None, None, None, [])
  | (cfgs, None) =>
      '(strategies, checksums, log) ← decode_strategies cfgs ∅ ∅ [];
      mret (Some strategies, Some checksums, None, log)
  end.

(** [rate.ConfigCheckSums] and [rate.Config] of package util/rate,
    with the fields [LoadRateLimitConfigs] fills. *)
Record ConfigCheckSums := mkConfigCheckSums {
  CheckSums_Strategies : option (gmap Z (list Z));
  CheckSums_AllowLists : option (gmap Z (list Z))
}.

Record Config := mkConfig {
  CheckSums : ConfigCheckSums;
  Strategies : option (gmap Z rate_Strategy);
  AllowLists : option (gmap Z acl_AllowList)
}.

(** [LoadRateLimitConfigs]: the configuration ([None] is the nil
    pointer) and the error, with the lines the two loads logged. *)
Definition LoadRateLimitConfigs (db : DB)
  : outcome (option Config * option error * list log_entry) :=
  '(rlStrategies, csStrategies, err, log1) ← LoadRateLimitStrategyConfigs db;
  match err with
  | Some err => mret (None, Some err, log1)
  | None =>
      '(aclAllowLists, csAllowLists, err, log2) ← LoadAclAllowListConfigs db;
      match err with
      | Some err => mret (None, Some err, (log1 ++ log2)%list)
      | None =>
          mret (Some (mkConfig (mkConfigCheckSums csStrategies csAllowLists)
                               rlStrategies aclAllowLists),
                None, (log1 ++ log2)%list)
      end
  end.

End decoders.

(** [StoreNodeRouteGroup] for a [routeGrp] that is not the nil pointer
    (for nil, [json.Marshal] writes [null] and reading [routeGrp.Name]
    panics). *)
Definition StoreNodeRouteGroup (now : Time) (routeGrp : NodeRouteGroup.t) (db : DB)
  : outcome (DB * option error) :=
  match json_Marshal routeGrp with
  | (_, Some err) =>
      mret (db, Some (errors_WithMessage err "failed to marshal node route group"))
  | (cfgVal, None) =>
      let cfgKey := NodeRouteGroupConfKeyPrefix ++ NodeRouteGroup.Name routeGrp in
      StoreConfig now cfgKey (AnyString cfgVal) db
  end.

(** [DelNodeRouteGroup] *)
Definition DelNodeRouteGroup (group : string) (db : DB) : DB * option error :=
  let cfgKey := NodeRouteGroupConfKeyPrefix ++ group in
  let '(db', (_, err)) := DeleteConfig cfgKey db in
  (db', err).

(** [decodeNodeRouteGroup] *)
Definition decodeNodeRouteGroup (cfg : conf) : outcome (result NodeRouteGroup.t) :=
  name ← slice_from (Name cfg) (len NodeRouteGroupConfKeyPrefix);
  if len name =? 0 then mret (Err (errors_New "route group name is too short"))
  else
    let grp := NodeRouteGroup.mk (ID cfg) name None in
    let data := Value cfg in
    match json_Unmarshal data grp with
    | (_, Some err) => mret (Err err)
    | (grp', None) => mret (Ok grp')
    end.

(** The loop of [LoadNodeRouteGroups]. *)
Fixpoint decode_groups (cfgs : list conf) (res : gmap string NodeRouteGroup.t)
    (log : list log_entry)
  : outcome (gmap string NodeRouteGroup.t * list log_entry) :=
  match cfgs with
  | [] => mret (res, log)
  | v :: cfgs' =>
      r ← decodeNodeRouteGroup v;
      match r with
      | Err err =>
          decode_groups cfgs' res (log ++ [mklog "Invalid node route config" v err])
      | Ok grp => decode_groups cfgs' (<[NodeRouteGroup.Name grp := grp]> res) log
      end
  end.

(** [LoadNodeRouteGroups] *)
Definition LoadNodeRouteGroups (inclusiveGroups : list string) (db : DB)
  : outcome (option (gmap string NodeRouteGroup.t) * option error * list log_entry) :=
  let nodeRouteGrpConfKeys :=
    map (fun grp => NodeRouteGroupConfKeyPrefix ++ grp) inclusiveGroups in
  let '(cfgs, err) :=
    if len_list nodeRouteGrpConfKeys =? 0
    then Find (name_like nodeRouteGroupSqlMatchPattern) db
    else Find (name_in nodeRouteGrpConfKeys) db in
  match err, cfgs with
  | Some err, _ => mret (None, Some err, [])
  | None, [] => mret (None, None, [])
  | None, _ =>
      '(res, log) ← decode_groups cfgs ∅ [];
      mret (Some res, None, log)
  end.

(** Modelled from the spec: the error taxonomy of the design. *)
Inductive error_kind := NotFound | ValidationError | StorageError.

Fixpoint kind_of (e : error) : error_kind :=
  match e with
  | ErrRecordNotFound => NotFound
  | ErrDriver _ => StorageError
  | errors_WithMessage cause _ => kind_of cause
  | errors_New _ | NumError _ _ _ | SyntaxError _ | UnmarshalTypeError _ =>
      ValidationError
  end.

End mysql.

(** ** Vocabulary of the statements *)

Module props.
Import mysql.

(** Value of a run of decimal digits read after [n]; [None] when a byte
    is not a digit. *)
Fixpoint dval (s : string) (n : Z) : option Z :=
  match s with
  | EmptyString => Some n
  | String c s' =>
      if strconv.is_digit c then dval s' (n * 10 + (byte_val c - 48)) else None
  end.

Fixpoint all_digits (s : string) : bool :=
  match s with
  | EmptyString => true
  | String c s' => strconv.is_digit c && all_digits s'
  end.

(** A decimal integer string: an optional sign and at least one decimal
    digit. *)
Definition is_decimal_integer (s : string) : bool :=
  match s with
  | EmptyString => false
  | String c rest =>
      if Ascii.eqb c "+" || Ascii.eqb c "-"
      then negb (String.eqb rest EmptyString) && all_digits rest
      else all_digits s
  end.

(** Serialized calls of [createOrUpdateReorgVersion], one per clock
    reading, stopping at the first that fails. *)
Fixpoint bumps (times : list Time) (db : DB) : outcome (DB * option error) :=
  match times with
  | [] => mret (db, None)
  | now :: times' =>
      r ← createOrUpdateReorgVersion now db;
      match r with
      | (db', Some err) => mret (db', Some err)
      | (db', None) => bumps times' db'
      end
  end.

(** The store holds version [k]: the singleton row is there and reads
    as the decimal text of [k]. *)
Definition holds_version (k : Z) (db : DB) : Prop :=
  conn db = None
  /\ existsb (name_is MysqlConfKeyReorgVersion) (rows db) = true
  /\ forall r, In r (rows db) -> Name r = MysqlConfKeyReorgVersion ->
              Value r = strconv.Itoa k.

(** The constraints the table declares: the primary key and the name
    are unique, and the keys in use are positive and below the next
    key. *)
Definition db_wf (db : DB) : Prop :=
  NoDup (map ID (rows db)) /\ NoDup (map Name (rows db))
  /\ Forall (fun c => 0 < ID c < auto_increment db) (rows db)
  /\ 0 < auto_increment db.

(** The row [r] after [StoreConfig] wrote [v] under its name. *)
Definition set_value (db : DB) (now : Time) (v : string) (r : conf) : conf :=
  touch db now (mkconf (ID r) (Name r) v (CreatedAt r) (UpdatedAt r)).

(** A row the decoder of its domain refuses with an error. *)
Definition acl_fails `{acl_package} (cfg : conf) : bool :=
  match decodeAclAllowLists cfg with
  | Returns (Err _) => true
  | _ => false
  end.

Definition strategy_fails `{rate_package} (cfg : conf) : bool :=
  match decodeRateLimitStrategy cfg with
  | Returns (Err _) => true
  | _ => false
  end.

Definition group_fails (cfg : conf) : bool :=
  match decodeNodeRouteGroup cfg with
  | Returns (Err _) => true
  | _ => false
  end.

(** A row whose payload the decoder of its domain does not decode, the
    logical name being what follows the prefix. *)
Definition acl_payload_fails `{acl_package} (cfg : conf) : bool :=
  let name := drop_bytes (String.length AclAllowListConfKeyPrefix) (Name cfg) in
  match acl_Unmarshal (Value cfg) (acl_NewAllowList (ID cfg) name) with
  | (_, Some _) => true
  | (_, None) => false
  end.

Definition strategy_payload_fails `{rate_package} (cfg : conf) : bool :=
  let name := drop_bytes (String.length RateLimitStrategyConfKeyPrefix) (Name cfg) in
  match rate_Unmarshal (Value cfg) (rate_NewStrategy (ID cfg) name) with
  | (_, Some _) => true
  | (_, None) => false
  end.

Definition group_payload_fails (cfg : conf) : bool :=
  let name := drop_bytes (String.length NodeRouteGroupConfKeyPrefix) (Name cfg) in
  match json_Unmarshal (Value cfg) (NodeRouteGroup.mk (ID cfg) name None) with
  | (_, Some _) => true
  | (_, None) => false
  end.

(** A [LIKE] pattern without wildcard. *)
Fixpoint no_wildcard (p : string) : bool :=
  match p with
  | EmptyString => true
  | String c p' =>
      negb (Ascii.eqb c "%") && negb (Ascii.eqb c "_") && no_wildcard p'
  end.

(** The rows a bulk load of each domain reads. *)
Definition acl_rows (db : DB) : list conf :=
  List.filter (name_like aclAllowListSqlMatchPattern) (rows db).

Definition strategy_rows (db : DB) : list conf :=
  List.filter (name_like rateLimitStrategySqlMatchPattern) (rows db).

Definition group_rows (inclusiveGroups : list string) (db : DB) : list conf :=
  match inclusiveGroups with
  | [] => List.filter (name_like nodeRouteGroupSqlMatchPattern) (rows db)
  | _ =>
      List.filter
        (name_in (map (fun grp => NodeRouteGroupConfKeyPrefix ++ grp) inclusiveGroups))
        (rows db)
  end.

(** Number of entries of a Go map; the nil map has none. *)
Definition map_len `{Countable K} {V} (m : option (gmap K V)) : nat :=
  match m with
  | None => 0%nat
  | Some m' => size m'
  end.

(** A list of nodes after it was written and read back. *)
Definition coerce_nodes (nodes : option (list string)) : option (list string) :=
  option_map (map json.coerce) nodes.

(** The value of member [nodes] as the parser reads it from what the
    encoder wrote for a list of nodes. *)
Definition nodes_value (nodes : option (list string)) : json.value :=
  match nodes with
  | None => json.Null
  | Some l => json.Array (map json.Str (map json.coerce l))
  end.

(** Every node of the list is valid UTF-8. *)
Definition valid_nodes (nodes : option (list string)) : bool :=
  forallb utf8.ValidString (default [] nodes).

(** The round trip of a node route group as the specification words
    it: whatever group with a non-empty name was stored, loading it by
    its name gives back its list of nodes. *)
Definition round_trip_as_stated : Prop :=
  forall (now : Time) (g : NodeRouteGroup.t) (db db' : DB),
    NodeRouteGroup.Name g <> EmptyString ->
    StoreNodeRouteGroup now g db = Returns (db', None) ->
    exists m grp log,
      LoadNodeRouteGroups [NodeRouteGroup.Name g] db' = Returns (Some m, None, log)
      /\ m !! NodeRouteGroup.Name g = Some grp
      /\ NodeRouteGroup.Nodes grp = NodeRouteGroup.Nodes g.

(** A group whose only node is the single byte 0xFF, which is not
    UTF-8. *)
Definition group_with_bad_byte : NodeRouteGroup.t :=
  NodeRouteGroup.mk 0 "g" (Some [String (byte_of 255) EmptyString]).

(** Two tables for the examples. *)
Definition example_db : DB :=
  mkDB [ mkconf 1 "acl.allowlist.fluent" "{}" 10 10;
         mkconf 2 "acl.allowlist.broken" "{" 11 12;
         mkconf 3 "ratelimit.strategy.vip" "[1, 2]" 13 13;
         mkconf 4 "noderoute.group.cfxvip" "{}" 14 15;
         mkconf 5 "noderoute.group." "{}" 16 16;
         mkconf 6 "reorg.version" "7" 17 18 ]
       7 None false.


(** An empty table on a healthy connection. *)
Definition fresh_db : DB := mkDB [] 1 None false.

(** An instance of packages util/acl and util/rate for the examples: a
    policy keeps its key, its name and the parsed payload. *)
Record policy := mkpolicy {
  policy_id : Z;
  policy_name : string;
  policy_payload : json.value
}.

Definition policy_unmarshal (data : string) (p : policy) : policy * option error :=
  match json.parse data with
  | Some v => (mkpolicy (policy_id p) (policy_name p) v, None)
  | None => (p, Some (SyntaxError "invalid JSON text"))
  end.

Definition example_acl : acl_package :=
  {| acl_AllowList := policy;
     acl_NewAllowList := fun id name => mkpolicy id name json.Null;
     acl_Unmarshal := policy_unmarshal |}.

Definition example_rate : rate_package :=
  {| rate_Strategy := policy;
     rate_NewStrategy := fun id name => mkpolicy id name json.Null;
     rate_Unmarshal := policy_unmarshal |}.

(** The bulk loads as the specification words them: on a healthy
    connection and a table that keeps its constraints, of the [N] rows
    a bulk load reads, [K] have a payload that fails decoding, and the
    load returns [N - K] objects and no error. *)
Definition bulk_load_as_stated : Prop :=
  forall (acl : acl_package) (rate : rate_package)
         (inclusiveGroups : list string) (db : DB),
    conn db = None -> db_wf db ->
    (exists allowLists checksums log,
        LoadAclAllowListConfigs db = Returns (allowLists, checksums, None, log)
        /\ map_len allowLists
           = (length (acl_rows db)
              - length (List.filter acl_payload_fails (acl_rows db)))%nat)
    /\ (exists strategies checksums log,
          LoadRateLimitStrategyConfigs db = Returns (strategies, checksums, None, log)
          /\ map_len strategies
             = (length (strategy_rows db)
                - length (List.filter strategy_payload_fails (strategy_rows db)))%nat)
    /\ (exists res log,
          LoadNodeRouteGroups inclusiveGroups db = Returns (res, None, log)
          /\ map_len res
             = (length (group_rows inclusiveGroups db)
                - length (List.filter group_payload_fails
                            (group_rows inclusiveGroups db)))%nat).

(** The singleton row of the reorg version is there, on a healthy
    connection, and its value is the text [s]. *)
Definition version_text (s : string) (db : DB) : Prop :=
  conn db = None
  /\ existsb (name_is MysqlConfKeyReorgVersion) (rows db) = true
  /\ forall r, In r (rows db) -> Name r = MysqlConfKeyReorgVersion -> Value r = s.

End props.

(** * Facts about the libraries *)

(** * Bytes *)

Lemma byte_val_range (c : ascii) : 0 <= byte_val c < 256.
Proof.
  unfold byte_val. pose proof (N_ascii_bounded c). lia.
Qed.

Lemma byte_of_val (c : ascii) : byte_of (byte_val c) = c.
Proof.
  unfold byte_of, byte_val. pose proof (N_ascii_bounded c).
  rewrite Z.mod_small by lia. rewrite N2Z.id. apply ascii_N_embedding.
Qed.

Lemma byte_val_of (z : Z) : byte_val (byte_of z) = z mod 256.
Proof.
  unfold byte_of, byte_val.
  pose proof (Z.mod_pos_bound z 256 ltac:(lia)).
  rewrite N_ascii_embedding by lia. lia.
Qed.

Lemma byte_val_inj (c d : ascii) : byte_val c = byte_val d -> c = d.
Proof.
  intros H. rewrite <- (byte_of_val c), <- (byte_of_val d). now rewrite H.
Qed.

Lemma len_nonneg (s : string) : 0 <= len s.
Proof. unfold len. lia. Qed.

Lemma len_String (c : ascii) (s : string) : len (String c s) = len s + 1.
Proof. unfold len. cbn [String.length]. lia. Qed.

Lemma len_app (s t : string) : len (s ++ t) = len s + len t.
Proof.
  induction s as [|c s IH].
  - reflexivity.
  - change (String c s ++ t) with (String c (s ++ t)).
    rewrite !len_String. lia.
Qed.

(** * strconv *)

Section strconv_facts.
Import strconv props.

Lemma is_digit_val (c : ascii) :
  is_digit c = true <-> 48 <= byte_val c <= 57.
Proof. unfold is_digit. lia. Qed.

Lemma digit_byte (d : Z) :
  0 <= d < 10 -> is_digit (byte_of (48 + d)) = true /\ byte_val (byte_of (48 + d)) - 48 = d.
Proof.
  intros Hd. rewrite is_digit_val, byte_val_of, Z.mod_small by lia. lia.
Qed.

Lemma dval_all_digits (s : string) (n : Z) :
  all_digits s = true <-> exists v, dval s n = Some v.
Proof.
  revert n. induction s as [|c s IH]; intros n; simpl.
  - split; eauto.
  - destruct (is_digit c); simpl.
    + apply IH.
    + split; [discriminate | intros [v Hv]; discriminate].
Qed.

Lemma dval_ge (s : string) (n v : Z) : 0 <= n -> dval s n = Some v -> n <= v.
Proof.
  revert n. induction s as [|c s IH]; intros n Hn; simpl.
  - intros [= <-]. lia.
  - destruct (is_digit c) eqn:Hc; [|discriminate].
    apply is_digit_val in Hc. intros Hv. apply IH in Hv; lia.
Qed.

Lemma formatBits_dval (fuel : nat) (u : Z) (acc : string) :
  0 <= u < 10 ^ Z.of_nat fuel -> dval (formatBits fuel u acc) 0 = dval acc u.
Proof.
  revert u acc. induction fuel as [|fuel IH]; intros u acc Hu.
  - simpl in *. replace u with 0 by lia. reflexivity.
  - cbn [formatBits]. destruct (Z.ltb_spec u 10) as [Hlt|Hge].
    + destruct (digit_byte u ltac:(lia)) as [Hd Hv].
      cbn [dval]. rewrite Hd, Hv. reflexivity.
    + rewrite IH.
      * pose proof (Z.mod_pos_bound u 10 ltac:(lia)) as Hm.
        destruct (digit_byte (u mod 10) Hm) as [Hd Hv].
        cbn [dval]. rewrite Hd, Hv. f_equal.
        pose proof (Z.div_mod u 10 ltac:(lia)). lia.
      * rewrite Nat2Z.inj_succ, Z.pow_succ_r in Hu by lia.
        split; [apply Z.div_pos; lia | apply Z.div_lt_upper_bound; lia].
Qed.

Lemma formatBits_length (fuel : nat) (u : Z) (acc : string) :
  (String.length acc + (if fuel is O then 0 else 1)
   <= String.length (formatBits fuel u acc) <= String.length acc + fuel)%nat.
Proof.
  revert u acc. induction fuel as [|fuel IH]; intros u acc; cbn [formatBits].
  - lia.
  - destruct (u <? 10); cbn [String.length]; [lia|].
    specialize (IH (u / 10) (String (byte_of (48 + u mod 10)) acc)).
    cbn [String.length] in IH. destruct fuel; lia.
Qed.

Lemma Itoa_len (i : Z) : 0 < len (Itoa i) <= 21.
Proof.
  unfold Itoa, len. destruct (i <? 0); cbn [String.length].
  - pose proof (formatBits_length 20 (- i) EmptyString) as H.
    cbn [String.length] in H. lia.
  - pose proof (formatBits_length 20 i EmptyString) as H.
    cbn [String.length] in H. lia.
Qed.

Lemma atoi_fast_loop_dval (s0 s : string) (n : Z) :
  atoi_fast_loop s0 s n =
    match dval s n with
    | Some v => (v, None)
    | None => (0, Some (syntaxError "Atoi" s0))
    end.
Proof.
  revert n. induction s as [|c s IH]; intros n; cbn [atoi_fast_loop dval].
  - reflexivity.
  - pose proof (byte_val_range c) as Hc. unfold is_digit.
    destruct (Z.leb_spec 48 (byte_val c)) as [H1|H1].
    + rewrite (Z.mod_small (byte_val c - 48)) by lia.
      destruct (Z.leb_spec (byte_val c) 57) as [H2|H2]; cbn [andb].
      * destruct (Z.ltb_spec 9 (byte_val c - 48)); [lia|]. apply IH.
      * destruct (Z.ltb_spec 9 (byte_val c - 48)); [reflexivity|lia].
    + cbn [andb].
      replace ((byte_val c - 48) mod 256) with (byte_val c + 208).
      * destruct (Z.ltb_spec 9 (byte_val c + 208)); [reflexivity|lia].
      * apply Z.mod_unique with (q := -1); lia.
Qed.

Lemma parseUint_loop_dval (s0 s : string) (n v : Z) :
  0 <= n -> dval s n = Some v -> v <= maxUint64 ->
  parseUint_loop s0 s n = (v, None).
Proof.
  revert n. induction s as [|c s IH]; intros n Hn Hv Hmax; cbn [parseUint_loop dval] in *.
  - congruence.
  - destruct (is_digit c) eqn:Hc; [|discriminate].
    apply is_digit_val in Hc.
    assert (Hn' : 0 <= n * 10 + (byte_val c - 48)) by lia.
    pose proof (dval_ge _ _ _ Hn' Hv) as Hge.
    unfold maxUint64 in *.
    change (2 ^ 64 - 1) with 18446744073709551615 in *.
    change (18446744073709551615 / 10 + 1) with 1844674407370955162.
    destruct (Z.leb_spec 1844674407370955162 n); [lia|].
    destruct (Z.ltb_spec 18446744073709551615 (n * 10 + (byte_val c - 48))); [lia|].
    apply IH; [lia | assumption | lia].
Qed.

Lemma parseUint_loop_ok_digits (s0 s : string) (n v : Z) :
  parseUint_loop s0 s n = (v, None) -> all_digits s = true.
Proof.
  revert n. induction s as [|c s IH]; intros n; cbn [parseUint_loop all_digits].
  - reflexivity.
  - destruct (is_digit c); cbn [andb].
    + destruct (_ <=? n); [discriminate|].
      destruct (_ <? _); [discriminate|]. apply IH.
    + destruct (_ && _); discriminate.
Qed.

Lemma parseUint_loop_err (s0 s : string) (n v : Z) (e : error) :
  parseUint_loop s0 s n = (v, Some e) ->
  e = syntaxError "ParseUint" s0
  \/ (e = rangeError "ParseUint" s0 /\ v = maxUint64).
Proof.
  revert n. induction s as [|c s IH]; intros n; cbn [parseUint_loop].
  - discriminate.
  - destruct (is_digit c).
    + destruct (_ <=? n); [intros [= <- <-]; auto|].
      destruct (_ <? _); [intros [= <- <-]; auto|]. apply IH.
    + destruct (_ && _); intros [= <- <-]; auto.
Qed.

Lemma digit_not_sign (c : ascii) :
  is_digit c = true -> Ascii.eqb c "+" = false /\ Ascii.eqb c "-" = false.
Proof.
  intros H. apply is_digit_val in H.
  split; apply Ascii.eqb_neq; intros ->.
  - change (byte_val "+") with 43 in H. lia.
  - change (byte_val "-") with 45 in H. lia.
Qed.

(** Reading back what [formatBits] wrote. *)
Lemma formatBits_head (u : Z) :
  0 <= u < 10 ^ 20 ->
  exists c s, formatBits 20 u EmptyString = String c s
              /\ is_digit c = true /\ dval (String c s) 0 = Some u.
Proof.
  intros Hu.
  pose proof (formatBits_dval 20 u EmptyString Hu) as Hd.
  pose proof (formatBits_length 20 u EmptyString) as Hl.
  destruct (formatBits 20 u EmptyString) as [|c s] eqn:E.
  - cbn in Hl. lia.
  - exists c, s. split; [reflexivity|]. split; [|exact Hd].
    cbn [dval] in Hd. destruct (is_digit c); [reflexivity|discriminate].
Qed.

Lemma ParseUint_digits (c : ascii) (s : string) (v : Z) :
  dval (String c s) 0 = Some v -> v <= maxUint64 ->
  ParseUint (String c s) = (v, None).
Proof.
  intros Hd Hv. unfold ParseUint. apply parseUint_loop_dval; [lia|assumption..].
Qed.

Lemma Atoi_Itoa (i : Z) : minInt <= i <= maxInt -> Atoi (Itoa i) = (i, None).
Proof.
  unfold minInt, maxInt, intSize. change (2 ^ (64 - 1)) with 9223372036854775808.
  intros Hi. unfold Itoa.
  destruct (Z.ltb_spec i 0) as [Hneg|Hpos].
  - destruct (formatBits_head (- i) ltac:(lia)) as (c & s & E & Hc & Hd).
    rewrite E. unfold Atoi.
    destruct (_ && _).
    + change (Ascii.eqb "-" "-") with true. cbn [orb andb].
      rewrite len_String.
      destruct (Z.ltb_spec (len s + 1) 1);
        [pose proof (len_nonneg s); lia|].
      rewrite atoi_fast_loop_dval, Hd. f_equal. lia.
    + unfold ParseInt. change (Ascii.eqb "-" "+") with false.
      change (Ascii.eqb "-" "-") with true. cbn iota.
      rewrite (ParseUint_digits _ _ _ Hd) by (unfold maxUint64; lia).
      unfold intSize. change (2 ^ (64 - 1)) with 9223372036854775808.
      cbn [negb andb].
      destruct (Z.ltb_spec 9223372036854775808 (- i)); [lia|].
      f_equal. lia.
  - destruct (formatBits_head i ltac:(lia)) as (c & s & E & Hc & Hd).
    rewrite E. destruct (digit_not_sign c Hc) as [Hp Hm].
    unfold Atoi. rewrite Hm, Hp. cbn [orb andb].
    destruct (_ && _).
    + rewrite atoi_fast_loop_dval, Hd. reflexivity.
    + unfold ParseInt. rewrite Hp, Hm.
      rewrite (ParseUint_digits _ _ _ Hd) by (unfold maxUint64; lia).
      unfold intSize. change (2 ^ (64 - 1)) with 9223372036854775808.
      cbn [negb andb].
      destruct (Z.leb_spec 9223372036854775808 i); [lia|]. reflexivity.
Qed.

(** Every string [Atoi] accepts is a decimal integer string. *)
Lemma Atoi_ok_decimal (s : string) (n : Z) :
  Atoi s = (n, None) -> is_decimal_integer s = true.
Proof.
  unfold Atoi. destruct (_ && _).
  - destruct s as [|c0 rest]; [discriminate|].
    unfold is_decimal_integer. rewrite (orb_comm (Ascii.eqb c0 "+")).
    destruct (Ascii.eqb c0 "-" || Ascii.eqb c0 "+"); cbn [andb].
    + destruct (Z.ltb_spec (len rest) 1) as [H|H]; [discriminate|].
      rewrite atoi_fast_loop_dval.
      destruct (dval rest 0) eqn:Hd; [|discriminate]. intros _.
      rewrite (proj2 (dval_all_digits rest 0)) by eauto.
      destruct rest; [|reflexivity].
      change (len EmptyString) with 0 in H. lia.
    + rewrite atoi_fast_loop_dval.
      destruct (dval (String c0 rest) 0) eqn:Hd; [|discriminate]. intros _.
      apply (dval_all_digits _ 0). eauto.
  - destruct s as [|c0 rest]; [discriminate|].
    unfold ParseInt, is_decimal_integer.
    assert (Hu : forall t (neg : bool) r,
      (let '(i64, err) :=
         (let '(un, err) := ParseUint t in
          match err with
          | Some (NumError _ _ ErrSyntax) => (0, Some (syntaxError "ParseInt" (String c0 rest)))
          | _ =>
              let cutoff := 2 ^ (intSize - 1) in
              if negb neg && (cutoff <=? un)
              then (cutoff - 1, Some (rangeError "ParseInt" (String c0 rest)))
              else if neg && (cutoff <? un)
              then (- cutoff, Some (rangeError "ParseInt" (String c0 rest)))
              else (if neg then - un else un, None)
          end) in
       match err with
       | Some (NumError _ num e) => (i64, Some (NumError "Atoi" num e))
       | other => (i64, other)
       end) = (r, None) ->
      negb (String.eqb t EmptyString) && all_digits t = true).
    { intros t neg r. unfold ParseUint.
      destruct t as [|c t]; [cbv beta iota zeta; discriminate|].
      cbv beta iota.
      destruct (parseUint_loop _ _ 0) as [un [e|]] eqn:Hl.
      - destruct (parseUint_loop_err _ _ _ _ _ Hl) as [-> | [-> ->]].
        + discriminate.
        + destruct neg; discriminate.
      - intros _. apply parseUint_loop_ok_digits in Hl. exact Hl. }
    destruct (Ascii.eqb c0 "+") eqn:Hp; cbn [orb].
    + apply Hu.
    + destruct (Ascii.eqb c0 "-") eqn:Hm.
      * apply Hu.
      * intros H. apply Hu in H. exact H.
Qed.

(** The errors of [Atoi] are [NumError]s, that is, validation errors. *)
Lemma ParseInt_error (s : string) (n : Z) (e : error) :
  ParseInt s = (n, Some e) -> exists fn num err, e = NumError fn num err.
Proof.
  unfold ParseInt. destruct s as [|c0 rest]; [intros [= <- <-]; unfold syntaxError; eauto|].
  destruct (if Ascii.eqb c0 "+" then (false, rest)
            else if Ascii.eqb c0 "-" then (true, rest) else (false, String c0 rest))
    as [neg s1].
  destruct (ParseUint s1) as [un err].
  assert (Hgen : (let cutoff := 2 ^ (intSize - 1) in
                  if negb neg && (cutoff <=? un)
                  then (cutoff - 1, Some (rangeError "ParseInt" (String c0 rest)))
                  else if neg && (cutoff <? un)
                  then (- cutoff, Some (rangeError "ParseInt" (String c0 rest)))
                  else (if neg then - un else un, None)) = (n, Some e) ->
                 exists fn num err0, e = NumError fn num err0).
  { cbv zeta. destruct (_ && _); [intros [= <- <-]; unfold rangeError; eauto|].
    destruct (_ && _); [intros [= <- <-]; unfold rangeError; eauto|discriminate]. }
  destruct err as [[| |fn num []| | | |]|]; try exact Hgen.
  intros [= <- <-]. unfold syntaxError. eauto.
Qed.

Lemma Atoi_error_kind (s : string) (n : Z) (e : error) :
  Atoi s = (n, Some e) -> mysql.kind_of e = mysql.ValidationError.
Proof.
  unfold Atoi. destruct (_ && _).
  - destruct s as [|c0 rest]; [intros [= <- <-]; reflexivity|].
    destruct (_ && _); [intros [= <- <-]; reflexivity|].
    rewrite atoi_fast_loop_dval. destruct (dval _ 0); [discriminate|].
    intros [= <- <-]. reflexivity.
  - destruct (ParseInt s) as [i64 [e'|]] eqn:Hp; [|discriminate].
    destruct (ParseInt_error _ _ _ Hp) as (fn & num & err & ->).
    intros [= <- <-]. reflexivity.
Qed.

End strconv_facts.

(** * Strings *)

Lemma app_String (c : ascii) (s t : string) : String c s ++ t = String c (s ++ t).
Proof. reflexivity. Qed.

Lemma app_Empty (t : string) : EmptyString ++ t = t.
Proof. reflexivity. Qed.

Lemma app_Empty_r (s : string) : s ++ EmptyString = s.
Proof. induction s as [|c s IH]; [reflexivity|]. now rewrite app_String, IH. Qed.

Lemma drop_bytes_app (pre t : string) :
  drop_bytes (String.length pre) (pre ++ t) = t.
Proof. induction pre as [|c pre IH]; [reflexivity|exact IH]. Qed.

Lemma substring_app (pre t : string) :
  substring 0 (String.length pre) (pre ++ t) = pre.
Proof.
  induction pre as [|c pre IH].
  - now destruct t.
  - rewrite app_String. cbn [String.length substring]. now rewrite IH.
Qed.

Lemma string_app_assoc (a b c : string) : (a ++ b) ++ c = a ++ (b ++ c).
Proof. induction a as [|x a IH]; [reflexivity|]. rewrite !app_String. now rewrite IH. Qed.

Lemma string_length_app (a b : string) :
  String.length (a ++ b) = (String.length a + String.length b)%nat.
Proof.
  induction a as [|x a IH]; [reflexivity|].
  rewrite app_String. cbn [String.length]. now rewrite IH.
Qed.

Lemma drop_bytes_length (n : nat) (s : string) :
  (String.length (drop_bytes n s) <= String.length s - n)%nat.
Proof.
  revert s. induction n as [|n IH]; intros [|c s]; cbn [drop_bytes String.length]; try lia.
  apply IH.
Qed.

(** * Bit operations as arithmetic *)

Lemma lor_add (a b k : Z) :
  0 <= k -> a mod 2 ^ k = 0 -> 0 <= b < 2 ^ k -> Z.lor a b = a + b.
Proof.
  intros Hk Ha Hb.
  assert (Hland : Z.land a b = 0).
  { apply Z.bits_inj'. intros n Hn. rewrite Z.land_spec, Z.bits_0.
    destruct (Z.lt_ge_cases n k) as [Hlt|Hge].
    - replace (Z.testbit a n) with false; [reflexivity|].
      rewrite <- (Z.mod_pow2_bits_low a k n) by lia. rewrite Ha. now rewrite Z.bits_0.
    - replace (Z.testbit b n) with false; [now rewrite andb_false_r|].
      rewrite <- (Z.mod_small b (2 ^ k)) by lia.
      now rewrite Z.mod_pow2_bits_high by lia. }
  rewrite Z.add_nocarry_lxor by exact Hland. now rewrite Z.lxor_lor.
Qed.

Lemma land_low (x k : Z) : 0 <= k -> Z.land x (2 ^ k - 1) = x mod 2 ^ k.
Proof.
  intros Hk. rewrite <- Z.land_ones by lia. f_equal.
  rewrite Z.ones_equiv. lia.
Qed.

(** * utf8: encoding what was decoded *)

Section utf8_facts.
Import utf8.

Ltac bits_to_arith :=
  repeat match goal with
  | |- context [Z.land ?x 0x1F] => change (Z.land x 0x1F) with (Z.land x (2 ^ 5 - 1)); rewrite (land_low x 5) by lia
  | |- context [Z.land ?x 0x0F] => change (Z.land x 0x0F) with (Z.land x (2 ^ 4 - 1)); rewrite (land_low x 4) by lia
  | |- context [Z.land ?x 0x07] => change (Z.land x 0x07) with (Z.land x (2 ^ 3 - 1)); rewrite (land_low x 3) by lia
  | |- context [Z.land ?x 0x3F] => change (Z.land x 0x3F) with (Z.land x (2 ^ 6 - 1)); rewrite (land_low x 6) by lia
  | |- context [Z.shiftl ?x ?k] => rewrite (Z.shiftl_mul_pow2 x k) by lia
  | |- context [Z.shiftr ?x ?k] => rewrite (Z.shiftr_div_pow2 x k) by lia
  end;
  change (2 ^ 3) with 8; change (2 ^ 4) with 16; change (2 ^ 5) with 32;
  change (2 ^ 6) with 64; change (2 ^ 12) with 4096; change (2 ^ 18) with 262144.

Ltac arith := Z.div_mod_to_equations; lia.

Lemma lor_add6 (a b : Z) : a mod 64 = 0 -> 0 <= b < 64 -> Z.lor a b = a + b.
Proof. intros. apply (lor_add a b 6); [lia | assumption | assumption]. Qed.

Lemma lor_add12 (a b : Z) : a mod 4096 = 0 -> 0 <= b < 4096 -> Z.lor a b = a + b.
Proof. intros. apply (lor_add a b 12); [lia | assumption | assumption]. Qed.

Lemma lor_add18 (a b : Z) : a mod 262144 = 0 -> 0 <= b < 262144 -> Z.lor a b = a + b.
Proof. intros. apply (lor_add a b 18); [lia | assumption | assumption]. Qed.

Lemma lor_C0 (x : Z) : 0 <= x < 64 -> Z.lor 0xC0 x = 192 + x.
Proof. intros. apply lor_add6; [reflexivity | assumption]. Qed.

Lemma lor_80 (x : Z) : 0 <= x < 64 -> Z.lor 0x80 x = 128 + x.
Proof. intros. apply lor_add6; [reflexivity | assumption]. Qed.

Lemma lor_E0 (x : Z) : 0 <= x < 16 -> Z.lor 0xE0 x = 224 + x.
Proof. intros. apply (lor_add 0xE0 x 4); [lia | reflexivity | lia]. Qed.

Lemma lor_F0 (x : Z) : 0 <= x < 8 -> Z.lor 0xF0 x = 240 + x.
Proof. intros. apply (lor_add 0xF0 x 3); [lia | reflexivity | lia]. Qed.

Lemma rune2_val (p0 b1 : Z) :
  rune2 p0 b1 = (p0 mod 32) * 64 + b1 mod 64.
Proof.
  unfold rune2. bits_to_arith. apply lor_add6; arith.
Qed.

Lemma rune3_val (p0 b1 b2 : Z) :
  rune3 p0 b1 b2 = (p0 mod 16) * 4096 + (b1 mod 64) * 64 + b2 mod 64.
Proof.
  unfold rune3. bits_to_arith.
  rewrite (lor_add12 (p0 mod 16 * 4096)) by arith.
  apply lor_add6; arith.
Qed.

Lemma rune4_val (p0 b1 b2 b3 : Z) :
  rune4 p0 b1 b2 b3 =
    (p0 mod 8) * 262144 + (b1 mod 64) * 4096 + (b2 mod 64) * 64 + b3 mod 64.
Proof.
  unfold rune4. bits_to_arith.
  rewrite (lor_add18 (p0 mod 8 * 262144)) by arith.
  rewrite (lor_add12 (p0 mod 8 * 262144 + b1 mod 64 * 4096)) by arith.
  apply lor_add6; arith.
Qed.

Lemma encode3_val (r : Z) :
  0 <= r < 65536 ->
  encode3 r = String (byte_of (224 + r / 4096))
                (String (byte_of (128 + (r / 64) mod 64))
                   (String (byte_of (128 + r mod 64)) EmptyString)).
Proof.
  intros Hr. unfold encode3. bits_to_arith.
  rewrite lor_E0 by arith. rewrite !lor_80 by arith. reflexivity.
Qed.

Lemma EncodeRune_2 (p0 b1 : Z) :
  0xC2 <= p0 <= 0xDF -> 0x80 <= b1 <= 0xBF ->
  EncodeRune (rune2 p0 b1) = String (byte_of p0) (String (byte_of b1) EmptyString).
Proof.
  intros H0 H1. rewrite rune2_val.
  set (r := p0 mod 32 * 64 + b1 mod 64).
  assert (Hr : 128 <= r <= 2047) by (subst r; arith).
  unfold EncodeRune. rewrite (Z.mod_small r) by lia.
  destruct (Z.leb_spec r 0x7F); [lia|].
  destruct (Z.leb_spec r 0x7FF); [|lia].
  bits_to_arith. rewrite lor_C0, lor_80 by arith.
  f_equal; [|f_equal]; f_equal; subst r; arith.
Qed.

Lemma EncodeRune_3 (p0 b1 b2 : Z) :
  0xE0 <= p0 <= 0xEF -> 0x80 <= b1 <= 0xBF -> 0x80 <= b2 <= 0xBF ->
  (p0 = 0xE0 -> 0xA0 <= b1) -> (p0 = 0xED -> b1 <= 0x9F) ->
  EncodeRune (rune3 p0 b1 b2) =
    String (byte_of p0) (String (byte_of b1) (String (byte_of b2) EmptyString)).
Proof.
  intros H0 H1 H2 Hlo Hhi. rewrite rune3_val.
  set (r := p0 mod 16 * 4096 + b1 mod 64 * 64 + b2 mod 64).
  assert (Hr : 0x800 <= r <= 0xFFFF /\ ~ (0xD800 <= r <= 0xDFFF)).
  { subst r. assert (p0 = 0xE0 \/ p0 = 0xED \/ (p0 <> 0xE0 /\ p0 <> 0xED)) as [->|[->|[]]] by lia.
    - specialize (Hlo eq_refl). arith.
    - specialize (Hhi eq_refl). arith.
    - arith. }
  unfold EncodeRune. rewrite (Z.mod_small r) by lia. unfold MaxRune.
  destruct (Z.leb_spec r 0x7F); [lia|].
  destruct (Z.leb_spec r 0x7FF); [lia|].
  destruct (Z.ltb_spec 0x10FFFF r); [lia|]. cbn [orb].
  destruct (Z.leb_spec 0xD800 r), (Z.leb_spec r 0xDFFF); cbn [andb]; try lia;
    (destruct (Z.leb_spec r 0xFFFF); [|lia]);
    rewrite encode3_val by lia;
    (f_equal; [|f_equal; [|f_equal]]); f_equal; subst r; arith.
Qed.

Lemma EncodeRune_4 (p0 b1 b2 b3 : Z) :
  0xF0 <= p0 <= 0xF4 -> 0x80 <= b1 <= 0xBF -> 0x80 <= b2 <= 0xBF -> 0x80 <= b3 <= 0xBF ->
  (p0 = 0xF0 -> 0x90 <= b1) -> (p0 = 0xF4 -> b1 <= 0x8F) ->
  EncodeRune (rune4 p0 b1 b2 b3) =
    String (byte_of p0) (String (byte_of b1)
      (String (byte_of b2) (String (byte_of b3) EmptyString))).
Proof.
  intros H0 H1 H2 H3 Hlo Hhi. rewrite rune4_val.
  set (r := p0 mod 8 * 262144 + b1 mod 64 * 4096 + b2 mod 64 * 64 + b3 mod 64).
  assert (Hr : 0x10000 <= r <= 0x10FFFF).
  { subst r. assert (p0 = 0xF0 \/ p0 = 0xF4 \/ (p0 <> 0xF0 /\ p0 <> 0xF4)) as [->|[->|[]]] by lia.
    - specialize (Hlo eq_refl). arith.
    - specialize (Hhi eq_refl). arith.
    - arith. }
  unfold EncodeRune. rewrite (Z.mod_small r) by lia. unfold MaxRune.
  destruct (Z.leb_spec r 0x7F); [lia|].
  destruct (Z.leb_spec r 0x7FF); [lia|].
  destruct (Z.ltb_spec 0x10FFFF r); [lia|]. cbn [orb].
  destruct (Z.leb_spec 0xD800 r), (Z.leb_spec r 0xDFFF); cbn [andb]; try lia;
    (destruct (Z.leb_spec r 0xFFFF); [lia|]);
    bits_to_arith; rewrite lor_F0, !lor_80 by arith;
    (f_equal; [|f_equal; [|f_equal; [|f_equal]]]); f_equal; subst r; arith.
Qed.

Lemma first_lead (p0 : Z) (sz : nat) (lo hi : Z) :
  first p0 = Lead sz lo hi ->
  (sz = 2%nat /\ 0xC2 <= p0 <= 0xDF /\ lo = 0x80 /\ hi = 0xBF)
  \/ (sz = 3%nat /\ 0xE0 <= p0 <= 0xEF /\ 0x80 <= lo /\ hi <= 0xBF
      /\ (p0 = 0xE0 -> lo = 0xA0) /\ (p0 = 0xED -> hi = 0x9F))
  \/ (sz = 4%nat /\ 0xF0 <= p0 <= 0xF4 /\ 0x80 <= lo /\ hi <= 0xBF
      /\ (p0 = 0xF0 -> lo = 0x90) /\ (p0 = 0xF4 -> hi = 0x8F)).
Proof.
  unfold first.
  repeat match goal with
         | |- context [?a <? ?b] => destruct (Z.ltb_spec a b)
         | |- context [?a =? ?b] => destruct (Z.eqb_spec a b)
         end; intros [= <- <- <-]; lia.
Qed.

Lemma first_high (p0 : Z) : 0x80 <= p0 -> first p0 <> Ascii.
Proof.
  intros H. unfold first. destruct (Z.ltb_spec p0 0x80); [lia|].
  repeat match goal with
         | |- context [?a <? ?b] => destruct (Z.ltb_spec a b)
         | |- context [?a =? ?b] => destruct (Z.eqb_spec a b)
         end; discriminate.
Qed.

(** A well-formed sequence at the head of a string: its bytes are what
    [EncodeRune] writes for the rune, and the text after it plays no
    part in decoding it. *)
Lemma DecodeRune_valid (c0 : ascii) (s1 : string) (r : Z) (size : nat) :
  0x80 <= byte_val c0 ->
  DecodeRuneInString (String c0 s1) = (r, size) ->
  (r =? RuneError) && (size =? 1)%nat = false ->
  exists pre rest,
    String c0 s1 = pre ++ rest /\ String.length pre = size /\ (2 <= size)%nat
    /\ EncodeRune r = pre
    /\ (exists c0' pre', pre = String c0' pre' /\ 0x80 <= byte_val c0')
    /\ forall t, DecodeRuneInString (pre ++ t) = (r, size).
Proof.
  intros Hhigh. unfold DecodeRuneInString.
  destruct (first (byte_val c0)) as [| |sz lo hi] eqn:Hf.
  - now apply first_high in Hf.
  - intros [= <- <-]. discriminate.
  - pose proof (byte_val_range c0) as R0.
    destruct s1 as [|c1 s2]; [intros [= <- <-]; discriminate|].
    pose proof (byte_val_range c1) as R1.
    destruct ((byte_val c1 <? lo) || (hi <? byte_val c1)) eqn:Hb1;
      [intros [= <- <-]; discriminate|].
    apply orb_false_iff in Hb1. destruct Hb1 as [Hb1l Hb1h].
    apply Z.ltb_ge in Hb1l, Hb1h.
    pose proof (first_lead _ _ _ _ Hf) as Hcase.
    destruct Hcase as [(-> & P0 & -> & ->) | [(-> & P0 & Hlo & Hhi & Elo & Ehi)
                                            | (-> & P0 & Hlo & Hhi & Elo & Ehi)]].
    + cbn [Nat.leb]. intros [= <- <-] _.
      exists (String c0 (String c1 EmptyString)), s2.
      split; [reflexivity|]. split; [reflexivity|]. split; [lia|].
      split; [rewrite EncodeRune_2 by lia; now rewrite !byte_of_val|].
      split; [eauto|].
      intros t. rewrite ?app_String, ?app_Empty. rewrite Hf.
      destruct (Z.ltb_spec (byte_val c1) 128); [lia|].
      destruct (Z.ltb_spec 191 (byte_val c1)); [lia|]. reflexivity.
    + cbn [Nat.leb]. destruct s2 as [|c2 s3]; [intros [= <- <-]; discriminate|].
      pose proof (byte_val_range c2) as R2.
      destruct (is_cont (byte_val c2)) eqn:Hc2; cbn [negb];
        [|intros [= <- <-]; discriminate].
      unfold is_cont in Hc2. apply andb_true_iff in Hc2. destruct Hc2 as [Hc2l Hc2h].
      apply Z.leb_le in Hc2l, Hc2h.
      intros [= <- <-] _.
      exists (String c0 (String c1 (String c2 EmptyString))), s3.
      split; [reflexivity|]. split; [reflexivity|]. split; [lia|].
      split; [rewrite EncodeRune_3 by lia; now rewrite !byte_of_val|].
      split; [eauto|].
      intros t. rewrite ?app_String, ?app_Empty. rewrite Hf.
      destruct (Z.ltb_spec (byte_val c1) lo); [lia|].
      destruct (Z.ltb_spec hi (byte_val c1)); [lia|]. cbn [orb Nat.leb].
      unfold is_cont.
      destruct (Z.leb_spec 128 (byte_val c2)); [|lia].
      destruct (Z.leb_spec (byte_val c2) 191); [|lia]. reflexivity.
    + cbn [Nat.leb]. destruct s2 as [|c2 s3]; [intros [= <- <-]; discriminate|].
      pose proof (byte_val_range c2) as R2.
      destruct (is_cont (byte_val c2)) eqn:Hc2; cbn [negb];
        [|intros [= <- <-]; discriminate].
      destruct s3 as [|c3 s4]; [intros [= <- <-]; discriminate|].
      pose proof (byte_val_range c3) as R3.
      destruct (is_cont (byte_val c3)) eqn:Hc3; cbn [negb];
        [|intros [= <- <-]; discriminate].
      unfold is_cont in Hc2, Hc3.
      apply andb_true_iff in Hc2, Hc3.
      destruct Hc2 as [Hc2l Hc2h]. destruct Hc3 as [Hc3l Hc3h].
      apply Z.leb_le in Hc2l, Hc2h, Hc3l, Hc3h.
      intros [= <- <-] _.
      exists (String c0 (String c1 (String c2 (String c3 EmptyString)))), s4.
      split; [reflexivity|]. split; [reflexivity|]. split; [lia|].
      split; [rewrite EncodeRune_4 by lia; now rewrite !byte_of_val|].
      split; [eauto|].
      intros t. rewrite ?app_String, ?app_Empty. rewrite Hf.
      destruct (Z.ltb_spec (byte_val c1) lo); [lia|].
      destruct (Z.ltb_spec hi (byte_val c1)); [lia|]. cbn [orb Nat.leb].
      unfold is_cont.
      destruct (Z.leb_spec 128 (byte_val c2)); [|lia].
      destruct (Z.leb_spec (byte_val c2) 191); [|lia].
      destruct (Z.leb_spec 128 (byte_val c3)); [|lia].
      destruct (Z.leb_spec (byte_val c3) 191); [|lia]. reflexivity.
Qed.

Lemma DecodeRune_ascii (c0 : ascii) (s1 : string) :
  byte_val c0 < 0x80 -> DecodeRuneInString (String c0 s1) = (byte_val c0, 1%nat).
Proof.
  intros H. unfold DecodeRuneInString, first.
  destruct (Z.ltb_spec (byte_val c0) 128); [reflexivity|lia].
Qed.

End utf8_facts.

(** * json: reading back what the encoder wrote *)

Section json_facts.
Import json props.

Abbreviation step_with f t k :=
  (match parse_string_body f t with
   | Some (out, rest) => Some (k out, rest)
   | None => None
   end).

Lemma parse_body_quote (f : nat) (rest : string) :
  parse_string_body (S f) (String dq rest) = Some (EmptyString, rest).
Proof. reflexivity. Qed.

Lemma parse_body_plain (f : nat) (c : ascii) (t : string) :
  0x20 <= byte_val c < 0x80 -> byte_val c <> 0x22 -> byte_val c <> 0x5C ->
  parse_string_body (S f) (String c t) = step_with f t (String c).
Proof.
  intros H1 H2 H3. cbn [parse_string_body].
  destruct (Z.eqb_spec (byte_val c) 34); [lia|].
  destruct (Z.eqb_spec (byte_val c) 92); [lia|].
  destruct (Z.ltb_spec (byte_val c) 32); [lia|].
  unfold utf8.RuneSelf.
  destruct (Z.ltb_spec (byte_val c) 128); [|lia]. reflexivity.
Qed.

Lemma parse_body_esc_quote (f : nat) (t : string) :
  parse_string_body (S f) (String "\" (String dq t)) = step_with f t (String dq).
Proof. reflexivity. Qed.

Lemma parse_body_esc_backslash (f : nat) (t : string) :
  parse_string_body (S f) (String "\" (String "\" t)) = step_with f t (String "\").
Proof. reflexivity. Qed.

Lemma parse_body_esc_n (f : nat) (t : string) :
  parse_string_body (S f) (String "\" (String "n" t)) = step_with f t (String (byte_of 10)).
Proof. reflexivity. Qed.

Lemma parse_body_esc_r (f : nat) (t : string) :
  parse_string_body (S f) (String "\" (String "r" t)) = step_with f t (String (byte_of 13)).
Proof. reflexivity. Qed.

Lemma parse_body_esc_t (f : nat) (t : string) :
  parse_string_body (S f) (String "\" (String "t" t)) = step_with f t (String (byte_of 9)).
Proof. reflexivity. Qed.

Lemma parse_body_u (f : nat) (t t' : string) (rr : Z) :
  hex4 t = Some (rr, t') -> isSurrogate rr = false ->
  parse_string_body (S f) (String "\" (String "u" t))
  = step_with f t' (fun out => utf8.EncodeRune rr ++ out).
Proof.
  intros Hh Hs.
  change (parse_string_body (S f) (String "\" (String "u" t))) with
    (match hex4 t with
     | None => None
     | Some (rr, s3) =>
         let '(rune, s4) :=
           if isSurrogate rr then
             match getu4 s3 with
             | Some (rr1, s3') =>
                 let dec := utf16_DecodeRune rr rr1 in
                 if negb (dec =? utf8.RuneError) then (dec, s3')
                 else (utf8.RuneError, s3)
             | None => (utf8.RuneError, s3)
             end
           else (rr, s3) in
         match parse_string_body f s4 with
         | Some (out, rest) => Some (utf8.EncodeRune rune ++ out, rest)
         | None => None
         end
     end).
  rewrite Hh, Hs. reflexivity.
Qed.

Lemma parse_body_multi (f : nat) (c0 : ascii) (s : string) :
  0x80 <= byte_val c0 ->
  parse_string_body (S f) (String c0 s) =
    let '(rr, size) := utf8.DecodeRuneInString (String c0 s) in
    step_with f (drop_bytes size (String c0 s)) (fun out => utf8.EncodeRune rr ++ out).
Proof.
  intros H. cbn [parse_string_body].
  destruct (Z.eqb_spec (byte_val c0) 34); [lia|].
  destruct (Z.eqb_spec (byte_val c0) 92); [lia|].
  destruct (Z.ltb_spec (byte_val c0) 32); [lia|].
  unfold utf8.RuneSelf.
  destruct (Z.ltb_spec (byte_val c0) 128); [lia|]. reflexivity.
Qed.

Lemma hex_digit_val (n : Z) : 0 <= n < 16 -> hex_val (hex_digit n) = Some n.
Proof.
  intros H. destruct n as [|p|p]; [reflexivity| |lia].
  repeat (destruct p as [p|p|]; try reflexivity; try lia).
Qed.

Lemma hex4_00 (b : Z) (t : string) :
  0 <= b < 256 ->
  hex4 (String "0" (String "0" (String (hex_digit (Z.shiftr b 4))
          (String (hex_digit (Z.land b 0xF)) t)))) = Some (b, t).
Proof.
  intros Hb. unfold hex4.
  change (hex_val "0") with (Some 0).
  change (Z.land b 0xF) with (Z.land b (2 ^ 4 - 1)). rewrite land_low by lia.
  rewrite Z.shiftr_div_pow2 by lia. change (2 ^ 4) with 16.
  rewrite !hex_digit_val by (Z.div_mod_to_equations; lia).
  do 2 f_equal. Z.div_mod_to_equations; lia.
Qed.

Lemma htmlSafe_spec (b : Z) :
  htmlSafe b = true ->
  0x20 <= b /\ b <> 0x22 /\ b <> 0x5C.
Proof. unfold htmlSafe. lia. Qed.

(** What the parser makes of the escape of an ASCII byte. *)
Lemma parse_escape_ascii (f : nat) (c : ascii) (t : string) :
  byte_val c < 0x80 ->
  parse_string_body (S f) (escape_ascii (byte_val c) ++ t) = step_with f t (String c).
Proof.
  intros Hc. pose proof (byte_val_range c) as R. unfold escape_ascii.
  destruct (Z.eqb_spec (byte_val c) 0x5C) as [E|N1].
  { cbn [orb]. rewrite E. change (byte_of 92) with "\"%char.
    rewrite ?app_String, ?app_Empty. rewrite parse_body_esc_backslash.
    change 92 with (byte_val "\") in E. apply byte_val_inj in E. now subst. }
  destruct (Z.eqb_spec (byte_val c) 0x22) as [E|N2].
  { cbn [orb]. rewrite E. change (byte_of 34) with dq.
    rewrite ?app_String, ?app_Empty. rewrite parse_body_esc_quote.
    change 34 with (byte_val dq) in E. apply byte_val_inj in E. now subst. }
  cbn [orb].
  destruct (Z.eqb_spec (byte_val c) 0x0A) as [E|N3].
  { rewrite ?app_String, ?app_Empty. rewrite parse_body_esc_n.
    change 10 with (byte_val (byte_of 10)) in E. apply byte_val_inj in E. now subst. }
  destruct (Z.eqb_spec (byte_val c) 0x0D) as [E|N4].
  { rewrite ?app_String, ?app_Empty. rewrite parse_body_esc_r.
    change 13 with (byte_val (byte_of 13)) in E. apply byte_val_inj in E. now subst. }
  destruct (Z.eqb_spec (byte_val c) 0x09) as [E|N5].
  { rewrite ?app_String, ?app_Empty. rewrite parse_body_esc_t.
    change 9 with (byte_val (byte_of 9)) in E. apply byte_val_inj in E. now subst. }
  rewrite ?app_String, ?app_Empty.
  erewrite parse_body_u; [|apply hex4_00; lia|unfold isSurrogate; lia].
  unfold utf8.EncodeRune. rewrite Z.mod_small by lia.
  destruct (Z.leb_spec (byte_val c) 0x7F); [|lia].
  rewrite byte_of_val. reflexivity.
Qed.

Lemma escape_ascii_length (b : Z) : (1 <= String.length (escape_ascii b))%nat.
Proof.
  unfold escape_ascii.
  repeat match goal with |- context [if ?x then _ else _] => destruct x end;
    rewrite ?string_length_app; cbn [String.length]; lia.
Qed.

(** The string parser reads back, from what the encoder wrote for a
    string, the string with its ill-formed bytes replaced. *)
Lemma parse_encode_body (fuel : nat) :
  forall (s tail : string) (f2 : nat),
    (String.length s <= fuel)%nat ->
    (String.length (encode_string_body fuel s) < f2)%nat ->
    parse_string_body f2 (encode_string_body fuel s ++ String dq tail)
    = Some (coerce_loop fuel s, tail).
Proof.
  induction fuel as [|fuel IH]; intros s tail f2 Hlen Hf2.
  - destruct s; [|cbn in Hlen; lia]. destruct f2; [cbn in Hf2; lia|]. reflexivity.
  - destruct s as [|c0 s1].
    { destruct f2; [cbn in Hf2; lia|]. reflexivity. }
    cbn [encode_string_body coerce_loop] in Hf2 |- *.
    pose proof (byte_val_range c0) as R0. unfold utf8.RuneSelf in *.
    destruct (Z.ltb_spec (byte_val c0) 0x80) as [Hlow|Hhigh].
    + rewrite DecodeRune_ascii by exact Hlow.
      unfold utf8.RuneError at 1.
      destruct (Z.eqb_spec (byte_val c0) 65533); [lia|]. cbn [andb drop_bytes].
      cbn [String.length] in Hlen.
      replace (substring 0 1 (String c0 s1)) with (String c0 EmptyString)
        by (cbn [substring]; now destruct s1).
      rewrite app_String, app_Empty.
      destruct (htmlSafe (byte_val c0)) eqn:Hsafe.
      * rewrite app_String. cbn [String.length] in Hf2.
        destruct f2 as [|f2]; [lia|].
        apply htmlSafe_spec in Hsafe.
        rewrite parse_body_plain by lia.
        rewrite IH; [reflexivity | lia | lia].
      * rewrite string_app_assoc. rewrite string_length_app in Hf2.
        pose proof (escape_ascii_length (byte_val c0)).
        destruct f2 as [|f2]; [lia|].
        rewrite parse_escape_ascii by lia.
        rewrite IH; [reflexivity | lia | lia].
    + destruct (utf8.DecodeRuneInString (String c0 s1)) as [r size] eqn:Hd.
      destruct ((r =? utf8.RuneError) && (size =? 1)%nat) eqn:Hbad.
      * cbn [String.length] in Hlen.
        rewrite !string_length_app in Hf2. cbn [String.length] in Hf2.
        rewrite ?app_String, ?app_Empty.
        destruct f2 as [|f2]; [lia|].
        rewrite (parse_body_u _ _ (encode_string_body fuel s1 ++ String dq tail) 65533);
          [|reflexivity|reflexivity].
        rewrite IH; [reflexivity | lia | lia].
      * destruct (DecodeRune_valid _ _ _ _ Hhigh Hd Hbad)
          as (pre & rest & Hs & Hpl & Hsz & Henc & (c0' & pre' & Hpre & Hc0') & Hfree).
        rewrite Hs in *. rewrite <- Hpl in *.
        rewrite drop_bytes_app in *. rewrite substring_app in *.
        rewrite string_length_app in Hlen.
        assert (IH' : forall f, (String.length (encode_string_body fuel rest) < f)%nat ->
                      parse_string_body f (encode_string_body fuel rest ++ String dq tail)
                      = Some (coerce_loop fuel rest, tail)).
        { intros f Hf. apply IH; [lia | exact Hf]. }
        destruct ((r =? 8232) || (r =? 8233)) eqn:Hsep.
        -- rewrite ?app_String, ?app_Empty.
           rewrite ?app_String in Hf2. rewrite ?app_Empty in Hf2.
           cbn [String.length] in Hf2.
           destruct f2 as [|f2]; [lia|].
           assert (Hh : hex4 (String "2" (String "0" (String "2"
                          (String (hex_digit (Z.land r 15))
                             (encode_string_body fuel rest ++ String dq tail)))))
                        = Some (r, encode_string_body fuel rest ++ String dq tail)).
           { apply orb_true_iff in Hsep. destruct Hsep as [E|E];
               apply Z.eqb_eq in E; subst r; reflexivity. }
           rewrite (parse_body_u _ _ _ _ Hh)
             by (apply orb_true_iff in Hsep; destruct Hsep as [E|E];
                 apply Z.eqb_eq in E; subst r; reflexivity).
           rewrite IH' by lia. rewrite Henc. reflexivity.
        -- rewrite string_app_assoc. rewrite string_length_app in Hf2.
           destruct f2 as [|f2]; [lia|].
           rewrite Hpre at 1. rewrite app_String.
           rewrite parse_body_multi by exact Hc0'.
           rewrite <- app_String, <- Hpre. rewrite Hfree.
           rewrite drop_bytes_app. rewrite IH' by lia. rewrite Henc. reflexivity.
Qed.

(** A well-formed string is read back as it is. *)
Lemma coerce_loop_valid (fuel : nat) :
  forall s : string,
    (String.length s <= fuel)%nat -> utf8.valid_loop fuel s = true ->
    coerce_loop fuel s = s.
Proof.
  induction fuel as [|fuel IH]; intros s Hlen Hv.
  - destruct s; [reflexivity|cbn in Hlen; lia].
  - destruct s as [|c0 s1]; [reflexivity|].
    cbn [utf8.valid_loop coerce_loop] in *.
    destruct (utf8.DecodeRuneInString (String c0 s1)) as [r size] eqn:Hd.
    destruct ((r =? utf8.RuneError) && (size =? 1)%nat) eqn:Hbad; [discriminate|].
    pose proof (byte_val_range c0) as R0.
    destruct (Z.ltb_spec (byte_val c0) 0x80) as [Hlow|Hhigh].
    + rewrite DecodeRune_ascii in Hd by exact Hlow. injection Hd as <- <-.
      cbn [drop_bytes] in *. cbn [String.length] in Hlen.
      replace (substring 0 1 (String c0 s1)) with (String c0 EmptyString)
        by (cbn [substring]; now destruct s1).
      rewrite app_String, app_Empty. rewrite IH; [reflexivity | lia | exact Hv].
    + destruct (DecodeRune_valid _ _ _ _ Hhigh Hd Hbad)
        as (pre & rest & Hs & Hpl & Hsz & _).
      rewrite Hs in *. rewrite <- Hpl in *.
      rewrite drop_bytes_app in *. rewrite substring_app.
      rewrite string_length_app in Hlen. rewrite IH; [reflexivity | lia | exact Hv].
Qed.

Lemma coerce_valid (s : string) : utf8.ValidString s = true -> coerce s = s.
Proof. intros H. apply coerce_loop_valid; [lia|exact H]. Qed.

Lemma encode_string_app (x tail : string) :
  encode_string x ++ tail
  = String dq (encode_string_body (String.length x) x ++ String dq tail).
Proof.
  unfold encode_string. rewrite app_String, string_app_assoc. reflexivity.
Qed.

Lemma parse_value_string (f : nat) (depth : Z) (x tail : string) :
  parse_value (S f) depth (encode_string x ++ tail) = Some (Str (coerce x), tail).
Proof.
  rewrite encode_string_app.
  change (parse_value (S f) depth
            (String dq (encode_string_body (String.length x) x ++ String dq tail)))
    with (match parse_string_body
                  (String.length (encode_string_body (String.length x) x ++ String dq tail))
                  (encode_string_body (String.length x) x ++ String dq tail) with
          | Some (str, rest) => Some (Str str, rest)
          | None => None
          end).
  rewrite parse_encode_body; [reflexivity | lia |].
  rewrite string_length_app. cbn [String.length]. lia.
Qed.

Lemma parse_elems_last (f : nat) (depth : Z) (s tail : string) (v : value) :
  parse_value f depth s = Some (v, String "]" tail) ->
  parse_elems (S f) depth s = Some ([v], tail).
Proof. intros H. cbn [parse_elems]. rewrite H. reflexivity. Qed.

Lemma parse_elems_more (f : nat) (depth : Z) (s X : string) (v : value) :
  parse_value f depth s = Some (v, String "," (String dq X)) ->
  parse_elems (S f) depth s =
    match parse_elems f depth (String dq X) with
    | Some (vs, rest) => Some (v :: vs, rest)
    | None => None
    end.
Proof. intros H. cbn [parse_elems]. rewrite H. reflexivity. Qed.

Lemma encode_elems_cons (x y : string) (l : list string) :
  encode_elems (x :: y :: l) = encode_string x ++ "," ++ encode_elems (y :: l).
Proof. reflexivity. Qed.

Lemma encode_elems_head (x : string) (l : list string) (tail : string) :
  exists X, encode_elems (x :: l) ++ tail = String dq X.
Proof.
  destruct l as [|y l].
  - cbn [encode_elems]. rewrite encode_string_app. eauto.
  - rewrite encode_elems_cons, string_app_assoc, encode_string_app. eauto.
Qed.

Lemma parse_elems_encode (l : list string) :
  forall (x : string) (f : nat) (depth : Z) (tail : string),
    (length l + 2 <= f)%nat ->
    parse_elems f depth (encode_elems (x :: l) ++ String "]" tail)
    = Some (map Str (map coerce (x :: l)), tail).
Proof.
  induction l as [|y l IH]; intros x f depth tail Hf.
  - destruct f as [|[|f]]; [cbn in Hf; lia..|].
    cbn [encode_elems]. apply parse_elems_last.
    apply parse_value_string.
  - cbn [length] in Hf. destruct f as [|[|f]]; [lia..|].
    rewrite encode_elems_cons, !string_app_assoc.
    destruct (encode_elems_head y l (String "]" tail)) as [X HX].
    rewrite (parse_elems_more _ _ _ X (Str (coerce x))).
    + rewrite <- HX. rewrite IH; [reflexivity | lia].
    + rewrite <- HX. rewrite <- app_String.
      change (String "," EmptyString) with ",".
      rewrite parse_value_string. reflexivity.
Qed.

Lemma encode_elems_length (l : list string) :
  (2 * length l <= String.length (encode_elems l))%nat.
Proof.
  induction l as [|x l IH]; [cbn; lia|].
  assert (Hx : (2 <= String.length (encode_string x))%nat).
  { unfold encode_string. cbn [String.length]. rewrite string_length_app.
    cbn [String.length]. lia. }
  destruct l as [|y l]; [cbn [encode_elems length]; lia|].
  rewrite encode_elems_cons, !string_length_app. cbn [length] in *. lia.
Qed.

Lemma parse_value_slice (nodes : option (list string)) (f : nat) (depth : Z)
    (tail : string) :
  depth + 1 <= maxNestingDepth ->
  (length (default [] nodes) + 3 <= f)%nat ->
  parse_value f depth (encode_string_slice nodes ++ tail)
  = Some (nodes_value nodes, tail).
Proof.
  intros Hd Hf. destruct nodes as [l|]; cbn [from_option id] in *.
  - destruct f as [|f]; [lia|]. unfold encode_string_slice.
    rewrite !string_app_assoc. rewrite app_String, app_Empty.
    destruct l as [|x l].
    + cbn [encode_elems]. rewrite app_Empty.
      cbn [parse_value].
      change (byte_val "[" =? 34) with false. change (byte_val "[" =? 123) with false.
      change (byte_val "[" =? 91) with true. cbv iota.
      destruct (Z.ltb_spec maxNestingDepth (depth + 1)); [lia|]. reflexivity.
    + destruct (encode_elems_head x l ("]" ++ tail)) as [X HX].
      rewrite HX.
      transitivity (match parse_elems f (depth + 1) (String dq X) with
                    | Some (es, rest) => Some (Array es, rest)
                    | None => None
                    end).
      { cbn [parse_value].
        change (byte_val "[" =? 34) with false. change (byte_val "[" =? 123) with false.
        change (byte_val "[" =? 91) with true. cbv iota.
        destruct (Z.ltb_spec maxNestingDepth (depth + 1)); [lia|]. reflexivity. }
      rewrite <- HX. rewrite app_String, app_Empty.
      rewrite parse_elems_encode; [reflexivity | cbn [length] in Hf; lia].
  - destruct f as [|f]; [lia|]. unfold encode_string_slice.
    rewrite ?app_String, ?app_Empty. reflexivity.
Qed.

Lemma parse_value_object (f : nat) (depth : Z) (X : string) :
  depth + 1 <= maxNestingDepth ->
  parse_value (S f) depth (String "{" (String dq X)) =
    match parse_members f (depth + 1) (String dq X) with
    | Some (ms, rest) => Some (Object ms, rest)
    | None => None
    end.
Proof.
  intros Hd. cbn [parse_value].
  change (byte_val "{" =? 34) with false. change (byte_val "{" =? 123) with true.
  cbv iota. destruct (Z.ltb_spec maxNestingDepth (depth + 1)); [lia|]. reflexivity.
Qed.

Lemma parse_members_one (f : nat) (depth : Z) (s1 key T rest : string) (v : value) :
  parse_string_body (String.length s1) s1 = Some (key, String ":" T) ->
  skip_space T = T ->
  parse_value f depth T = Some (v, String "}" rest) ->
  parse_members (S f) depth (String dq s1) = Some ([(key, v)], rest).
Proof.
  intros H1 H2 H3. cbn [parse_members].
  change (byte_val dq =? 34) with true. cbv iota. rewrite H1.
  change (skip_space (String ":" T)) with (String ":" T). cbv iota.
  rewrite H2, H3. reflexivity.
Qed.

Lemma skip_space_slice (nodes : option (list string)) (tail : string) :
  skip_space (encode_string_slice nodes ++ tail) = encode_string_slice nodes ++ tail.
Proof. destruct nodes; reflexivity. Qed.

(** The text [json.Marshal] writes for a group parses to an object
    with the one member [nodes]. *)
Lemma parse_nodes_object (nodes : option (list string)) :
  parse ("{" ++ String dq ("nodes" ++ String dq (":" ++ encode_string_slice nodes ++ "}")))
  = Some (Object [("nodes", nodes_value nodes)]).
Proof.
  unfold parse.
  set (T := encode_string_slice nodes ++ "}").
  change ("{" ++ String dq ("nodes" ++ String dq (":" ++ T)))
    with (String "{" (String dq ("nodes" ++ String dq (String ":" T)))).
  change (skip_space (String "{" (String dq ("nodes" ++ String dq (String ":" T)))))
    with (String "{" (String dq ("nodes" ++ String dq (String ":" T)))).
  assert (Hlen : (2 * length (default [] nodes) + 2 <= String.length T)%nat).
  { subst T. rewrite string_length_app. destruct nodes as [l|]; cbn [from_option id].
    - unfold encode_string_slice. rewrite !string_length_app.
      pose proof (encode_elems_length l). cbn [String.length length]. lia.
    - cbn. lia. }
  cbn [String.length]. rewrite string_length_app. cbn [String.length].
  rewrite parse_value_object by (unfold maxNestingDepth; lia).
  rewrite (parse_members_one _ _ _ "nodes" T EmptyString (nodes_value nodes)).
  - reflexivity.
  - refine (parse_encode_body 5 "nodes" (String ":" T) _ _ _);
      [cbn; lia |].
    change (encode_string_body 5 "nodes") with "nodes".
    rewrite string_length_app. cbn [String.length]. lia.
  - subst T. apply skip_space_slice.
  - subst T. apply parse_value_slice.
    + unfold maxNestingDepth. lia.
    + lia.
Qed.

Lemma store_elems_strs (l old : list string) (saved : option error) :
  store_elems old (map Str l) saved = (l, saved).
Proof.
  revert old. induction l as [|x l IH]; intros old; [reflexivity|].
  cbn [map store_elems store_string]. now rewrite IH.
Qed.

Lemma store_nodes_value (old nodes : option (list string)) :
  store_string_slice old (nodes_value nodes) None = (coerce_nodes nodes, None).
Proof.
  destruct nodes as [l|]; cbn [nodes_value store_string_slice]; [|reflexivity].
  now rewrite store_elems_strs.
Qed.

Lemma coerce_nodes_valid (nodes : option (list string)) :
  valid_nodes nodes = true -> coerce_nodes nodes = nodes.
Proof.
  unfold valid_nodes, coerce_nodes. destruct nodes as [l|]; [|reflexivity].
  cbn [from_option id option_map]. intros H. f_equal.
  induction l as [|x l IH]; [reflexivity|].
  cbn [forallb] in H. apply andb_true_iff in H. destruct H as [Hx Hl].
  cbn [map]. now rewrite coerce_valid, IH.
Qed.

End json_facts.

(** * The table and its statements *)

Section gorm_facts.
Import mysql props.

Lemma name_is_true (n : string) (c : conf) : name_is n c = true <-> Name c = n.
Proof. unfold name_is. apply String.eqb_eq. Qed.

Lemma name_is_false (n : string) (c : conf) : name_is n c = false <-> Name c <> n.
Proof. unfold name_is. apply String.eqb_neq. Qed.

Lemma existsb_false_filter {A} (f : A -> bool) (l : list A) :
  existsb f l = false <-> List.filter f l = [].
Proof.
  induction l as [|x l IH]; cbn [existsb List.filter]; [tauto|].
  destruct (f x); cbn [orb]; [split; discriminate|exact IH].
Qed.

Lemma existsb_name_is (n : string) (l : list conf) :
  existsb (name_is n) l = true <-> exists c, In c l /\ Name c = n.
Proof.
  rewrite existsb_exists. split; intros (c & Hin & Hc); exists c;
    (split; [exact Hin|]); now apply name_is_true.
Qed.

Lemma min_by_ID_in (l : list conf) (c : conf) : min_by_ID l = Some c -> In c l.
Proof.
  revert c. induction l as [|x l IH]; intros c; cbn [min_by_ID]; [discriminate|].
  destruct (min_by_ID l) as [m|].
  - destruct (ID x <=? ID m); intros [= <-]; [now left|right; now apply IH].
  - intros [= <-]. now left.
Qed.

Lemma min_by_ID_cons (x : conf) (l : list conf) : exists c, min_by_ID (x :: l) = Some c.
Proof.
  cbn [min_by_ID]. destruct (min_by_ID l) as [m|]; [|eauto].
  destruct (ID x <=? ID m); eauto.
Qed.

(** [First] on a healthy connection: a matching row when there is one. *)
Lemma First_found (cond : conf -> bool) (db : DB) :
  conn db = None -> existsb cond (rows db) = true ->
  exists c, First cond db = (Some c, None) /\ In c (rows db) /\ cond c = true.
Proof.
  intros Hc He. unfold First. rewrite Hc.
  destruct (List.filter cond (rows db)) as [|x l] eqn:Hf.
  - apply existsb_false_filter in Hf. congruence.
  - destruct (min_by_ID_cons x l) as [c Hm]. rewrite Hm. exists c.
    split; [reflexivity|]. apply min_by_ID_in in Hm. rewrite <- Hf in Hm.
    now apply filter_In in Hm.
Qed.

Lemma First_absent (cond : conf -> bool) (db : DB) :
  conn db = None -> existsb cond (rows db) = false ->
  First cond db = (None, Some ErrRecordNotFound).
Proof.
  intros Hc He. unfold First. rewrite Hc.
  apply existsb_false_filter in He. now rewrite He.
Qed.

Lemma update_where_ok (cond : conf -> bool) (f : conf -> result conf)
    (g : conf -> conf) (rs : list conf) :
  (forall r, In r rs -> cond r = true -> f r = Ok (g r)) ->
  update_where cond f rs = Ok (map (fun r => if cond r then g r else r) rs).
Proof.
  induction rs as [|r rs IH]; intros H; [reflexivity|].
  cbn [update_where map]. rewrite IH by (intros; apply H; [now right|assumption]).
  destruct (cond r) eqn:Hr; [|reflexivity].
  rewrite H; [reflexivity|now left|assumption].
Qed.

(** What [StoreConfig] does with a string on a healthy connection. *)
Lemma StoreConfig_string (now : Time) (name v : string) (db : DB) :
  conn db = None -> len name <= nameSize -> len v <= valueSize ->
  StoreConfig now name (AnyString v) db =
    Returns
      (if existsb (name_is name) (rows db)
       then (with_rows db
               (map (fun r => if name_is name r then set_value db now v r else r)
                    (rows db)), None)
       else if maxUint32 <? auto_increment db
       then (db, Some (ErrDriver "Out of range value for column"))
       else (mkDB (rows db ++ [mkconf (auto_increment db) name v now now])
                  (auto_increment db + 1) None (refresh_updated_at db), None)).
Proof.
  intros Hc Hn Hv. unfold StoreConfig. cbn [assert_string mbind outcome_bind mret outcome_ret].
  f_equal. unfold Create. rewrite Hc.
  unfold fits_schema at 1. cbn [Name Value].
  destruct (Z.leb_spec (len name) nameSize); [|lia].
  destruct (Z.leb_spec (len v) valueSize); [|lia]. cbn [andb negb].
  destruct (existsb (name_is name) (rows db)); [|reflexivity].
  rewrite (update_where_ok _ _ (set_value db now v)); [reflexivity|].
  intros r _ Hr. apply name_is_true in Hr.
  unfold on_duplicate_key. cbn [DoUpdates assign_all assign sql_text].
  change (String.eqb "value" "value") with true. cbv iota.
  unfold fits_schema. cbn [Name Value]. subst name.
  destruct (Z.leb_spec (len (Name r)) nameSize); [|lia].
  destruct (Z.leb_spec (len v) valueSize); [|lia]. reflexivity.
Qed.

Lemma set_value_fields (db : DB) (now : Time) (v : string) (r : conf) :
  ID (set_value db now v r) = ID r /\ Name (set_value db now v r) = Name r
  /\ Value (set_value db now v r) = v
  /\ CreatedAt (set_value db now v r) = CreatedAt r.
Proof. unfold set_value, touch. destruct (refresh_updated_at db); auto. Qed.

Lemma existsb_map_names (n : string) (f : conf -> conf) (l : list conf) :
  (forall r, Name (f r) = Name r) ->
  existsb (name_is n) (map f l) = existsb (name_is n) l.
Proof.
  intros Hf. induction l as [|r l IH]; [reflexivity|].
  cbn [map existsb]. rewrite IH. unfold name_is at 1 3. now rewrite Hf.
Qed.

(** * The reorg version *)

Lemma GetReorgVersion_absent (db : DB) :
  conn db = None ->
  existsb (name_is MysqlConfKeyReorgVersion) (rows db) = false ->
  GetReorgVersion db = (0, None).
Proof.
  intros Hc He. unfold GetReorgVersion, exists_.
  now rewrite First_absent.
Qed.

Lemma GetReorgVersion_present (db : DB) :
  conn db = None ->
  existsb (name_is MysqlConfKeyReorgVersion) (rows db) = true ->
  exists c, In c (rows db) /\ Name c = MysqlConfKeyReorgVersion
            /\ GetReorgVersion db = strconv.Atoi (Value c).
Proof.
  intros Hc He. destruct (First_found _ _ Hc He) as (c & Hf & Hin & Hn).
  exists c. split; [exact Hin|]. split; [now apply name_is_true|].
  unfold GetReorgVersion, exists_. now rewrite Hf.
Qed.

Lemma GetReorgVersion_holds (k : Z) (db : DB) :
  holds_version k db -> minInt <= k <= maxInt -> GetReorgVersion db = (k, None).
Proof.
  intros (Hc & He & Hv) Hk.
  destruct (GetReorgVersion_present db Hc He) as (c & Hin & Hn & ->).
  rewrite (Hv c Hin Hn). now apply Atoi_Itoa.
Qed.

Lemma int_add_small (a b : Z) : minInt <= a + b <= maxInt -> int_add a b = a + b.
Proof.
  unfold int_add, wrap_int, minInt, maxInt, intSize.
  change (2 ^ (64 - 1)) with 9223372036854775808.
  change (2 ^ 64) with 18446744073709551616. intros H.
  rewrite Z.mod_small by lia. lia.
Qed.

Lemma version_text_fits (k : Z) :
  len MysqlConfKeyReorgVersion <= nameSize /\ len (strconv.Itoa k) <= valueSize.
Proof.
  split; [vm_compute; discriminate|].
  pose proof (Itoa_len k). unfold valueSize. lia.
Qed.

Lemma bump_present (now : Time) (k : Z) (db : DB) :
  holds_version k db -> 0 <= k < maxInt ->
  exists db', createOrUpdateReorgVersion now db = Returns (db', None)
              /\ holds_version (k + 1) db'.
Proof.
  intros Hh Hk. pose proof Hh as (Hc & He & Hv).
  assert (Hmin : minInt < 0) by (vm_compute; reflexivity).
  unfold createOrUpdateReorgVersion.
  rewrite (GetReorgVersion_holds k db Hh) by lia.
  rewrite int_add_small by lia.
  destruct (version_text_fits (k + 1)) as [Hn Hl].
  rewrite StoreConfig_string by assumption. rewrite He.
  eexists. split; [reflexivity|].
  split; [exact Hc|]. split.
  - cbn [rows with_rows]. rewrite existsb_map_names; [exact He|].
    intros r. destruct (name_is _ r); [apply set_value_fields|reflexivity].
  - cbn [rows with_rows]. intros r' Hin Hn'.
    apply in_map_iff in Hin. destruct Hin as (r & <- & Hin).
    destruct (name_is MysqlConfKeyReorgVersion r) eqn:Hr.
    + apply set_value_fields.
    + apply name_is_false in Hr. contradiction.
Qed.

Lemma bump_absent (now : Time) (db : DB) :
  conn db = None ->
  existsb (name_is MysqlConfKeyReorgVersion) (rows db) = false ->
  auto_increment db <= maxUint32 ->
  exists db', createOrUpdateReorgVersion now db = Returns (db', None)
              /\ holds_version 1 db'.
Proof.
  intros Hc He Ha. unfold createOrUpdateReorgVersion.
  rewrite GetReorgVersion_absent by assumption.
  change (int_add 0 1) with 1.
  destruct (version_text_fits 1) as [Hn Hl].
  rewrite StoreConfig_string by assumption. rewrite He.
  destruct (Z.ltb_spec maxUint32 (auto_increment db)); [lia|].
  eexists. split; [reflexivity|].
  split; [reflexivity|]. cbn [rows]. split.
  - rewrite existsb_app. cbn [existsb]. apply orb_true_iff. right. reflexivity.
  - intros r Hin Hr. apply in_app_iff in Hin. destruct Hin as [Hin|[<-|[]]].
    + assert (existsb (name_is MysqlConfKeyReorgVersion) (rows db) = true)
        by (apply existsb_name_is; eauto). congruence.
    + reflexivity.
Qed.

Lemma bumps_present (times : list Time) :
  forall (k : Z) (db : DB),
    holds_version k db -> 0 <= k -> k + Z.of_nat (length times) <= maxInt ->
    exists db', bumps times db = Returns (db', None)
                /\ holds_version (k + Z.of_nat (length times)) db'.
Proof.
  induction times as [|now times IH]; intros k db Hh Hk Hmax.
  - exists db. split; [reflexivity|]. cbn [length]. now rewrite Z.add_0_r.
  - cbn [length] in *. rewrite Nat2Z.inj_succ in *.
    destruct (bump_present now k db Hh ltac:(lia)) as (db1 & Hb & Hh1).
    destruct (IH (k + 1) db1 Hh1 ltac:(lia) ltac:(lia)) as (db' & Hbs & Hh').
    exists db'. split.
    + cbn [bumps]. rewrite Hb. cbn [mbind outcome_bind]. exact Hbs.
    + replace (k + Z.succ (Z.of_nat (length times)))
        with (k + 1 + Z.of_nat (length times)) by lia. exact Hh'.
Qed.

(** * The decoders *)

Lemma slice_from_unfold (s : string) (n : nat) :
  slice_from s (Z.of_nat n) =
    if len s <? Z.of_nat n then Panics (SliceBoundsOutOfRange (Z.of_nat n) (len s))
    else Returns (drop_bytes n s).
Proof.
  unfold slice_from. destruct (Z.ltb_spec (Z.of_nat n) 0); [lia|]. cbn [orb].
  now rewrite Nat2Z.id.
Qed.

Lemma decodeAclAllowLists_unfold `{acl_package} (cfg : conf) :
  decodeAclAllowLists cfg =
    if len (Name cfg) <? 14
    then Panics (SliceBoundsOutOfRange 14 (len (Name cfg)))
    else
      let name := drop_bytes 14 (Name cfg) in
      if len name =? 0 then Returns (Err (errors_New "allowlist name is too short"))
      else match acl_Unmarshal (Value cfg) (acl_NewAllowList (ID cfg) name) with
           | (_, Some err) => Returns (Err err)
           | (al, None) => Returns (Ok al)
           end.
Proof.
  unfold decodeAclAllowLists.
  change (len AclAllowListConfKeyPrefix) with (Z.of_nat 14).
  rewrite slice_from_unfold. change (Z.of_nat 14) with 14.
  destruct (len (Name cfg) <? 14); [reflexivity|].
  cbn [mbind outcome_bind]. cbv zeta.
  destruct (len _ =? 0); [reflexivity|].
  destruct (acl_Unmarshal _ _) as [al [e|]]; reflexivity.
Qed.

Lemma decodeRateLimitStrategy_unfold `{rate_package} (cfg : conf) :
  decodeRateLimitStrategy cfg =
    if len (Name cfg) <? 19
    then Panics (SliceBoundsOutOfRange 19 (len (Name cfg)))
    else
      let name := drop_bytes 19 (Name cfg) in
      if len name =? 0 then Returns (Err (errors_New "strategy name is too short"))
      else match rate_Unmarshal (Value cfg) (rate_NewStrategy (ID cfg) name) with
           | (_, Some err) => Returns (Err err)
           | (stg, None) => Returns (Ok stg)
           end.
Proof.
  unfold decodeRateLimitStrategy.
  change (len RateLimitStrategyConfKeyPrefix) with (Z.of_nat 19).
  rewrite slice_from_unfold. change (Z.of_nat 19) with 19.
  destruct (len (Name cfg) <? 19); [reflexivity|].
  cbn [mbind outcome_bind]. cbv zeta.
  destruct (len _ =? 0); [reflexivity|].
  destruct (rate_Unmarshal _ _) as [al [e|]]; reflexivity.
Qed.

Lemma decodeNodeRouteGroup_unfold (cfg : conf) :
  decodeNodeRouteGroup cfg =
    if len (Name cfg) <? 16
    then Panics (SliceBoundsOutOfRange 16 (len (Name cfg)))
    else
      let name := drop_bytes 16 (Name cfg) in
      if len name =? 0 then Returns (Err (errors_New "route group name is too short"))
      else match json_Unmarshal (Value cfg) (NodeRouteGroup.mk (ID cfg) name None) with
           | (_, Some err) => Returns (Err err)
           | (grp, None) => Returns (Ok grp)
           end.
Proof.
  unfold decodeNodeRouteGroup.
  change (len NodeRouteGroupConfKeyPrefix) with (Z.of_nat 16).
  rewrite slice_from_unfold. change (Z.of_nat 16) with 16.
  destruct (len (Name cfg) <? 16); [reflexivity|].
  cbn [mbind outcome_bind]. cbv zeta.
  destruct (len _ =? 0); [reflexivity|].
  destruct (json_Unmarshal _ _) as [al [e|]]; reflexivity.
Qed.

(** * Patterns and prefixes *)

Lemma like_any (s : string) : like "%" s = true.
Proof.
  cbn [like]. change (Ascii.eqb "%" "%") with true. cbv iota.
  induction s as [|c s IH]; [reflexivity|].
  cbn [like] in *. exact IH.
Qed.

Lemma like_prefix (p s : string) :
  no_wildcard p = true -> like (p ++ "%") s = HasPrefix s p.
Proof.
  revert s. induction p as [|c p IH]; intros s Hp.
  - rewrite app_Empty. destruct s; apply like_any.
  - cbn [no_wildcard] in Hp. apply andb_true_iff in Hp. destruct Hp as [Hc Hp].
    apply andb_true_iff in Hc. destruct Hc as [Hc1 Hc2].
    apply negb_true_iff in Hc1, Hc2.
    rewrite app_String. cbn [like HasPrefix]. rewrite Hc1, Hc2.
    destruct s as [|d s]; [reflexivity|]. cbn [orb].
    rewrite IH by exact Hp. destruct (Ascii.eqb c d); reflexivity.
Qed.

Lemma HasPrefix_split (s p : string) :
  HasPrefix s p = true -> s = p ++ drop_bytes (String.length p) s.
Proof.
  revert s. induction p as [|c p IH]; intros s; [reflexivity|].
  cbn [HasPrefix]. destruct s as [|d s]; [discriminate|].
  destruct (Ascii.eqb_spec c d) as [->|]; [|discriminate].
  intros H. rewrite app_String. cbn [String.length drop_bytes]. f_equal. now apply IH.
Qed.

Lemma HasPrefix_app (p s : string) : HasPrefix (p ++ s) p = true.
Proof.
  induction p as [|c p IH]; [reflexivity|].
  rewrite app_String. cbn [HasPrefix]. now rewrite Ascii.eqb_refl.
Qed.

Lemma HasPrefix_len (s p : string) : HasPrefix s p = true -> len p <= len s.
Proof.
  intros H. apply HasPrefix_split in H. rewrite H, len_app.
  pose proof (len_nonneg (drop_bytes (String.length p) s)). lia.
Qed.

(** * Lists without repetition *)

Lemma NoDup_cons_In {A} (a : A) (l : list A) :
  NoDup (a :: l) <-> ~ In a l /\ NoDup l.
Proof. rewrite NoDup_cons, list_elem_of_In. reflexivity. Qed.

Lemma NoDup_map_filter {A B} (f : A -> B) (P : A -> bool) (l : list A) :
  NoDup (map f l) -> NoDup (map f (List.filter P l)).
Proof.
  induction l as [|x l IH]; [trivial|]. cbn [map List.filter].
  intros Hnd. apply NoDup_cons_In in Hnd. destruct Hnd as [Hx Hl].
  destruct (P x); [|auto]. cbn [map]. apply NoDup_cons_In. split; [|auto].
  intros Hin. apply Hx. apply in_map_iff in Hin. destruct Hin as (y & Hy & Hin).
  apply filter_In in Hin. apply in_map_iff. exists y. tauto.
Qed.

Lemma NoDup_map_via {A B C} (f : A -> B) (g : A -> C) (l : list A) :
  (forall x y, In x l -> In y l -> f x = f y -> g x = g y) ->
  NoDup (map g l) -> NoDup (map f l).
Proof.
  induction l as [|x l IH]; intros Hfg Hnd; [constructor|].
  cbn [map] in *. apply NoDup_cons_In in Hnd. destruct Hnd as [Hx Hl].
  apply NoDup_cons_In. split.
  - intros Hin. apply Hx. apply in_map_iff in Hin. destruct Hin as (y & Hy & Hin).
    apply in_map_iff. exists y. split; [|exact Hin].
    apply Hfg; [now right | now left | exact Hy].
  - apply IH; [|exact Hl]. intros a b Ha Hb. apply Hfg; now right.
Qed.

Lemma NoDup_map_inj {A B} (f : A -> B) (l : list A) (x y : A) :
  NoDup (map f l) -> In x l -> In y l -> f x = f y -> x = y.
Proof.
  induction l as [|a l IH]; intros Hnd Hx Hy Hf; [destruct Hx|].
  cbn [map] in Hnd. apply NoDup_cons_In in Hnd. destruct Hnd as [Ha Hl].
  destruct Hx as [->|Hx], Hy as [->|Hy]; [reflexivity| | |now apply IH].
  - exfalso. apply Ha. rewrite Hf. now apply in_map.
  - exfalso. apply Ha. rewrite <- Hf. now apply in_map.
Qed.

(** * Which rows a decoder refuses *)

Lemma prefix_only (p s : string) :
  HasPrefix s p = true -> (len s =? len p) = String.eqb s p.
Proof.
  intros H. apply HasPrefix_split in H. rewrite H at 1 2. rewrite len_app.
  destruct (drop_bytes (String.length p) s) as [|c t].
  - rewrite app_Empty_r, String.eqb_refl. change (len EmptyString) with 0. apply Z.eqb_eq. lia.
  - rewrite len_String. pose proof (len_nonneg t).
    destruct (Z.eqb_spec (len p + (len t + 1)) (len p)); [lia|].
    symmetry. apply String.eqb_neq. intros E.
    assert (Hl : len (p ++ String c t) = len p) by now rewrite E.
    rewrite len_app, len_String in Hl. lia.
Qed.

Lemma drop_bytes_len (n : nat) (s : string) :
  Z.of_nat n <= len s -> len (drop_bytes n s) = len s - Z.of_nat n.
Proof.
  revert s. induction n as [|n IH]; intros s Hn; [cbn [drop_bytes]; lia|].
  destruct s as [|c s]; [change (len EmptyString) with 0 in Hn; lia|].
  rewrite len_String in *. cbn [drop_bytes]. rewrite IH by lia. lia.
Qed.

Lemma acl_fails_split `{acl_package} (cfg : conf) :
  HasPrefix (Name cfg) AclAllowListConfKeyPrefix = true ->
  acl_fails cfg
  = String.eqb (Name cfg) AclAllowListConfKeyPrefix || acl_payload_fails cfg.
Proof.
  intros Hp. rewrite <- (prefix_only _ _ Hp). apply HasPrefix_len in Hp.
  change (len AclAllowListConfKeyPrefix) with 14 in *.
  unfold acl_fails, acl_payload_fails. rewrite decodeAclAllowLists_unfold.
  change (String.length AclAllowListConfKeyPrefix) with 14%nat.
  destruct (Z.ltb_spec (len (Name cfg)) 14); [lia|]. cbv zeta.
  rewrite drop_bytes_len by (change (Z.of_nat 14) with 14; lia).
  change (Z.of_nat 14) with 14.
  replace (len (Name cfg) - 14 =? 0) with (len (Name cfg) =? 14)
    by (destruct (Z.eqb_spec (len (Name cfg)) 14), (Z.eqb_spec (len (Name cfg) - 14) 0);
        try reflexivity; lia).
  destruct (len (Name cfg) =? 14); [reflexivity|].
  destruct (acl_Unmarshal _ _) as [al [e|]]; reflexivity.
Qed.

Lemma strategy_fails_split `{rate_package} (cfg : conf) :
  HasPrefix (Name cfg) RateLimitStrategyConfKeyPrefix = true ->
  strategy_fails cfg
  = String.eqb (Name cfg) RateLimitStrategyConfKeyPrefix || strategy_payload_fails cfg.
Proof.
  intros Hp. rewrite <- (prefix_only _ _ Hp). apply HasPrefix_len in Hp.
  change (len RateLimitStrategyConfKeyPrefix) with 19 in *.
  unfold strategy_fails, strategy_payload_fails. rewrite decodeRateLimitStrategy_unfold.
  change (String.length RateLimitStrategyConfKeyPrefix) with 19%nat.
  destruct (Z.ltb_spec (len (Name cfg)) 19); [lia|]. cbv zeta.
  rewrite drop_bytes_len by (change (Z.of_nat 19) with 19; lia).
  change (Z.of_nat 19) with 19.
  replace (len (Name cfg) - 19 =? 0) with (len (Name cfg) =? 19)
    by (destruct (Z.eqb_spec (len (Name cfg)) 19), (Z.eqb_spec (len (Name cfg) - 19) 0);
        try reflexivity; lia).
  destruct (len (Name cfg) =? 19); [reflexivity|].
  destruct (rate_Unmarshal _ _) as [al [e|]]; reflexivity.
Qed.

Lemma group_fails_split (cfg : conf) :
  HasPrefix (Name cfg) NodeRouteGroupConfKeyPrefix = true ->
  group_fails cfg
  = String.eqb (Name cfg) NodeRouteGroupConfKeyPrefix || group_payload_fails cfg.
Proof.
  intros Hp. rewrite <- (prefix_only _ _ Hp). apply HasPrefix_len in Hp.
  change (len NodeRouteGroupConfKeyPrefix) with 16 in *.
  unfold group_fails, group_payload_fails. rewrite decodeNodeRouteGroup_unfold.
  change (String.length NodeRouteGroupConfKeyPrefix) with 16%nat.
  destruct (Z.ltb_spec (len (Name cfg)) 16); [lia|]. cbv zeta.
  rewrite drop_bytes_len by (change (Z.of_nat 16) with 16; lia).
  change (Z.of_nat 16) with 16.
  replace (len (Name cfg) - 16 =? 0) with (len (Name cfg) =? 16)
    by (destruct (Z.eqb_spec (len (Name cfg)) 16), (Z.eqb_spec (len (Name cfg) - 16) 0);
        try reflexivity; lia).
  destruct (len (Name cfg) =? 16); [reflexivity|].
  destruct (json_Unmarshal _ _) as [al [e|]]; reflexivity.
Qed.

(** * The loops of the bulk loaders *)

Lemma decode_allowlists_count `{acl_package} (cfgs : list conf) :
  forall (m1 : gmap Z acl_AllowList) (m2 : gmap Z (list Z)) (log : list log_entry),
    (forall v, In v cfgs -> 14 <= len (Name v)) ->
    NoDup (map ID cfgs) ->
    (forall v, In v cfgs -> m1 !! ID v = None /\ m2 !! ID v = None) ->
    exists m1' m2' log',
      decode_allowlists cfgs m1 m2 log = Returns (m1', m2', log')
      /\ (size m1' + length (List.filter acl_fails cfgs) = size m1 + length cfgs)%nat
      /\ (size m2' + length (List.filter acl_fails cfgs) = size m2 + length cfgs)%nat
      /\ length log' = (length log + length (List.filter acl_fails cfgs))%nat
      /\ (forall id d, m2' !! id = Some d ->
            m2 !! id = Some d
            \/ exists v, In v cfgs /\ ID v = id /\ d = md5.Sum (Value v)).
Proof.
  induction cfgs as [|v cfgs IH]; intros m1 m2 log Hlen Hnd Hfresh.
  - exists m1, m2, log. cbn. repeat split; try lia. auto.
  - cbn [map] in Hnd. apply NoDup_cons_In in Hnd. destruct Hnd as [Hv Hnd].
    assert (Hr : exists r, decodeAclAllowLists v = Returns r).
    { rewrite decodeAclAllowLists_unfold.
      destruct (Z.ltb_spec (len (Name v)) 14) as [Hlt|_];
        [specialize (Hlen v ltac:(now left)); lia|].
      cbv zeta. destruct (len _ =? 0); [eauto|].
      destruct (acl_Unmarshal _ _) as [al [e|]]; eauto. }
    destruct Hr as [r Hr].
    assert (Hf : acl_fails v = match r with Ok _ => false | Err _ => true end)
      by (unfold acl_fails; now rewrite Hr).
    cbn [decode_allowlists List.filter]. rewrite Hr, Hf. cbn [mbind outcome_bind].
    destruct r as [al|e].
    + destruct (IH (<[ID v := al]> m1) (<[ID v := md5.Sum (Value v)]> m2) log)
        as (m1' & m2' & log' & Hd & H1 & H2 & H3 & H4).
      * intros w Hw. apply Hlen. now right.
      * exact Hnd.
      * intros w Hw. assert (ID v <> ID w).
        { intros E. apply Hv. rewrite E. now apply in_map. }
        rewrite !lookup_insert_ne by assumption. apply Hfresh. now right.
      * destruct (Hfresh v ltac:(now left)) as [F1 F2].
        rewrite map_size_insert_None in H1 by assumption.
        rewrite map_size_insert_None in H2 by assumption.
        exists m1', m2', log'. split; [exact Hd|]. cbn [length].
        split; [lia|]. split; [lia|]. split; [lia|].
        intros id d Hid. destruct (H4 id d Hid) as [Hm|(w & Hw & E1 & E2)].
        -- destruct (decide (ID v = id)) as [E|N].
           ++ subst id. rewrite lookup_insert_eq in Hm. injection Hm as <-.
              right. exists v. split; [now left|auto].
           ++ rewrite lookup_insert_ne in Hm by assumption. now left.
        -- right. exists w. split; [now right|auto].
    + destruct (IH m1 m2 (log ++ [mklog "Invalid access control allowlist config" v e])%list)
        as (m1' & m2' & log' & Hd & H1 & H2 & H3 & H4).
      * intros w Hw. apply Hlen. now right.
      * exact Hnd.
      * intros w Hw. apply Hfresh. now right.
      * exists m1', m2', log'. split; [exact Hd|]. cbn [length].
        rewrite length_app in H3. cbn [length] in H3.
        split; [lia|]. split; [lia|]. split; [lia|].
        intros id d Hid. destruct (H4 id d Hid) as [Hm|(w & Hw & E1 & E2)];
          [now left|]. right. exists w. split; [now right|auto].
Qed.

Lemma decode_strategies_count `{rate_package} (cfgs : list conf) :
  forall (m1 : gmap Z rate_Strategy) (m2 : gmap Z (list Z)) (log : list log_entry),
    (forall v, In v cfgs -> 19 <= len (Name v)) ->
    NoDup (map ID cfgs) ->
    (forall v, In v cfgs -> m1 !! ID v = None /\ m2 !! ID v = None) ->
    exists m1' m2' log',
      decode_strategies cfgs m1 m2 log = Returns (m1', m2', log')
      /\ (size m1' + length (List.filter strategy_fails cfgs) = size m1 + length cfgs)%nat
      /\ (size m2' + length (List.filter strategy_fails cfgs) = size m2 + length cfgs)%nat
      /\ length log' = (length log + length (List.filter strategy_fails cfgs))%nat
      /\ (forall id d, m2' !! id = Some d ->
            m2 !! id = Some d
            \/ exists v, In v cfgs /\ ID v = id /\ d = md5.Sum (Value v)).
Proof.
  induction cfgs as [|v cfgs IH]; intros m1 m2 log Hlen Hnd Hfresh.
  - exists m1, m2, log. cbn. repeat split; try lia. auto.
  - cbn [map] in Hnd. apply NoDup_cons_In in Hnd. destruct Hnd as [Hv Hnd].
    assert (Hr : exists r, decodeRateLimitStrategy v = Returns r).
    { rewrite decodeRateLimitStrategy_unfold.
      destruct (Z.ltb_spec (len (Name v)) 19) as [Hlt|_];
        [specialize (Hlen v ltac:(now left)); lia|].
      cbv zeta. destruct (len _ =? 0); [eauto|].
      destruct (rate_Unmarshal _ _) as [al [e|]]; eauto. }
    destruct Hr as [r Hr].
    assert (Hf : strategy_fails v = match r with Ok _ => false | Err _ => true end)
      by (unfold strategy_fails; now rewrite Hr).
    cbn [decode_strategies List.filter]. rewrite Hr, Hf. cbn [mbind outcome_bind].
    destruct r as [al|e].
    + destruct (IH (<[ID v := al]> m1) (<[ID v := md5.Sum (Value v)]> m2) log)
        as (m1' & m2' & log' & Hd & H1 & H2 & H3 & H4).
      * intros w Hw. apply Hlen. now right.
      * exact Hnd.
      * intros w Hw. assert (ID v <> ID w).
        { intros E. apply Hv. rewrite E. now apply in_map. }
        rewrite !lookup_insert_ne by assumption. apply Hfresh. now right.
      * destruct (Hfresh v ltac:(now left)) as [F1 F2].
        rewrite map_size_insert_None in H1 by assumption.
        rewrite map_size_insert_None in H2 by assumption.
        exists m1', m2', log'. split; [exact Hd|]. cbn [length].
        split; [lia|]. split; [lia|]. split; [lia|].
        intros id d Hid. destruct (H4 id d Hid) as [Hm|(w & Hw & E1 & E2)].
        -- destruct (decide (ID v = id)) as [E|N].
           ++ subst id. rewrite lookup_insert_eq in Hm. injection Hm as <-.
              right. exists v. split; [now left|auto].
           ++ rewrite lookup_insert_ne in Hm by assumption. now left.
        -- right. exists w. split; [now right|auto].
    + destruct (IH m1 m2 (log ++ [mklog "Invalid rate limit strategy config" v e])%list)
        as (m1' & m2' & log' & Hd & H1 & H2 & H3 & H4).
      * intros w Hw. apply Hlen. now right.
      * exact Hnd.
      * intros w Hw. apply Hfresh. now right.
      * exists m1', m2', log'. split; [exact Hd|]. cbn [length].
        rewrite length_app in H3. cbn [length] in H3.
        split; [lia|]. split; [lia|]. split; [lia|].
        intros id d Hid. destruct (H4 id d Hid) as [Hm|(w & Hw & E1 & E2)];
          [now left|]. right. exists w. split; [now right|auto].
Qed.

Lemma json_Unmarshal_frame (data : string) (grp : NodeRouteGroup.t) :
  NodeRouteGroup.ID (fst (json_Unmarshal data grp)) = NodeRouteGroup.ID grp
  /\ NodeRouteGroup.Name (fst (json_Unmarshal data grp)) = NodeRouteGroup.Name grp.
Proof.
  unfold json_Unmarshal. destruct (json.parse data) as [[| | | | |ms]|]; auto.
  destruct (store_members ms _ None). auto.
Qed.

Lemma decodeNodeRouteGroup_name (cfg : conf) (grp : NodeRouteGroup.t) :
  decodeNodeRouteGroup cfg = Returns (Ok grp) ->
  NodeRouteGroup.Name grp = drop_bytes 16 (Name cfg)
  /\ NodeRouteGroup.ID grp = ID cfg.
Proof.
  rewrite decodeNodeRouteGroup_unfold. destruct (_ <? 16); [discriminate|].
  cbv zeta. destruct (_ =? 0); [discriminate|].
  pose proof (json_Unmarshal_frame (Value cfg)
                (NodeRouteGroup.mk (ID cfg) (drop_bytes 16 (Name cfg)) None)) as [Hi Hn].
  destruct (json_Unmarshal _ _) as [g [e|]]; [discriminate|].
  intros [= <-]. cbn [fst NodeRouteGroup.ID NodeRouteGroup.Name] in *. auto.
Qed.

Lemma decode_groups_count (cfgs : list conf) :
  forall (res : gmap string NodeRouteGroup.t) (log : list log_entry),
    (forall v, In v cfgs -> 16 <= len (Name v)) ->
    NoDup (map (fun v => drop_bytes 16 (Name v)) cfgs) ->
    (forall v, In v cfgs -> res !! drop_bytes 16 (Name v) = None) ->
    exists res' log',
      decode_groups cfgs res log = Returns (res', log')
      /\ (size res' + length (List.filter group_fails cfgs) = size res + length cfgs)%nat
      /\ length log' = (length log + length (List.filter group_fails cfgs))%nat.
Proof.
  induction cfgs as [|v cfgs IH]; intros res log Hlen Hnd Hfresh.
  - exists res, log. cbn. repeat split; lia.
  - cbn [map] in Hnd. apply NoDup_cons_In in Hnd. destruct Hnd as [Hv Hnd].
    assert (Hr : exists r, decodeNodeRouteGroup v = Returns r).
    { rewrite decodeNodeRouteGroup_unfold.
      destruct (Z.ltb_spec (len (Name v)) 16) as [Hlt|_];
        [specialize (Hlen v ltac:(now left)); lia|].
      cbv zeta. destruct (len _ =? 0); [eauto|].
      destruct (json_Unmarshal _ _) as [al [e|]]; eauto. }
    destruct Hr as [r Hr].
    assert (Hf : group_fails v = match r with Ok _ => false | Err _ => true end)
      by (unfold group_fails; now rewrite Hr).
    cbn [decode_groups List.filter]. rewrite Hr, Hf. cbn [mbind outcome_bind].
    destruct r as [grp|e].
    + destruct (decodeNodeRouteGroup_name _ _ Hr) as [Hname _]. rewrite Hname.
      destruct (IH (<[drop_bytes 16 (Name v) := grp]> res) log)
        as (res' & log' & Hd & H1 & H3).
      * intros w Hw. apply Hlen. now right.
      * exact Hnd.
      * intros w Hw. assert (drop_bytes 16 (Name v) <> drop_bytes 16 (Name w)).
        { intros E. apply Hv. rewrite E.
          now apply (in_map (fun v => drop_bytes 16 (Name v))). }
        rewrite lookup_insert_ne by assumption. apply Hfresh. now right.
      * pose proof (Hfresh v ltac:(now left)) as F1.
        rewrite map_size_insert_None in H1 by assumption.
        exists res', log'. split; [exact Hd|]. cbn [length]. split; lia.
    + destruct (IH res (log ++ [mklog "Invalid node route config" v e])%list)
        as (res' & log' & Hd & H1 & H3).
      * intros w Hw. apply Hlen. now right.
      * exact Hnd.
      * intros w Hw. apply Hfresh. now right.
      * exists res', log'. split; [exact Hd|]. cbn [length].
        rewrite length_app in H3. cbn [length] in H3. split; lia.
Qed.

(** Rows that carry a prefix have different tails when they have
    different names. *)
Lemma NoDup_tails (p : string) (cfgs : list conf) :
  (forall v, In v cfgs -> HasPrefix (Name v) p = true) ->
  NoDup (map Name cfgs) ->
  NoDup (map (fun v => drop_bytes (String.length p) (Name v)) cfgs).
Proof.
  intros Hp. apply NoDup_map_via. intros x y Hx Hy E.
  rewrite (HasPrefix_split _ _ (Hp x Hx)), (HasPrefix_split _ _ (Hp y Hy)).
  now rewrite E.
Qed.

(** * The rows a bulk load reads carry the prefix of its domain *)

Lemma name_like_prefix (p : string) (v : conf) :
  no_wildcard p = true -> name_like (p ++ "%") v = true -> HasPrefix (Name v) p = true.
Proof. intros Hp. unfold name_like. now rewrite like_prefix. Qed.

Lemma group_rows_prefix (inclusiveGroups : list string) (db : DB) (v : conf) :
  In v (group_rows inclusiveGroups db) ->
  HasPrefix (Name v) NodeRouteGroupConfKeyPrefix = true.
Proof.
  unfold group_rows. destruct inclusiveGroups as [|g gs].
  - intros Hin. apply filter_In in Hin. destruct Hin as [_ Hl].
    now apply name_like_prefix in Hl.
  - intros Hin. apply filter_In in Hin. destruct Hin as [_ Hl].
    unfold name_in in Hl. apply existsb_exists in Hl. destruct Hl as (k & Hk & E).
    apply String.eqb_eq in E. apply in_map_iff in Hk. destruct Hk as (grp & <- & _).
    rewrite E. apply HasPrefix_app.
Qed.

Lemma group_rows_Find (inclusiveGroups : list string) (db : DB) :
  conn db = None ->
  (if len_list (map (fun grp => NodeRouteGroupConfKeyPrefix ++ grp) inclusiveGroups) =? 0
   then Find (name_like nodeRouteGroupSqlMatchPattern) db
   else Find (name_in (map (fun grp => NodeRouteGroupConfKeyPrefix ++ grp)
                           inclusiveGroups)) db)
  = (group_rows inclusiveGroups db, None).
Proof.
  intros Hc. unfold Find, group_rows. rewrite Hc.
  destruct inclusiveGroups as [|g gs]; [reflexivity|].
  unfold len_list. cbn [map length].
  destruct (Z.eqb_spec (Z.of_nat (S (length (map (fun grp => NodeRouteGroupConfKeyPrefix ++ grp) gs)))) 0);
    [lia|reflexivity].
Qed.

Lemma load_allowlists_count `{acl_package} (db : DB) :
  conn db = None -> db_wf db ->
  exists allowLists checksums log,
    LoadAclAllowListConfigs db = Returns (allowLists, checksums, None, log)
    /\ map_len allowLists
       = (length (acl_rows db) - length (List.filter acl_fails (acl_rows db)))%nat
    /\ map_len checksums
       = (length (acl_rows db) - length (List.filter acl_fails (acl_rows db)))%nat
    /\ length log = length (List.filter acl_fails (acl_rows db))
    /\ (forall id d, default ∅ checksums !! id = Some d ->
          exists v, In v (acl_rows db) /\ ID v = id /\ d = md5.Sum (Value v)).
Proof.
  intros Hc (Hid & Hname & _). unfold LoadAclAllowListConfigs, Find. rewrite Hc.
  fold (acl_rows db).
  assert (Hlen : forall v, In v (acl_rows db) -> 14 <= len (Name v)).
  { intros v Hv. apply filter_In in Hv. destruct Hv as [_ Hl].
    apply name_like_prefix in Hl; [|reflexivity]. now apply HasPrefix_len in Hl. }
  assert (Hnd : NoDup (map ID (acl_rows db))) by now apply NoDup_map_filter.
  destruct (acl_rows db) as [|v cfgs] eqn:E.
  { exists None, None, []. cbn. repeat split. intros id d Hd.
    now rewrite lookup_empty in Hd. }
  destruct (decode_allowlists_count (v :: cfgs) ∅ ∅ [] Hlen Hnd)
    as (m1 & m2 & log & Hd & H1 & H2 & H3 & H4).
  { intros w _. now rewrite !lookup_empty. }
  rewrite Hd. cbn [mbind outcome_bind mret outcome_ret].
  exists (Some m1), (Some m2), log. split; [reflexivity|].
  rewrite map_size_empty in H1. rewrite map_size_empty in H2.
  cbn [map_len length] in *.
  split; [lia|]. split; [lia|]. split; [lia|].
  intros k d Hl. cbn [from_option id] in Hl. destruct (H4 k d Hl) as [Hm|Hm]; [|exact Hm].
  now rewrite lookup_empty in Hm.
Qed.

Lemma load_strategies_count `{rate_package} (db : DB) :
  conn db = None -> db_wf db ->
  exists strategies checksums log,
    LoadRateLimitStrategyConfigs db = Returns (strategies, checksums, None, log)
    /\ map_len strategies
       = (length (strategy_rows db)
          - length (List.filter strategy_fails (strategy_rows db)))%nat
    /\ map_len checksums
       = (length (strategy_rows db)
          - length (List.filter strategy_fails (strategy_rows db)))%nat
    /\ length log = length (List.filter strategy_fails (strategy_rows db))
    /\ (forall id d, default ∅ checksums !! id = Some d ->
          exists v, In v (strategy_rows db) /\ ID v = id /\ d = md5.Sum (Value v)).
Proof.
  intros Hc (Hid & Hname & _). unfold LoadRateLimitStrategyConfigs, Find. rewrite Hc.
  fold (strategy_rows db).
  assert (Hlen : forall v, In v (strategy_rows db) -> 19 <= len (Name v)).
  { intros v Hv. apply filter_In in Hv. destruct Hv as [_ Hl].
    apply name_like_prefix in Hl; [|reflexivity]. now apply HasPrefix_len in Hl. }
  assert (Hnd : NoDup (map ID (strategy_rows db))) by now apply NoDup_map_filter.
  destruct (strategy_rows db) as [|v cfgs] eqn:E.
  { exists None, None, []. cbn. repeat split. intros id d Hd.
    now rewrite lookup_empty in Hd. }
  destruct (decode_strategies_count (v :: cfgs) ∅ ∅ [] Hlen Hnd)
    as (m1 & m2 & log & Hd & H1 & H2 & H3 & H4).
  { intros w _. now rewrite !lookup_empty. }
  rewrite Hd. cbn [mbind outcome_bind mret outcome_ret].
  exists (Some m1), (Some m2), log. split; [reflexivity|].
  rewrite map_size_empty in H1. rewrite map_size_empty in H2.
  cbn [map_len length] in *.
  split; [lia|]. split; [lia|]. split; [lia|].
  intros k d Hl. cbn [from_option id] in Hl. destruct (H4 k d Hl) as [Hm|Hm]; [|exact Hm].
  now rewrite lookup_empty in Hm.
Qed.

Lemma load_groups_count (inclusiveGroups : list string) (db : DB) :
  conn db = None -> db_wf db ->
  exists res log,
    LoadNodeRouteGroups inclusiveGroups db = Returns (res, None, log)
    /\ map_len res
       = (length (group_rows inclusiveGroups db)
          - length (List.filter group_fails (group_rows inclusiveGroups db)))%nat
    /\ length log = length (List.filter group_fails (group_rows inclusiveGroups db)).
Proof.
  intros Hc (Hid & Hname & _). unfold LoadNodeRouteGroups.
  rewrite group_rows_Find by exact Hc.
  pose proof (group_rows_prefix inclusiveGroups db) as Hp.
  assert (Hlen : forall v, In v (group_rows inclusiveGroups db) -> 16 <= len (Name v)).
  { intros v Hv. apply Hp in Hv. now apply HasPrefix_len in Hv. }
  assert (Hnd : NoDup (map (fun v => drop_bytes 16 (Name v))
                           (group_rows inclusiveGroups db))).
  { apply (NoDup_tails NodeRouteGroupConfKeyPrefix); [exact Hp|].
    unfold group_rows. destruct inclusiveGroups; now apply NoDup_map_filter. }
  destruct (group_rows inclusiveGroups db) as [|v cfgs] eqn:E.
  { exists None, []. cbn. repeat split. }
  destruct (decode_groups_count (v :: cfgs) ∅ [] Hlen Hnd)
    as (m1 & log & Hd & H1 & H3).
  { intros w _. now rewrite lookup_empty. }
  rewrite Hd. cbn [mbind outcome_bind mret outcome_ret].
  exists (Some m1), log. split; [reflexivity|].
  rewrite map_size_empty in H1. cbn [map_len length] in *.
  split; lia.
Qed.

(** * Storing and loading a node route group *)

Lemma StoreConfig_ok (now : Time) (name v : string) (db db' : DB) :
  StoreConfig now name (AnyString v) db = Returns (db', None) ->
  conn db = None /\ len name <= nameSize /\ len v <= valueSize.
Proof.
  unfold StoreConfig, Create. cbn [assert_string mbind outcome_bind mret outcome_ret].
  destruct (conn db); [discriminate|]. unfold fits_schema. cbn [Name Value].
  destruct (Z.leb_spec (len name) nameSize); [|discriminate].
  destruct (Z.leb_spec (len v) valueSize); [|discriminate]. auto.
Qed.

Lemma StoreConfig_stored (now : Time) (name v : string) (db db' : DB) :
  StoreConfig now name (AnyString v) db = Returns (db', None) ->
  conn db' = None
  /\ existsb (name_is name) (rows db') = true
  /\ forall r, In r (rows db') -> Name r = name -> Value r = v.
Proof.
  intros Hs. destruct (StoreConfig_ok _ _ _ _ _ Hs) as (Hc & Hn & Hv).
  rewrite StoreConfig_string in Hs by assumption.
  destruct (existsb (name_is name) (rows db)) eqn:He.
  - injection Hs as <-. cbn [conn rows with_rows]. split; [exact Hc|]. split.
    + rewrite existsb_map_names; [exact He|].
      intros r. destruct (name_is name r); [apply set_value_fields|reflexivity].
    + intros r' Hin Hn'. apply in_map_iff in Hin. destruct Hin as (r & <- & Hin).
      destruct (name_is name r) eqn:Hr.
      * apply set_value_fields.
      * apply name_is_false in Hr. contradiction.
  - destruct (maxUint32 <? auto_increment db); [discriminate|].
    injection Hs as <-. cbn [conn rows]. split; [reflexivity|]. split.
    + rewrite existsb_app. cbn [existsb]. apply orb_true_iff. right.
      unfold name_is. cbn [Name]. now rewrite String.eqb_refl.
    + intros r Hin Hr. apply in_app_iff in Hin. destruct Hin as [Hin|[<-|[]]].
      * assert (existsb (name_is name) (rows db) = true)
          by (apply existsb_name_is; eauto). congruence.
      * reflexivity.
Qed.

Lemma json_Unmarshal_Marshal (g grp : NodeRouteGroup.t) :
  json_Unmarshal (fst (json_Marshal g)) grp
  = (NodeRouteGroup.mk (NodeRouteGroup.ID grp) (NodeRouteGroup.Name grp)
       (coerce_nodes (NodeRouteGroup.Nodes g)), None).
Proof.
  unfold json_Unmarshal, json_Marshal. cbn [fst].
  rewrite parse_nodes_object.
  cbn [store_members]. change (json.field_matches "nodes" "nodes") with true.
  cbv iota. now rewrite store_nodes_value.
Qed.

Lemma decodeNodeRouteGroup_stored (g : NodeRouteGroup.t) (r : conf) :
  NodeRouteGroup.Name g <> EmptyString ->
  Name r = NodeRouteGroupConfKeyPrefix ++ NodeRouteGroup.Name g ->
  Value r = fst (json_Marshal g) ->
  decodeNodeRouteGroup r
  = Returns (Ok (NodeRouteGroup.mk (ID r) (NodeRouteGroup.Name g)
                                   (coerce_nodes (NodeRouteGroup.Nodes g)))).
Proof.
  intros Hne Hn Hval. rewrite decodeNodeRouteGroup_unfold. rewrite Hn, Hval.
  rewrite len_app. change (len NodeRouteGroupConfKeyPrefix) with 16.
  pose proof (len_nonneg (NodeRouteGroup.Name g)).
  destruct (Z.ltb_spec (16 + len (NodeRouteGroup.Name g)) 16); [lia|].
  cbv zeta.
  change 16%nat with (String.length NodeRouteGroupConfKeyPrefix).
  rewrite drop_bytes_app.
  destruct (Z.eqb_spec (len (NodeRouteGroup.Name g)) 0) as [E|_].
  { destruct (NodeRouteGroup.Name g); [congruence|]. rewrite len_String in E.
    pose proof (len_nonneg s). lia. }
  now rewrite json_Unmarshal_Marshal.
Qed.

Lemma decode_groups_same (name : string) (nodes : option (list string))
    (cfgs : list conf) :
  forall (r0 : conf) (res : gmap string NodeRouteGroup.t) (log : list log_entry),
    (forall r, In r (r0 :: cfgs) ->
               decodeNodeRouteGroup r = Returns (Ok (NodeRouteGroup.mk (ID r) name nodes))) ->
    decode_groups (r0 :: cfgs) res log
    = Returns (<[name := NodeRouteGroup.mk (ID (List.last cfgs r0)) name nodes]> res, log).
Proof.
  induction cfgs as [|r1 cfgs IH]; intros r0 res log Hd.
  - cbn [decode_groups]. rewrite (Hd r0) by now left. reflexivity.
  - cbn [decode_groups]. rewrite (Hd r0) by now left.
    cbn [mbind outcome_bind NodeRouteGroup.Name].
    change (decode_groups (r1 :: cfgs)
              (<[name := NodeRouteGroup.mk (ID r0) name nodes]> res) log
            = Returns (<[name := NodeRouteGroup.mk (ID (List.last (r1 :: cfgs) r0)) name nodes]> res, log)).
    rewrite IH by (intros r Hr; apply Hd; now right).
    rewrite insert_insert_eq. do 4 f_equal.
    clear. revert r0 r1. induction cfgs as [|x cfgs IHc]; intros; [reflexivity|].
    cbn [List.last] in *. destruct cfgs; [reflexivity|]. apply IHc.
Qed.

Lemma last_In {A} (l : list A) (x d : A) : In (List.last (x :: l) d) (x :: l).
Proof.
  revert x. induction l as [|y l IH]; intros x; [now left|].
  right. apply (IH y).
Qed.

(** * The constraints of the table are kept *)

Lemma fresh_db_wf : db_wf fresh_db.
Proof. repeat split; try constructor. Qed.

Lemma map_ext_fields {B} (f : conf -> B) (g : conf -> conf) (l : list conf) :
  (forall r, f (g r) = f r) -> map f (map g l) = map f l.
Proof. intros H. rewrite map_map. apply map_ext. exact H. Qed.

Lemma StoreConfig_failed (now : Time) (name v : string) (db : DB) :
  conn db <> None \/ nameSize < len name \/ valueSize < len v ->
  exists e, StoreConfig now name (AnyString v) db = Returns (db, Some e).
Proof.
  intros H. unfold StoreConfig, Create.
  cbn [assert_string mbind outcome_bind mret outcome_ret].
  destruct (conn db); [eauto|]. unfold fits_schema. cbn [Name Value].
  destruct (Z.leb_spec (len name) nameSize); [|eauto].
  destruct (Z.leb_spec (len v) valueSize); [|eauto].
  destruct H as [H|[H|H]]; [congruence|lia|lia].
Qed.

Lemma StoreConfig_keeps_wf (now : Time) (name : string) (confVal : any)
    (db db' : DB) (err : option error) :
  db_wf db -> StoreConfig now name confVal db = Returns (db', err) -> db_wf db'.
Proof.
  intros Hwf Hs. destruct confVal as [|v| | |]; try discriminate.
  destruct (conn db) as [e|] eqn:Hc.
  { destruct (StoreConfig_failed now name v db) as [e' He'];
      [left; congruence|]. rewrite He' in Hs. now injection Hs as <- _. }
  destruct (Z.leb_spec (len name) nameSize) as [Hn|Hn].
  2:{ destruct (StoreConfig_failed now name v db) as [e' He']; [auto|].
      rewrite He' in Hs. now injection Hs as <- _. }
  destruct (Z.leb_spec (len v) valueSize) as [Hv|Hv].
  2:{ destruct (StoreConfig_failed now name v db) as [e' He']; [auto|].
      rewrite He' in Hs. now injection Hs as <- _. }
  rewrite StoreConfig_string in Hs by assumption.
  destruct Hwf as (Hid & Hnm & Hlt & Hpos).
  destruct (existsb (name_is name) (rows db)) eqn:He.
  - injection Hs as <- _. unfold db_wf. cbn [rows with_rows auto_increment].
    assert (Hf : forall r, ID (if name_is name r then set_value db now v r else r) = ID r
                           /\ Name (if name_is name r then set_value db now v r else r) = Name r).
    { intros r. destruct (name_is name r); [|auto]. split; apply set_value_fields. }
    rewrite (map_ext_fields ID) by apply Hf. rewrite (map_ext_fields Name) by apply Hf.
    split; [exact Hid|]. split; [exact Hnm|]. split; [|exact Hpos].
    rewrite Forall_forall in *. intros r' Hin. apply list_elem_of_In in Hin.
    apply in_map_iff in Hin. destruct Hin as (r & <- & Hin).
    destruct (Hf r) as [-> _]. apply Hlt. now apply list_elem_of_In.
  - destruct (Z.ltb_spec maxUint32 (auto_increment db));
      [injection Hs as <- _; repeat split; assumption|].
    injection Hs as <- _. unfold db_wf. cbn [rows auto_increment].
    rewrite !map_app. cbn [map ID Name].
    rewrite Forall_forall in Hlt.
    split; [|split; [|split]].
    + apply NoDup_app. split; [exact Hid|]. split; [|apply NoDup_singleton].
      intros x Hx Hx'. apply list_elem_of_In in Hx. apply in_map_iff in Hx.
      destruct Hx as (r & <- & Hr). apply list_elem_of_In in Hr.
      apply list_elem_of_singleton in Hx'. specialize (Hlt r Hr). lia.
    + apply NoDup_app. split; [exact Hnm|]. split; [|apply NoDup_singleton].
      intros x Hx Hx'. apply list_elem_of_In in Hx. apply in_map_iff in Hx.
      destruct Hx as (r & <- & Hr).
      apply list_elem_of_singleton in Hx'.
      assert (existsb (name_is name) (rows db) = true)
        by (apply existsb_name_is; eauto). congruence.
    + apply Forall_app. split.
      * apply Forall_forall. intros r Hr. specialize (Hlt r Hr). lia.
      * constructor; [|constructor]. cbn [ID]. lia.
    + lia.
Qed.

Lemma DeleteConfig_keeps_wf (confName : string) (db : DB) :
  db_wf db -> db_wf (fst (DeleteConfig confName db)).
Proof.
  intros (Hid & Hnm & Hlt & Hpos). unfold DeleteConfig, Delete.
  destruct (conn db); cbn [fst]; [repeat split; assumption|].
  unfold db_wf. cbn [rows with_rows auto_increment].
  split; [now apply NoDup_map_filter|]. split; [now apply NoDup_map_filter|].
  split; [|exact Hpos].
  rewrite Forall_forall in *. intros r Hr. apply list_elem_of_In in Hr.
  apply filter_In in Hr. apply Hlt. apply list_elem_of_In. tauto.
Qed.

End gorm_facts.

(** * More facts about the store *)

Section reorg_facts.
Import strconv mysql props.

(** A run of digits read after [n] stays below [(n + 1) * 10 ^ len]. *)
Lemma dval_bound (s : string) (n v : Z) :
  0 <= n -> dval s n = Some v -> v < (n + 1) * 10 ^ len s.
Proof.
  revert n. induction s as [|c s IH]; intros n Hn; cbn [dval].
  - intros [= <-]. change (len EmptyString) with 0. lia.
  - destruct (is_digit c) eqn:Hc; [|discriminate]. intros Hd.
    apply is_digit_val in Hc. apply IH in Hd; [|lia].
    rewrite len_String. pose proof (len_nonneg s).
    rewrite Z.pow_add_r by lia. change (10 ^ 1) with 10.
    assert (0 < 10 ^ len s) by (apply Z.pow_pos_nonneg; lia). nia.
Qed.

(** The digit loop of [ParseUint] on a number above 64 bits. *)
Lemma parseUint_loop_overflow (s0 s : string) (n v : Z) :
  0 <= n <= maxUint64 -> dval s n = Some v -> maxUint64 < v ->
  parseUint_loop s0 s n = (maxUint64, Some (rangeError "ParseUint" s0)).
Proof.
  revert n. induction s as [|c s IH]; intros n Hn; cbn [dval parseUint_loop].
  - intros [= <-]. lia.
  - destruct (is_digit c) eqn:Hc; [|discriminate]. intros Hd Hv. cbv zeta.
    destruct (Z.leb_spec (maxUint64 / 10 + 1) n); [reflexivity|].
    destruct (Z.ltb_spec maxUint64 (n * 10 + (byte_val c - 48))); [reflexivity|].
    apply is_digit_val in Hc. apply IH; [lia|assumption..].
Qed.

(** [Atoi] on an unsigned run of digits: its value when it is within
    [int], the largest [int] and a range error otherwise. *)
Lemma Atoi_digits (s : string) (v : Z) :
  s <> EmptyString -> dval s 0 = Some v ->
  Atoi s = if v <=? maxInt then (v, None)
           else (maxInt, Some (NumError "Atoi" s ErrRange)).
Proof.
  intros Hs Hd. destruct s as [|c s]; [contradiction|].
  assert (Hc : is_digit c = true).
  { cbn [dval] in Hd. destruct (is_digit c); [reflexivity|discriminate]. }
  destruct (digit_not_sign c Hc) as [Hp Hm].
  pose proof (dval_bound _ 0 v (Z.le_refl 0) Hd) as Hb.
  pose proof (dval_ge _ 0 v (Z.le_refl 0) Hd) as Hge.
  unfold Atoi. rewrite Hm, Hp. cbn [orb andb].
  destruct (Z.ltb_spec 0 (len (String c s))) as [H0|H0];
    [|rewrite len_String in H0; pose proof (len_nonneg s); lia].
  destruct (Z.ltb_spec (len (String c s)) 19) as [H19|H19]; cbn [andb].
  - rewrite atoi_fast_loop_dval, Hd.
    assert (v < 10 ^ 18).
    { eapply Z.lt_le_trans; [exact Hb|]. rewrite Z.mul_1_l.
      apply Z.pow_le_mono_r; lia. }
    destruct (Z.leb_spec v maxInt) as [|Hgt]; [reflexivity|].
    unfold maxInt, intSize in Hgt. change (2 ^ (64 - 1)) with 9223372036854775808 in Hgt.
    change (10 ^ 18) with 1000000000000000000 in *. lia.
  - unfold ParseInt. rewrite Hp, Hm. unfold ParseUint.
    destruct (Z.leb_spec v maxUint64) as [Hle|Hgt].
    + rewrite (parseUint_loop_dval _ _ 0 v (Z.le_refl 0) Hd Hle).
      unfold maxInt, intSize. change (2 ^ (64 - 1)) with 9223372036854775808.
      cbn [negb andb].
      destruct (Z.leb_spec 9223372036854775808 v), (Z.leb_spec v (9223372036854775808 - 1));
        try lia; reflexivity.
    + assert (H0m : 0 <= 0 <= maxUint64) by (unfold maxUint64; lia).
      rewrite (parseUint_loop_overflow _ _ 0 v H0m Hd Hgt).
      unfold rangeError at 1. cbn iota.
      unfold maxInt, intSize. change (2 ^ (64 - 1)) with 9223372036854775808.
      cbn [negb andb].
      unfold maxUint64 in *. change (2 ^ 64 - 1) with 18446744073709551615 in *.
      change (9223372036854775808 <=? 18446744073709551615) with true. cbn iota.
      destruct (Z.leb_spec v (9223372036854775808 - 1)); [lia|reflexivity].
Qed.

(** A bump from any version in a store that holds one. *)
Lemma bump_holds (now : Time) (k : Z) (db : DB) :
  holds_version k db -> minInt <= k <= maxInt ->
  exists db', createOrUpdateReorgVersion now db = Returns (db', None)
              /\ holds_version (int_add k 1) db'.
Proof.
  intros Hh Hk. pose proof Hh as (Hc & He & Hv).
  unfold createOrUpdateReorgVersion.
  rewrite (GetReorgVersion_holds k db Hh) by lia.
  destruct (version_text_fits (int_add k 1)) as [Hn Hl].
  rewrite StoreConfig_string by assumption. rewrite He.
  eexists. split; [reflexivity|].
  split; [exact Hc|]. split.
  - cbn [rows with_rows]. rewrite existsb_map_names; [exact He|].
    intros r. destruct (name_is _ r); [apply set_value_fields|reflexivity].
  - cbn [rows with_rows]. intros r' Hin Hn'.
    apply in_map_iff in Hin. destruct Hin as (r & <- & Hin).
    destruct (name_is MysqlConfKeyReorgVersion r) eqn:Hr.
    + apply set_value_fields.
    + apply name_is_false in Hr. contradiction.
Qed.

Lemma wrap_int_range (z : Z) : minInt <= wrap_int z <= maxInt.
Proof.
  unfold wrap_int, minInt, maxInt, intSize.
  change (2 ^ (64 - 1)) with 9223372036854775808.
  change (2 ^ 64) with 18446744073709551616.
  pose proof (Z.mod_pos_bound (z + 9223372036854775808) 18446744073709551616 ltac:(lia)).
  lia.
Qed.

(** An error of [Create] leaves the table as it is. *)
Lemma Create_failed (now : Time) (oc : option OnConflict) (c : conf) (db db' : DB)
    (e : error) :
  Create now oc c db = (db', Some e) ->
  db' = db /\ (conn db = None -> exists msg, e = ErrDriver msg).
Proof.
  unfold Create. destruct (conn db) as [e0|].
  - intros [= <- <-]. split; [reflexivity|discriminate].
  - destruct (negb (fits_schema c)); [intros [= <- <-]; eauto|].
    destruct (existsb _ _).
    + destruct oc as [oc|]; [|intros [= <- <-]; eauto].
      destruct (update_where _ _ _) as [rs|e1] eqn:Hu; [discriminate|].
      intros [= <- <-]. split; [reflexivity|]. intros _.
      revert e1 Hu. generalize (rows db) as rs.
      induction rs as [|r rs IH]; intros e1; cbn [update_where]; [discriminate|].
      destruct (name_is (Name c) r).
      * unfold on_duplicate_key at 1.
        destruct (assign_all r (DoUpdates oc)) as [r'|].
        -- destruct (fits_schema r').
           ++ destruct (update_where _ _ rs) as [rs'|e2] eqn:Hu; [discriminate|].
              intros [= <-]. eapply IH. reflexivity.
           ++ intros [= <-]. eauto.
        -- intros [= <-]. eauto.
      * destruct (update_where _ _ rs) as [rs'|e2] eqn:Hu; [discriminate|].
        intros [= <-]. eapply IH. reflexivity.
    + destruct (maxUint32 <? auto_increment db); [intros [= <- <-]; eauto|discriminate].
Qed.

End reorg_facts.

Section table_facts.
Import mysql props.

Lemma option_ext {A} (o1 o2 : option A) :
  (forall x, o1 = Some x <-> o2 = Some x) -> o1 = o2.
Proof.
  intros H. destruct o1 as [a|], o2 as [b|]; try reflexivity.
  - now apply H.
  - symmetry. now apply (H a).
  - now apply (H b).
Qed.

(** The map [LoadConfig] builds from rows with distinct names. *)
Lemma fold_insert_spec (confs : list conf) :
  forall (m : gmap string any) (n : string) (val : any),
    NoDup (map Name confs) ->
    (forall c, In c confs -> m !! Name c = None) ->
    fold_left (fun res c => <[Name c := AnyString (Value c)]> res) confs m !! n = Some val
    <-> m !! n = Some val
        \/ exists c, In c confs /\ Name c = n /\ val = AnyString (Value c).
Proof.
  induction confs as [|c cs IH]; intros m n val Hnd Hm; cbn [fold_left].
  - split; [auto|]. intros [H|(c & [] & _)]. exact H.
  - cbn [map] in Hnd. apply NoDup_cons_In in Hnd. destruct Hnd as [Hc Hnd].
    rewrite IH; [|exact Hnd|].
    + rewrite lookup_insert_Some. split.
      * intros [[[<- <-]|[Hne Hl]]|(c' & Hin & Hn & Hv)].
        -- right. exists c. cbn [In]. auto.
        -- left. exact Hl.
        -- right. exists c'. cbn [In]. auto.
      * intros [Hl|(c' & [<-|Hin] & Hn & Hv)].
        -- left. right. split; [|exact Hl]. intros <-.
           rewrite (Hm c) in Hl by (cbn [In]; auto). discriminate.
        -- left. left. auto.
        -- right. exists c'. auto.
    + intros c' Hin. rewrite lookup_insert_ne.
      * apply Hm. cbn [In]. auto.
      * intros E. apply Hc. rewrite E. now apply in_map.
Qed.

Lemma name_in_spec (names : list string) (c : conf) :
  name_in names c = true <-> In (Name c) names.
Proof.
  unfold name_in. rewrite existsb_exists. split.
  - intros (n & Hin & E). apply String.eqb_eq in E. now rewrite E.
  - intros Hin. exists (Name c). split; [exact Hin|apply String.eqb_refl].
Qed.

Lemma LoadConfig_spec (confNames : list string) (db : DB) :
  conn db = None -> NoDup (map Name (rows db)) ->
  exists m,
    LoadConfig confNames db = (Some m, None)
    /\ forall n val,
         m !! n = Some val
         <-> In n confNames
             /\ exists r, In r (rows db) /\ Name r = n /\ val = AnyString (Value r).
Proof.
  intros Hc Hnd. unfold LoadConfig, Find. rewrite Hc. eexists. split; [reflexivity|].
  intros n val. rewrite fold_insert_spec.
  - rewrite lookup_empty. split.
    + intros [H|(c & Hin & Hn & Hv)]; [discriminate|].
      apply filter_In in Hin. destruct Hin as [Hin Hf].
      apply name_in_spec in Hf. rewrite Hn in Hf. eauto.
    + intros (Hin & r & Hr & Hn & Hv). right. exists r. split; [|auto].
      apply filter_In. split; [exact Hr|]. apply name_in_spec. now rewrite Hn.
  - now apply NoDup_map_filter.
  - intros c _. apply lookup_empty.
Qed.

(** What a successful [StoreConfig] leaves of the other rows. *)
Lemma StoreConfig_frame (now : Time) (name v : string) (db db' : DB) (r : conf) :
  StoreConfig now name (AnyString v) db = Returns (db', None) ->
  Name r <> name -> (In r (rows db') <-> In r (rows db)).
Proof.
  intros Hs Hne. destruct (StoreConfig_ok _ _ _ _ _ Hs) as (Hc & Hn & Hv).
  rewrite StoreConfig_string in Hs by assumption.
  destruct (existsb (name_is name) (rows db)).
  - injection Hs as <-. cbn [rows with_rows]. rewrite in_map_iff. split.
    + intros (r0 & E & Hin). destruct (name_is name r0) eqn:Hr0.
      * subst r. destruct (set_value_fields db now v r0) as (_ & Hnm & _).
        apply name_is_true in Hr0. congruence.
      * now subst r.
    + intros Hin. exists r. split; [|exact Hin].
      apply name_is_false in Hne. now rewrite Hne.
  - destruct (maxUint32 <? auto_increment db); [discriminate|].
    injection Hs as <-. cbn [rows]. rewrite in_app_iff. cbn [In]. split.
    + intros [H|[<-|[]]]; [exact H|]. now contradiction Hne.
    + auto.
Qed.

Lemma DeleteConfig_rows (confName : string) (db : DB) :
  conn db = None ->
  DeleteConfig confName db
  = (with_rows db (List.filter (fun c => negb (name_is confName c)) (rows db)),
     (existsb (name_is confName) (rows db), None)).
Proof.
  intros Hc. unfold DeleteConfig, Delete. rewrite Hc. f_equal. f_equal.
  destruct (existsb (name_is confName) (rows db)) eqn:He.
  - destruct (List.filter (name_is confName) (rows db)) eqn:Hf.
    + apply existsb_false_filter in Hf. congruence.
    + apply Z.ltb_lt. cbn [length]. lia.
  - apply existsb_false_filter in He. now rewrite He.
Qed.

Lemma set_value_same (db : DB) (now : Time) (r : conf) :
  refresh_updated_at db = false -> set_value db now (Value r) r = r.
Proof. intros H. unfold set_value, touch. rewrite H. now destruct r. Qed.

Lemma bump_keeps_wf (now : Time) (db db' : DB) (err : option error) :
  db_wf db -> createOrUpdateReorgVersion now db = Returns (db', err) -> db_wf db'.
Proof.
  intros Hwf. unfold createOrUpdateReorgVersion.
  destruct (GetReorgVersion db) as [k [e|]].
  - intros [= <- _]. exact Hwf.
  - now apply StoreConfig_keeps_wf.
Qed.

Lemma StoreNodeRouteGroup_keeps_wf (now : Time) (g : NodeRouteGroup.t)
    (db db' : DB) (err : option error) :
  db_wf db -> StoreNodeRouteGroup now g db = Returns (db', err) -> db_wf db'.
Proof. intros Hwf. unfold StoreNodeRouteGroup, json_Marshal. now apply StoreConfig_keeps_wf. Qed.

Lemma DelNodeRouteGroup_keeps_wf (group : string) (db : DB) :
  db_wf db -> db_wf (fst (DelNodeRouteGroup group db)).
Proof.
  intros Hwf. unfold DelNodeRouteGroup.
  pose proof (DeleteConfig_keeps_wf (NodeRouteGroupConfKeyPrefix ++ group) db Hwf) as H.
  destruct (DeleteConfig _ db) as [db' [b e]]. exact H.
Qed.

End table_facts.

Section loader_facts.
Import mysql props.

(** What the loop of [LoadAclAllowListConfigs] returns for rows with
    distinct keys. *)
Lemma decode_allowlists_spec `{acl_package} (cfgs : list conf) :
  forall (m1 : gmap Z acl_AllowList) (m2 : gmap Z (list Z)) (log : list log_entry),
    (forall v, In v cfgs -> 14 <= len (Name v)) ->
    NoDup (map ID cfgs) ->
    (forall v, In v cfgs -> m1 !! ID v = None /\ m2 !! ID v = None) ->
    exists m1' m2' log',
      decode_allowlists cfgs m1 m2 log = Returns (m1', m2', log')
      /\ (forall id al,
            m1' !! id = Some al
            <-> m1 !! id = Some al
                \/ exists v, In v cfgs /\ ID v = id
                             /\ decodeAclAllowLists v = Returns (Ok al))
      /\ (forall id d,
            m2' !! id = Some d
            <-> m2 !! id = Some d
                \/ exists v, In v cfgs /\ ID v = id /\ acl_fails v = false
                             /\ d = md5.Sum (Value v))
      /\ map log_cfg log' = (map log_cfg log ++ List.filter acl_fails cfgs)%list
      /\ (forall e, In e log' ->
            In e log
            \/ (log_msg e = "Invalid access control allowlist config"
                /\ decodeAclAllowLists (log_cfg e) = Returns (Err (log_err e)))).
Proof.
  induction cfgs as [|v cfgs IH]; intros m1 m2 log Hlen Hnd Hfresh.
  - exists m1, m2, log. cbn [decode_allowlists List.filter].
    split; [reflexivity|]. split; [|split; [|split]].
    + intros id al. split; [auto|]. intros [Hm|(v & [] & _)]. exact Hm.
    + intros id d. split; [auto|]. intros [Hm|(v & [] & _)]. exact Hm.
    + now rewrite app_nil_r.
    + auto.
  - cbn [map] in Hnd. apply NoDup_cons_In in Hnd. destruct Hnd as [Hv Hnd].
    assert (Hr : exists r, decodeAclAllowLists v = Returns r).
    { rewrite decodeAclAllowLists_unfold.
      destruct (Z.ltb_spec (len (Name v)) 14) as [Hlt|_];
        [specialize (Hlen v ltac:(now left)); lia|].
      cbv zeta. destruct (len _ =? 0); [eauto|].
      destruct (acl_Unmarshal _ _) as [al [e|]]; eauto. }
    destruct Hr as [r Hr].
    assert (Hf : acl_fails v = match r with Ok _ => false | Err _ => true end)
      by (unfold acl_fails; now rewrite Hr).
    cbn [decode_allowlists List.filter]. rewrite Hr, Hf. cbn [mbind outcome_bind].
    destruct (Hfresh v ltac:(now left)) as [F1 F2].
    destruct r as [al|e].
    + destruct (IH (<[ID v := al]> m1) (<[ID v := md5.Sum (Value v)]> m2) log)
        as (m1' & m2' & log' & Hd & H1 & H2 & H3 & H4).
      * intros w Hw. apply Hlen. now right.
      * exact Hnd.
      * intros w Hw. assert (ID v <> ID w).
        { intros E. apply Hv. rewrite E. now apply in_map. }
        rewrite !lookup_insert_ne by assumption. apply Hfresh. now right.
      * exists m1', m2', log'. split; [exact Hd|]. split; [|split; [|split]].
        -- intros id a. rewrite H1, lookup_insert_Some. split.
           ++ intros [[[<- <-]|[_ Hm]]|(w & Hw & E1 & E2)].
              ** right. exists v. split; [now left|auto].
              ** now left.
              ** right. exists w. split; [now right|auto].
           ++ intros [Hm|(w & [<-|Hw] & E1 & E2)].
              ** left. right. split; [|exact Hm]. intros <-. congruence.
              ** left. left. split; [exact E1|]. congruence.
              ** right. exists w. auto.
        -- intros id d. rewrite H2, lookup_insert_Some. split.
           ++ intros [[[<- <-]|[_ Hm]]|(w & Hw & E1 & E2)].
              ** right. exists v. split; [now left|auto].
              ** now left.
              ** right. exists w. split; [now right|auto].
           ++ intros [Hm|(w & [<-|Hw] & E1 & E2 & E3)].
              ** left. right. split; [|exact Hm]. intros <-. congruence.
              ** left. left. auto.
              ** right. exists w. auto.
        -- exact H3.
        -- exact H4.
    + destruct (IH m1 m2 (log ++ [mklog "Invalid access control allowlist config" v e])%list)
        as (m1' & m2' & log' & Hd & H1 & H2 & H3 & H4).
      * intros w Hw. apply Hlen. now right.
      * exact Hnd.
      * intros w Hw. apply Hfresh. now right.
      * exists m1', m2', log'. split; [exact Hd|]. split; [|split; [|split]].
        -- intros id a. rewrite H1. split.
           ++ intros [Hm|(w & Hw & E1 & E2)]; [now left|].
              right. exists w. split; [now right|auto].
           ++ intros [Hm|(w & [<-|Hw] & E1 & E2)]; [now left|congruence|].
              right. exists w. auto.
        -- intros id d. rewrite H2. split.
           ++ intros [Hm|(w & Hw & E1 & E2)]; [now left|].
              right. exists w. split; [now right|auto].
           ++ intros [Hm|(w & [<-|Hw] & E1 & E2 & E3)]; [now left|congruence|].
              right. exists w. auto.
        -- rewrite H3, map_app, <- app_assoc. reflexivity.
        -- intros e0 He0. destruct (H4 e0 He0) as [Hin|Hin]; [|now right].
           apply in_app_iff in Hin. destruct Hin as [Hin|[<-|[]]]; [now left|].
           right. split; [reflexivity|exact Hr].
Qed.

Lemma acl_rows_len (db : DB) (v : conf) : In v (acl_rows db) -> 14 <= len (Name v).
Proof.
  intros Hv. apply filter_In in Hv. destruct Hv as [_ Hl].
  apply name_like_prefix in Hl; [|reflexivity]. now apply HasPrefix_len in Hl.
Qed.

Lemma load_allowlists_spec `{acl_package} (db : DB) :
  conn db = None -> NoDup (map ID (rows db)) ->
  exists allowLists checksums log,
    LoadAclAllowListConfigs db = Returns (allowLists, checksums, None, log)
    /\ (allowLists = None <-> acl_rows db = [])
    /\ (checksums = None <-> acl_rows db = [])
    /\ (forall id al,
          default ∅ allowLists !! id = Some al
          <-> exists v, In v (acl_rows db) /\ ID v = id
                        /\ decodeAclAllowLists v = Returns (Ok al))
    /\ (forall id d,
          default ∅ checksums !! id = Some d
          <-> exists v, In v (acl_rows db) /\ ID v = id /\ acl_fails v = false
                        /\ d = md5.Sum (Value v))
    /\ map log_cfg log = List.filter acl_fails (acl_rows db)
    /\ (forall e, In e log ->
          log_msg e = "Invalid access control allowlist config"
          /\ decodeAclAllowLists (log_cfg e) = Returns (Err (log_err e))).
Proof.
  intros Hc Hid. unfold LoadAclAllowListConfigs, Find. rewrite Hc.
  fold (acl_rows db).
  pose proof (acl_rows_len db) as Hlen.
  assert (Hnd : NoDup (map ID (acl_rows db))) by now apply NoDup_map_filter.
  destruct (acl_rows db) as [|v cfgs] eqn:E.
  { exists None, None, []. cbn [mret outcome_ret List.filter map].
    split; [reflexivity|]. split; [tauto|]. split; [tauto|].
    cbn [default from_option id]. split; [|split; [|split]].
    - intros k al. rewrite lookup_empty. split; [discriminate|]. intros (w & [] & _).
    - intros k d. rewrite lookup_empty. split; [discriminate|]. intros (w & [] & _).
    - reflexivity.
    - intros e []. }
  destruct (decode_allowlists_spec (v :: cfgs) ∅ ∅ [] Hlen Hnd)
    as (m1 & m2 & log & Hd & H1 & H2 & H3 & H4).
  { intros w _. now rewrite !lookup_empty. }
  rewrite Hd. cbn [mbind outcome_bind mret outcome_ret].
  exists (Some m1), (Some m2), log. split; [reflexivity|].
  split; [split; discriminate|]. split; [split; discriminate|].
  cbn [default from_option id]. split; [|split; [|split]].
  - intros k al. rewrite H1, lookup_empty. split.
    + intros [Hm|Hm]; [discriminate|exact Hm].
    + auto.
  - intros k d. rewrite H2, lookup_empty. split.
    + intros [Hm|Hm]; [discriminate|exact Hm].
    + auto.
  - exact H3.
  - intros e He. destruct (H4 e He) as [[]|Hm]. exact Hm.
Qed.

(** What the loop of [LoadRateLimitStrategyConfigs] returns for rows with
    distinct keys. *)
Lemma decode_strategies_spec `{rate_package} (cfgs : list conf) :
  forall (m1 : gmap Z rate_Strategy) (m2 : gmap Z (list Z)) (log : list log_entry),
    (forall v, In v cfgs -> 19 <= len (Name v)) ->
    NoDup (map ID cfgs) ->
    (forall v, In v cfgs -> m1 !! ID v = None /\ m2 !! ID v = None) ->
    exists m1' m2' log',
      decode_strategies cfgs m1 m2 log = Returns (m1', m2', log')
      /\ (forall id stg,
            m1' !! id = Some stg
            <-> m1 !! id = Some stg
                \/ exists v, In v cfgs /\ ID v = id
                             /\ decodeRateLimitStrategy v = Returns (Ok stg))
      /\ (forall id d,
            m2' !! id = Some d
            <-> m2 !! id = Some d
                \/ exists v, In v cfgs /\ ID v = id /\ strategy_fails v = false
                             /\ d = md5.Sum (Value v))
      /\ map log_cfg log' = (map log_cfg log ++ List.filter strategy_fails cfgs)%list
      /\ (forall e, In e log' ->
            In e log
            \/ (log_msg e = "Invalid rate limit strategy config"
                /\ decodeRateLimitStrategy (log_cfg e) = Returns (Err (log_err e)))).
Proof.
  induction cfgs as [|v cfgs IH]; intros m1 m2 log Hlen Hnd Hfresh.
  - exists m1, m2, log. cbn [decode_strategies List.filter].
    split; [reflexivity|]. split; [|split; [|split]].
    + intros id al. split; [auto|]. intros [Hm|(v & [] & _)]. exact Hm.
    + intros id d. split; [auto|]. intros [Hm|(v & [] & _)]. exact Hm.
    + now rewrite app_nil_r.
    + auto.
  - cbn [map] in Hnd. apply NoDup_cons_In in Hnd. destruct Hnd as [Hv Hnd].
    assert (Hr : exists r, decodeRateLimitStrategy v = Returns r).
    { rewrite decodeRateLimitStrategy_unfold.
      destruct (Z.ltb_spec (len (Name v)) 19) as [Hlt|_];
        [specialize (Hlen v ltac:(now left)); lia|].
      cbv zeta. destruct (len _ =? 0); [eauto|].
      destruct (rate_Unmarshal _ _) as [stg [e|]]; eauto. }
    destruct Hr as [r Hr].
    assert (Hf : strategy_fails v = match r with Ok _ => false | Err _ => true end)
      by (unfold strategy_fails; now rewrite Hr).
    cbn [decode_strategies List.filter]. rewrite Hr, Hf. cbn [mbind outcome_bind].
    destruct (Hfresh v ltac:(now left)) as [F1 F2].
    destruct r as [stg|e].
    + destruct (IH (<[ID v := stg]> m1) (<[ID v := md5.Sum (Value v)]> m2) log)
        as (m1' & m2' & log' & Hd & H1 & H2 & H3 & H4).
      * intros w Hw. apply Hlen. now right.
      * exact Hnd.
      * intros w Hw. assert (ID v <> ID w).
        { intros E. apply Hv. rewrite E. now apply in_map. }
        rewrite !lookup_insert_ne by assumption. apply Hfresh. now right.
      * exists m1', m2', log'. split; [exact Hd|]. split; [|split; [|split]].
        -- intros id a. rewrite H1, lookup_insert_Some. split.
           ++ intros [[[<- <-]|[_ Hm]]|(w & Hw & E1 & E2)].
              ** right. exists v. split; [now left|auto].
              ** now left.
              ** right. exists w. split; [now right|auto].
           ++ intros [Hm|(w & [<-|Hw] & E1 & E2)].
              ** left. right. split; [|exact Hm]. intros <-. congruence.
              ** left. left. split; [exact E1|]. congruence.
              ** right. exists w. auto.
        -- intros id d. rewrite H2, lookup_insert_Some. split.
           ++ intros [[[<- <-]|[_ Hm]]|(w & Hw & E1 & E2)].
              ** right. exists v. split; [now left|auto].
              ** now left.
              ** right. exists w. split; [now right|auto].
           ++ intros [Hm|(w & [<-|Hw] & E1 & E2 & E3)].
              ** left. right. split; [|exact Hm]. intros <-. congruence.
              ** left. left. auto.
              ** right. exists w. auto.
        -- exact H3.
        -- exact H4.
    + destruct (IH m1 m2 (log ++ [mklog "Invalid rate limit strategy config" v e])%list)
        as (m1' & m2' & log' & Hd & H1 & H2 & H3 & H4).
      * intros w Hw. apply Hlen. now right.
      * exact Hnd.
      * intros w Hw. apply Hfresh. now right.
      * exists m1', m2', log'. split; [exact Hd|]. split; [|split; [|split]].
        -- intros id a. rewrite H1. split.
           ++ intros [Hm|(w & Hw & E1 & E2)]; [now left|].
              right. exists w. split; [now right|auto].
           ++ intros [Hm|(w & [<-|Hw] & E1 & E2)]; [now left|congruence|].
              right. exists w. auto.
        -- intros id d. rewrite H2. split.
           ++ intros [Hm|(w & Hw & E1 & E2)]; [now left|].
              right. exists w. split; [now right|auto].
           ++ intros [Hm|(w & [<-|Hw] & E1 & E2 & E3)]; [now left|congruence|].
              right. exists w. auto.
        -- rewrite H3, map_app, <- app_assoc. reflexivity.
        -- intros e0 He0. destruct (H4 e0 He0) as [Hin|Hin]; [|now right].
           apply in_app_iff in Hin. destruct Hin as [Hin|[<-|[]]]; [now left|].
           right. split; [reflexivity|exact Hr].
Qed.

Lemma strategy_rows_len (db : DB) (v : conf) : In v (strategy_rows db) -> 19 <= len (Name v).
Proof.
  intros Hv. apply filter_In in Hv. destruct Hv as [_ Hl].
  apply name_like_prefix in Hl; [|reflexivity]. now apply HasPrefix_len in Hl.
Qed.

Lemma load_strategies_spec `{rate_package} (db : DB) :
  conn db = None -> NoDup (map ID (rows db)) ->
  exists strategies checksums log,
    LoadRateLimitStrategyConfigs db = Returns (strategies, checksums, None, log)
    /\ (strategies = None <-> strategy_rows db = [])
    /\ (checksums = None <-> strategy_rows db = [])
    /\ (forall id stg,
          default ∅ strategies !! id = Some stg
          <-> exists v, In v (strategy_rows db) /\ ID v = id
                        /\ decodeRateLimitStrategy v = Returns (Ok stg))
    /\ (forall id d,
          default ∅ checksums !! id = Some d
          <-> exists v, In v (strategy_rows db) /\ ID v = id /\ strategy_fails v = false
                        /\ d = md5.Sum (Value v))
    /\ map log_cfg log = List.filter strategy_fails (strategy_rows db)
    /\ (forall e, In e log ->
          log_msg e = "Invalid rate limit strategy config"
          /\ decodeRateLimitStrategy (log_cfg e) = Returns (Err (log_err e))).
Proof.
  intros Hc Hid. unfold LoadRateLimitStrategyConfigs, Find. rewrite Hc.
  fold (strategy_rows db).
  pose proof (strategy_rows_len db) as Hlen.
  assert (Hnd : NoDup (map ID (strategy_rows db))) by now apply NoDup_map_filter.
  destruct (strategy_rows db) as [|v cfgs] eqn:E.
  { exists None, None, []. cbn [mret outcome_ret List.filter map].
    split; [reflexivity|]. split; [tauto|]. split; [tauto|].
    cbn [default from_option id]. split; [|split; [|split]].
    - intros k al. rewrite lookup_empty. split; [discriminate|]. intros (w & [] & _).
    - intros k d. rewrite lookup_empty. split; [discriminate|]. intros (w & [] & _).
    - reflexivity.
    - intros e []. }
  destruct (decode_strategies_spec (v :: cfgs) ∅ ∅ [] Hlen Hnd)
    as (m1 & m2 & log & Hd & H1 & H2 & H3 & H4).
  { intros w _. now rewrite !lookup_empty. }
  rewrite Hd. cbn [mbind outcome_bind mret outcome_ret].
  exists (Some m1), (Some m2), log. split; [reflexivity|].
  split; [split; discriminate|]. split; [split; discriminate|].
  cbn [default from_option id]. split; [|split; [|split]].
  - intros k al. rewrite H1, lookup_empty. split.
    + intros [Hm|Hm]; [discriminate|exact Hm].
    + auto.
  - intros k d. rewrite H2, lookup_empty. split.
    + intros [Hm|Hm]; [discriminate|exact Hm].
    + auto.
  - exact H3.
  - intros e He. destruct (H4 e He) as [[]|Hm]. exact Hm.
Qed.

End loader_facts.

Section group_facts.
Import mysql props.

(** What the loop of [LoadNodeRouteGroups] returns for rows with
    distinct logical names. *)
Lemma decode_groups_spec (cfgs : list conf) :
  forall (res : gmap string NodeRouteGroup.t) (log : list log_entry),
    (forall v, In v cfgs -> 16 <= len (Name v)) ->
    NoDup (map (fun v => drop_bytes 16 (Name v)) cfgs) ->
    (forall v, In v cfgs -> res !! drop_bytes 16 (Name v) = None) ->
    exists res' log',
      decode_groups cfgs res log = Returns (res', log')
      /\ (forall k grp,
            res' !! k = Some grp
            <-> res !! k = Some grp
                \/ exists v, In v cfgs /\ drop_bytes 16 (Name v) = k
                             /\ decodeNodeRouteGroup v = Returns (Ok grp))
      /\ map log_cfg log' = (map log_cfg log ++ List.filter group_fails cfgs)%list
      /\ (forall e, In e log' ->
            In e log
            \/ (log_msg e = "Invalid node route config"
                /\ decodeNodeRouteGroup (log_cfg e) = Returns (Err (log_err e)))).
Proof.
  induction cfgs as [|v cfgs IH]; intros res log Hlen Hnd Hfresh.
  - exists res, log. cbn [decode_groups List.filter].
    split; [reflexivity|]. split; [|split].
    + intros k grp. split; [auto|]. intros [Hm|(v & [] & _)]. exact Hm.
    + now rewrite app_nil_r.
    + auto.
  - cbn [map] in Hnd. apply NoDup_cons_In in Hnd. destruct Hnd as [Hv Hnd].
    assert (Hr : exists r, decodeNodeRouteGroup v = Returns r).
    { rewrite decodeNodeRouteGroup_unfold.
      destruct (Z.ltb_spec (len (Name v)) 16) as [Hlt|_];
        [specialize (Hlen v ltac:(now left)); lia|].
      cbv zeta. destruct (len _ =? 0); [eauto|].
      destruct (json_Unmarshal _ _) as [g [e|]]; eauto. }
    destruct Hr as [r Hr].
    assert (Hf : group_fails v = match r with Ok _ => false | Err _ => true end)
      by (unfold group_fails; now rewrite Hr).
    cbn [decode_groups List.filter]. rewrite Hr, Hf. cbn [mbind outcome_bind].
    pose proof (Hfresh v ltac:(now left)) as F1.
    destruct r as [g|e].
    + destruct (decodeNodeRouteGroup_name v g Hr) as [Hgn _]. rewrite Hgn.
      destruct (IH (<[drop_bytes 16 (Name v) := g]> res) log)
        as (res' & log' & Hd & H1 & H3 & H4).
      * intros w Hw. apply Hlen. now right.
      * exact Hnd.
      * intros w Hw.
        assert (drop_bytes 16 (Name v) <> drop_bytes 16 (Name w)).
        { intros E. apply Hv. rewrite E.
          now apply (in_map (fun v => drop_bytes 16 (Name v))). }
        rewrite lookup_insert_ne by assumption. apply Hfresh. now right.
      * exists res', log'. split; [exact Hd|]. split; [|split].
        -- intros k a. rewrite H1, lookup_insert_Some. split.
           ++ intros [[[<- <-]|[_ Hm]]|(w & Hw & E1 & E2)].
              ** right. exists v. split; [now left|auto].
              ** now left.
              ** right. exists w. split; [now right|auto].
           ++ intros [Hm|(w & [<-|Hw] & E1 & E2)].
              ** left. right. split; [|exact Hm]. intros <-. congruence.
              ** left. left. split; [exact E1|]. congruence.
              ** right. exists w. auto.
        -- exact H3.
        -- exact H4.
    + destruct (IH res (log ++ [mklog "Invalid node route config" v e])%list)
        as (res' & log' & Hd & H1 & H3 & H4).
      * intros w Hw. apply Hlen. now right.
      * exact Hnd.
      * intros w Hw. apply Hfresh. now right.
      * exists res', log'. split; [exact Hd|]. split; [|split].
        -- intros k a. rewrite H1. split.
           ++ intros [Hm|(w & Hw & E1 & E2)]; [now left|].
              right. exists w. split; [now right|auto].
           ++ intros [Hm|(w & [<-|Hw] & E1 & E2)]; [now left|congruence|].
              right. exists w. auto.
        -- rewrite H3, map_app, <- app_assoc. reflexivity.
        -- intros e0 He0. destruct (H4 e0 He0) as [Hin|Hin]; [|now right].
           apply in_app_iff in Hin. destruct Hin as [Hin|[<-|[]]]; [now left|].
           right. split; [reflexivity|exact Hr].
Qed.

Lemma decode_groups_returns (cfgs : list conf) :
  forall (res : gmap string NodeRouteGroup.t) (log : list log_entry),
    (forall v, In v cfgs -> 16 <= len (Name v)) ->
    exists r, decode_groups cfgs res log = Returns r.
Proof.
  induction cfgs as [|v cfgs IH]; intros res log Hlen; [cbn; eauto|].
  cbn [decode_groups]. rewrite decodeNodeRouteGroup_unfold.
  destruct (Z.ltb_spec (len (Name v)) 16) as [Hlt|_];
    [specialize (Hlen v ltac:(now left)); lia|].
  assert (Hlen' : forall w, In w cfgs -> 16 <= len (Name w))
    by (intros w Hw; apply Hlen; now right).
  cbv zeta. destruct (len _ =? 0); [apply IH; exact Hlen'|].
  destruct (json_Unmarshal _ _) as [g [e|]]; apply IH; exact Hlen'.
Qed.

(** Where the entries of the map the loop returns come from, whatever
    the rows are. *)
Lemma decode_groups_keys (cfgs : list conf) :
  forall (res res' : gmap string NodeRouteGroup.t) (log log' : list log_entry),
    decode_groups cfgs res log = Returns (res', log') ->
    forall k grp,
      res' !! k = Some grp ->
      res !! k = Some grp
      \/ exists v, In v cfgs /\ decodeNodeRouteGroup v = Returns (Ok grp)
                   /\ NodeRouteGroup.Name grp = k.
Proof.
  induction cfgs as [|v cfgs IH]; intros res res' log log'; cbn [decode_groups].
  - intros [= <- <-]. auto.
  - destruct (decodeNodeRouteGroup v) as [[g|e]|p] eqn:Hr;
      cbn [mbind outcome_bind]; [| |discriminate].
    + intros Hd k grp Hk. destruct (IH _ _ _ _ Hd k grp Hk) as [Hm|(w & Hw & E1 & E2)].
      * apply lookup_insert_Some in Hm. destruct Hm as [[<- <-]|[_ Hm]]; [|now left].
        right. exists v. split; [now left|auto].
      * right. exists w. split; [now right|auto].
    + intros Hd k grp Hk. destruct (IH _ _ _ _ Hd k grp Hk) as [Hm|(w & Hw & E1 & E2)].
      * now left.
      * right. exists w. split; [now right|auto].
Qed.

Lemma load_groups_spec (inclusiveGroups : list string) (db : DB) :
  conn db = None -> NoDup (map Name (rows db)) ->
  exists res log,
    LoadNodeRouteGroups inclusiveGroups db = Returns (res, None, log)
    /\ (res = None <-> group_rows inclusiveGroups db = [])
    /\ (forall k grp,
          default ∅ res !! k = Some grp
          <-> exists v, In v (group_rows inclusiveGroups db)
                        /\ Name v = NodeRouteGroupConfKeyPrefix ++ k
                        /\ decodeNodeRouteGroup v = Returns (Ok grp))
    /\ map log_cfg log = List.filter group_fails (group_rows inclusiveGroups db)
    /\ (forall e, In e log ->
          log_msg e = "Invalid node route config"
          /\ decodeNodeRouteGroup (log_cfg e) = Returns (Err (log_err e))).
Proof.
  intros Hc Hname. unfold LoadNodeRouteGroups.
  rewrite group_rows_Find by exact Hc.
  pose proof (group_rows_prefix inclusiveGroups db) as Hp.
  assert (Hlen : forall v, In v (group_rows inclusiveGroups db) -> 16 <= len (Name v)).
  { intros v Hv. apply Hp in Hv. now apply HasPrefix_len in Hv. }
  assert (Hnd : NoDup (map (fun v => drop_bytes 16 (Name v))
                           (group_rows inclusiveGroups db))).
  { apply (NoDup_tails NodeRouteGroupConfKeyPrefix); [exact Hp|].
    unfold group_rows. destruct inclusiveGroups; now apply NoDup_map_filter. }
  assert (Hkey : forall v k, In v (group_rows inclusiveGroups db) ->
                   (drop_bytes 16 (Name v) = k
                    <-> Name v = NodeRouteGroupConfKeyPrefix ++ k)).
  { intros v k Hv. apply Hp in Hv. apply HasPrefix_split in Hv.
    change (String.length NodeRouteGroupConfKeyPrefix) with 16%nat in Hv. split.
    - intros <-. exact Hv.
    - intros ->. apply (drop_bytes_app NodeRouteGroupConfKeyPrefix). }
  destruct (group_rows inclusiveGroups db) as [|v cfgs] eqn:E.
  { exists None, []. cbn [mret outcome_ret List.filter map].
    split; [reflexivity|]. split; [tauto|]. cbn [default from_option id].
    split; [|split].
    - intros k grp. rewrite lookup_empty. split; [discriminate|]. intros (w & [] & _).
    - reflexivity.
    - intros e []. }
  destruct (decode_groups_spec (v :: cfgs) ∅ [] Hlen Hnd)
    as (m1 & log & Hd & H1 & H3 & H4).
  { intros w _. now rewrite lookup_empty. }
  rewrite Hd. cbn [mbind outcome_bind mret outcome_ret].
  exists (Some m1), log. split; [reflexivity|].
  split; [split; discriminate|]. cbn [default from_option id]. split; [|split].
  - intros k grp. rewrite H1, lookup_empty. split.
    + intros [Hm|(w & Hw & E1 & E2)]; [discriminate|].
      exists w. split; [exact Hw|]. split; [|exact E2]. now apply Hkey.
    + intros (w & Hw & E1 & E2). right. exists w. split; [exact Hw|].
      split; [|exact E2]. now apply Hkey.
  - exact H3.
  - intros e He. destruct (H4 e He) as [[]|Hm]. exact Hm.
Qed.

(** * Single rows *)

Lemma filter_name_unique (rs : list conf) (r : conf) :
  NoDup (map Name rs) -> In r rs -> List.filter (name_is (Name r)) rs = [r].
Proof.
  induction rs as [|x rs IH]; intros Hnd Hin; [destruct Hin|].
  cbn [map] in Hnd. apply NoDup_cons_In in Hnd. destruct Hnd as [Hx Hnd].
  cbn [List.filter]. destruct Hin as [->|Hin].
  - unfold name_is at 1. rewrite String.eqb_refl. f_equal.
    apply existsb_false_filter. destruct (existsb _ rs) eqn:He; [|reflexivity].
    apply existsb_name_is in He. destruct He as (c & Hc & Hn).
    exfalso. apply Hx. rewrite <- Hn. now apply in_map.
  - destruct (name_is (Name r) x) eqn:Hn.
    + apply name_is_true in Hn. exfalso. apply Hx. rewrite Hn. now apply in_map.
    + now apply IH.
Qed.

Lemma filter_ID_unique (rs : list conf) (r : conf) :
  NoDup (map ID rs) -> In r rs -> List.filter (fun c => ID c =? ID r) rs = [r].
Proof.
  induction rs as [|x rs IH]; intros Hnd Hin; [destruct Hin|].
  cbn [map] in Hnd. apply NoDup_cons_In in Hnd. destruct Hnd as [Hx Hnd].
  cbn [List.filter]. destruct Hin as [->|Hin].
  - rewrite Z.eqb_refl. f_equal.
    apply existsb_false_filter. destruct (existsb _ rs) eqn:He; [|reflexivity].
    apply existsb_exists in He. destruct He as (c & Hc & Hn).
    apply Z.eqb_eq in Hn. exfalso. apply Hx. rewrite <- Hn. now apply in_map.
  - destruct (Z.eqb_spec (ID x) (ID r)) as [Hn|Hn].
    + exfalso. apply Hx. rewrite Hn. now apply in_map.
    + now apply IH.
Qed.

Lemma First_by_name (n : string) (r : conf) (db : DB) :
  conn db = None -> NoDup (map Name (rows db)) -> In r (rows db) -> Name r = n ->
  First (name_is n) db = (Some r, None).
Proof.
  intros Hc Hnd Hin <-. unfold First. rewrite Hc.
  now rewrite (filter_name_unique _ _ Hnd Hin).
Qed.

Lemma min_by_ID_least (l : list conf) (c : conf) :
  min_by_ID l = Some c -> forall x, In x l -> ID c <= ID x.
Proof.
  revert c. induction l as [|y l IH]; intros c; cbn [min_by_ID]; [discriminate|].
  destruct (min_by_ID l) as [m|] eqn:Hm.
  - destruct (Z.leb_spec (ID y) (ID m)) as [Hle|Hgt]; intros [= <-] x [<-|Hx].
    + lia.
    + specialize (IH m eq_refl x Hx). lia.
    + lia.
    + now apply IH.
  - intros [= <-] x [<-|Hx]; [lia|]. destruct l as [|z l]; [destruct Hx|].
    destruct (min_by_ID_cons z l) as [m' Hm']. congruence.
Qed.

End group_facts.

Section single_facts.
Import mysql props.

Lemma len_zero_eqb (s : string) : (len s =? 0) = String.eqb s EmptyString.
Proof.
  destruct s as [|c s]; [reflexivity|]. rewrite len_String.
  pose proof (len_nonneg s). destruct (Z.eqb_spec (len s + 1) 0); [lia|reflexivity].
Qed.

Lemma filter_all {A} (l : list A) : List.filter (fun _ => true) l = l.
Proof. induction l as [|x l IH]; [reflexivity|]. cbn [List.filter]. now rewrite IH. Qed.

Lemma name_in_single (n : string) (c : conf) : name_in [n] c = name_is n c.
Proof. unfold name_in, name_is. cbn [existsb]. apply orb_false_r. Qed.

(** The decoders on a row stored under the prefix and a name. *)
Lemma decodeAclAllowLists_named `{acl_package} (name : string) (r : conf) :
  Name r = AclAllowListConfKeyPrefix ++ name ->
  decodeAclAllowLists r
  = Returns (if String.eqb name EmptyString
             then Err (errors_New "allowlist name is too short")
             else match acl_Unmarshal (Value r) (acl_NewAllowList (ID r) name) with
                  | (_, Some err) => Err err
                  | (al, None) => Ok al
                  end).
Proof.
  intros Hn. rewrite decodeAclAllowLists_unfold, Hn, len_app.
  change (len AclAllowListConfKeyPrefix) with 14. pose proof (len_nonneg name).
  destruct (Z.ltb_spec (14 + len name) 14); [lia|]. cbv zeta.
  pose proof (drop_bytes_app AclAllowListConfKeyPrefix name) as Hd.
  change (String.length AclAllowListConfKeyPrefix) with 14%nat in Hd.
  rewrite Hd, len_zero_eqb.
  destruct (String.eqb name EmptyString); [reflexivity|].
  destruct (acl_Unmarshal _ _) as [al [e|]]; reflexivity.
Qed.

Lemma decodeRateLimitStrategy_named `{rate_package} (name : string) (r : conf) :
  Name r = RateLimitStrategyConfKeyPrefix ++ name ->
  decodeRateLimitStrategy r
  = Returns (if String.eqb name EmptyString
             then Err (errors_New "strategy name is too short")
             else match rate_Unmarshal (Value r) (rate_NewStrategy (ID r) name) with
                  | (_, Some err) => Err err
                  | (stg, None) => Ok stg
                  end).
Proof.
  intros Hn. rewrite decodeRateLimitStrategy_unfold, Hn, len_app.
  change (len RateLimitStrategyConfKeyPrefix) with 19. pose proof (len_nonneg name).
  destruct (Z.ltb_spec (19 + len name) 19); [lia|]. cbv zeta.
  pose proof (drop_bytes_app RateLimitStrategyConfKeyPrefix name) as Hd.
  change (String.length RateLimitStrategyConfKeyPrefix) with 19%nat in Hd.
  rewrite Hd, len_zero_eqb.
  destruct (String.eqb name EmptyString); [reflexivity|].
  destruct (rate_Unmarshal _ _) as [stg [e|]]; reflexivity.
Qed.

Lemma decodeNodeRouteGroup_named (name : string) (r : conf) :
  Name r = NodeRouteGroupConfKeyPrefix ++ name ->
  decodeNodeRouteGroup r
  = Returns (if String.eqb name EmptyString
             then Err (errors_New "route group name is too short")
             else match json_Unmarshal (Value r) (NodeRouteGroup.mk (ID r) name None) with
                  | (_, Some err) => Err err
                  | (grp, None) => Ok grp
                  end).
Proof.
  intros Hn. rewrite decodeNodeRouteGroup_unfold, Hn, len_app.
  change (len NodeRouteGroupConfKeyPrefix) with 16. pose proof (len_nonneg name).
  destruct (Z.ltb_spec (16 + len name) 16); [lia|]. cbv zeta.
  pose proof (drop_bytes_app NodeRouteGroupConfKeyPrefix name) as Hd.
  change (String.length NodeRouteGroupConfKeyPrefix) with 16%nat in Hd.
  rewrite Hd, len_zero_eqb.
  destruct (String.eqb name EmptyString); [reflexivity|].
  destruct (json_Unmarshal _ _) as [grp [e|]]; reflexivity.
Qed.

Lemma First_name_cases (n : string) (db : DB) :
  conn db = None ->
  First (name_is n) db = (None, Some ErrRecordNotFound)
  \/ exists c, First (name_is n) db = (Some c, None) /\ In c (rows db) /\ Name c = n.
Proof.
  intros Hc. destruct (existsb (name_is n) (rows db)) eqn:He.
  - right. destruct (First_found _ db Hc He) as (c & Hf & Hin & Hn).
    exists c. apply name_is_true in Hn. auto.
  - left. now apply First_absent.
Qed.

End single_facts.

Section total_facts.
Import mysql props.


(** The rows the query of [LoadNodeRouteGroups] finds, and the map and
    lines it returns from them. *)
Lemma LoadNodeRouteGroups_cases (inclusiveGroups : list string) (db : DB) :
  (exists e, conn db = Some e
             /\ LoadNodeRouteGroups inclusiveGroups db = Returns (None, Some e, []))
  \/ (conn db = None /\ group_rows inclusiveGroups db = []
      /\ LoadNodeRouteGroups inclusiveGroups db = Returns (None, None, []))
  \/ (exists res log,
        conn db = None
        /\ decode_groups (group_rows inclusiveGroups db) ∅ [] = Returns (res, log)
        /\ LoadNodeRouteGroups inclusiveGroups db = Returns (Some res, None, log)).
Proof.
  destruct (conn db) as [e|] eqn:Hc.
  - left. exists e. split; [reflexivity|]. unfold LoadNodeRouteGroups, Find.
    rewrite Hc. now destruct (len_list _ =? 0).
  - right. unfold LoadNodeRouteGroups. rewrite group_rows_Find by exact Hc.
    assert (Hlen : forall v, In v (group_rows inclusiveGroups db) -> 16 <= len (Name v)).
    { intros v Hv. apply group_rows_prefix in Hv. now apply HasPrefix_len in Hv. }
    destruct (group_rows inclusiveGroups db) as [|v cfgs] eqn:E; [left; auto|].
    right. destruct (decode_groups_returns (v :: cfgs) ∅ [] Hlen) as [[res log] Hd].
    exists res, log. rewrite Hd. auto.
Qed.

(** No name matches the patterns of two domains. *)
Lemma prefix_clash (s : string) (c d : ascii) (p q : string) :
  Ascii.eqb c d = false ->
  HasPrefix s (String c p) && HasPrefix s (String d q) = false.
Proof.
  intros Hcd. destruct s as [|x s]; [reflexivity|]. cbn [HasPrefix].
  destruct (Ascii.eqb_spec c x) as [<-|]; [|reflexivity].
  rewrite (Ascii.eqb_sym d c), Hcd. apply andb_false_r.
Qed.



End total_facts.

Import mysql props.

(** * Properties of the configuration store *)

(** C1. The reorg counter under serialized calls: on a store without the
    [reorg.version] row [GetReorgVersion] returns 0; after [M] serialized
    calls of [createOrUpdateReorgVersion] from such a store (one per
    clock reading in [times], [M] within the range of [int]) it returns
    [M]; and each call writes, through [StoreConfig], the version it read
    plus one. *)
Theorem reorg_version_counts_bumps (times : list Time) (db : DB) :
  conn db = None ->
  existsb (name_is MysqlConfKeyReorgVersion) (rows db) = false ->
  auto_increment db <= maxUint32 ->
  Z.of_nat (length times) <= maxInt ->
  GetReorgVersion db = (0, None)
  /\ (exists db', bumps times db = Returns (db', None)
                  /\ GetReorgVersion db' = (Z.of_nat (length times), None))
  /\ (forall now d version,
         GetReorgVersion d = (version, None) ->
         createOrUpdateReorgVersion now d
         = StoreConfig now MysqlConfKeyReorgVersion
             (AnyString (strconv.Itoa (int_add version 1))) d).
Proof.
  intros Hc He Ha Hm. split; [now apply GetReorgVersion_absent|]. split.
  - assert (Hmin : minInt < 0) by (vm_compute; reflexivity).
    destruct times as [|now times].
    + exists db. split; [reflexivity|]. now apply GetReorgVersion_absent.
    + cbn [length] in *. rewrite Nat2Z.inj_succ in *.
      destruct (bump_absent now db Hc He Ha) as (db1 & Hb & Hh1).
      destruct (bumps_present times 1 db1 Hh1 ltac:(lia) ltac:(lia)) as (db' & Hbs & Hh').
      exists db'. split.
      * cbn [bumps]. rewrite Hb. exact Hbs.
      * replace (Z.succ (Z.of_nat (length times))) with (1 + Z.of_nat (length times)) by lia.
        apply GetReorgVersion_holds; [exact Hh'|lia].
  - intros now d version Hg. unfold createOrUpdateReorgVersion. now rewrite Hg.
Qed.

Lemma reorg_version_counts_bumps_witness :
  GetReorgVersion fresh_db = (0, None)
  /\ (exists db', bumps [10; 20; 30] fresh_db = Returns (db', None)
                  /\ GetReorgVersion db' = (3, None))
  /\ (forall now d version,
         GetReorgVersion d = (version, None) ->
         createOrUpdateReorgVersion now d
         = StoreConfig now MysqlConfKeyReorgVersion
             (AnyString (strconv.Itoa (int_add version 1))) d).
Proof.
  apply (reorg_version_counts_bumps [10; 20; 30] fresh_db).
  - reflexivity.
  - reflexivity.
  - vm_compute. discriminate.
  - vm_compute. discriminate.
Defined.

(** C2. [StoreConfig] under a name that already has a row keeps the key,
    the name and the creation time of every row, writes the new value
    into the rows of that name and leaves the other rows as they are; the
    table has as many rows as before and the next key is unchanged. *)
Theorem StoreConfig_existing_row (now : Time) (c : conf) (v : string) (db : DB) :
  conn db = None -> In c (rows db) ->
  len (Name c) <= nameSize -> len v <= valueSize ->
  exists db',
    StoreConfig now (Name c) (AnyString v) db = Returns (db', None)
    /\ Forall2 (fun r r' =>
                  ID r' = ID r /\ Name r' = Name r /\ CreatedAt r' = CreatedAt r
                  /\ (if name_is (Name c) r then Value r' = v else r' = r))
               (rows db) (rows db')
    /\ length (rows db') = length (rows db)
    /\ auto_increment db' = auto_increment db.
Proof.
  intros Hc Hin Hn Hv.
  rewrite StoreConfig_string by assumption.
  assert (He : existsb (name_is (Name c)) (rows db) = true)
    by (apply existsb_name_is; eauto).
  rewrite He. eexists. split; [reflexivity|]. cbn [rows with_rows auto_increment].
  split; [|split; [now rewrite length_map|reflexivity]].
  clear Hin He. induction (rows db) as [|r rs IH]; constructor; [|exact IH].
  destruct (name_is (Name c) r); [|auto].
  pose proof (set_value_fields db now v r). tauto.
Qed.

Lemma StoreConfig_existing_row_witness :
  exists db',
    StoreConfig 9 "acl.allowlist.fluent" (AnyString "{}")
      (mkDB [mkconf 4 "acl.allowlist.fluent" "old" 1 2] 5 None true)
    = Returns (db', None)
    /\ Forall2 (fun r r' =>
                  ID r' = ID r /\ Name r' = Name r /\ CreatedAt r' = CreatedAt r
                  /\ (if name_is "acl.allowlist.fluent" r then Value r' = "{}" else r' = r))
               [mkconf 4 "acl.allowlist.fluent" "old" 1 2] (rows db')
    /\ length (rows db') = 1%nat
    /\ auto_increment db' = 5.
Proof.
  apply (StoreConfig_existing_row 9 (mkconf 4 "acl.allowlist.fluent" "old" 1 2) "{}"
           (mkDB [mkconf 4 "acl.allowlist.fluent" "old" 1 2] 5 None true)).
  - reflexivity.
  - now left.
  - vm_compute. discriminate.
  - vm_compute. discriminate.
Defined.

(** C4. A record whose name is exactly the prefix of its domain has an
    empty logical name: each of the three decoders refuses it with the
    error made by [errors.New], a validation error, whatever its value
    and its other columns are. *)
Theorem decoders_reject_empty_name `{acl_package} `{rate_package}
    (id : Z) (value : string) (created updated : Time) :
  decodeAclAllowLists (mkconf id AclAllowListConfKeyPrefix value created updated)
  = Returns (Err (errors_New "allowlist name is too short"))
  /\ decodeRateLimitStrategy (mkconf id RateLimitStrategyConfKeyPrefix value created updated)
     = Returns (Err (errors_New "strategy name is too short"))
  /\ decodeNodeRouteGroup (mkconf id NodeRouteGroupConfKeyPrefix value created updated)
     = Returns (Err (errors_New "route group name is too short"))
  /\ kind_of (errors_New "allowlist name is too short") = ValidationError
  /\ kind_of (errors_New "strategy name is too short") = ValidationError
  /\ kind_of (errors_New "route group name is too short") = ValidationError.
Proof. repeat split. Qed.

(** C7. When the [reorg.version] row exists and its value is not a
    decimal integer string, [GetReorgVersion] returns an error, and the
    error is a validation error. *)
Theorem GetReorgVersion_rejects_non_numeric (db : DB) :
  conn db = None ->
  existsb (name_is MysqlConfKeyReorgVersion) (rows db) = true ->
  (forall r, In r (rows db) -> Name r = MysqlConfKeyReorgVersion ->
             is_decimal_integer (Value r) = false) ->
  exists n e, GetReorgVersion db = (n, Some e) /\ kind_of e = ValidationError.
Proof.
  intros Hc He Hbad.
  destruct (GetReorgVersion_present db Hc He) as (c & Hin & Hn & ->).
  specialize (Hbad c Hin Hn).
  destruct (strconv.Atoi (Value c)) as [n [e|]] eqn:Ha.
  - exists n, e. split; [reflexivity|]. now apply Atoi_error_kind in Ha.
  - apply Atoi_ok_decimal in Ha. congruence.
Qed.

Lemma GetReorgVersion_rejects_non_numeric_witness :
  exists n e,
    GetReorgVersion (mkDB [mkconf 1 "reorg.version" "12a" 1 1] 2 None false) = (n, Some e)
    /\ kind_of e = ValidationError.
Proof.
  apply (GetReorgVersion_rejects_non_numeric
           (mkDB [mkconf 1 "reorg.version" "12a" 1 1] 2 None false)).
  - reflexivity.
  - reflexivity.
  - intros r [<-|[]] _. reflexivity.
Defined.

(** C8. [DeleteConfig] on a healthy connection returns no error and the
    boolean that tells whether a row had the name; the rows of that name
    are gone and the other rows stay; when no row had the name the store
    is unchanged. *)
Theorem DeleteConfig_reports_removal (confName : string) (db : DB) :
  conn db = None ->
  exists db',
    DeleteConfig confName db = (db', (existsb (name_is confName) (rows db), None))
    /\ (forall r, In r (rows db') <-> In r (rows db) /\ Name r <> confName)
    /\ (if existsb (name_is confName) (rows db) then True else db' = db).
Proof.
  intros Hc. unfold DeleteConfig, Delete. rewrite Hc. eexists. split; [|split].
  - f_equal. f_equal. f_equal.
    destruct (existsb (name_is confName) (rows db)) eqn:He.
    + destruct (List.filter (name_is confName) (rows db)) eqn:Hf.
      * apply existsb_false_filter in Hf. congruence.
      * apply Z.ltb_lt. cbn [length]. lia.
    + apply existsb_false_filter in He. now rewrite He.
  - intros r. cbn [rows with_rows]. rewrite filter_In.
    rewrite negb_true_iff, name_is_false. tauto.
  - destruct (existsb (name_is confName) (rows db)) eqn:He; [exact I|].
    destruct db as [rs ai cn ru]. unfold with_rows. cbn [rows auto_increment conn refresh_updated_at] in *.
    f_equal. clear Hc. induction rs as [|r rs IH]; [reflexivity|].
    cbn [existsb] in He. apply orb_false_iff in He. destruct He as [Hr Hrs].
    cbn [List.filter]. rewrite Hr. cbn [negb]. now rewrite IH.
Qed.

Lemma DeleteConfig_reports_removal_witness :
  exists db',
    DeleteConfig "noderoute.group.x" (mkDB [mkconf 1 "reorg.version" "3" 1 1] 2 None false)
    = (db', (false, None))
    /\ (forall r, In r (rows db') <->
                  In r [mkconf 1 "reorg.version" "3" 1 1] /\ Name r <> "noderoute.group.x")
    /\ db' = mkDB [mkconf 1 "reorg.version" "3" 1 1] 2 None false.
Proof.
  apply (DeleteConfig_reports_removal "noderoute.group.x"
           (mkDB [mkconf 1 "reorg.version" "3" 1 1] 2 None false)).
  reflexivity.
Defined.

(** C9. [StoreConfig] runs to its return only for a string: it asserts
    [confVal.(string)] unchecked, so with a value of any other dynamic
    type the call panics, before any statement runs and without an error
    value. *)
Theorem StoreConfig_panics_unless_string (now : Time) (confName : string)
    (confVal : any) (db : DB) :
  match confVal with
  | AnyString s =>
      StoreConfig now confName confVal db
      = Returns (Create now (Some (mkOnConflict ["name"] [("value", confVal)]))
                        (mkconf 0 confName s 0 0) db)
  | _ => StoreConfig now confName confVal db
         = Panics (InterfaceConversion (type_name confVal))
  end.
Proof. destruct confVal; reflexivity. Qed.

(** C10. [decodeAclAllowLists] slices the name at the length of the
    prefix without looking at the prefix: it panics exactly when the name
    is shorter than the prefix, and a longer name is cut wherever it
    starts.  [LoadAclAllowListById] decodes whatever row has the key: on
    the [reorg.version] row it panics, and a rate-limit strategy row is
    decoded as an allow list named by the tail of its name, with no error
    about the name. *)
Theorem acl_decoder_slices_unchecked `{acl_package} :
  (forall cfg, (exists p, decodeAclAllowLists cfg = Panics p)
               <-> len (Name cfg) < len AclAllowListConfKeyPrefix)
  /\ (forall (key : positive) value t1 t2,
        LoadAclAllowListById (Z.pos key)
          (mkDB [mkconf (Z.pos key) MysqlConfKeyReorgVersion value t1 t2]
                (Z.pos key + 1) None false)
        = Panics (SliceBoundsOutOfRange 14 13))
  /\ (forall (key : positive) value t1 t2,
        LoadAclAllowListById (Z.pos key)
          (mkDB [mkconf (Z.pos key) "ratelimit.strategy.foo" value t1 t2]
                (Z.pos key + 1) None false)
        = match acl_Unmarshal value (acl_NewAllowList (Z.pos key) "tegy.foo") with
          | (_, Some err) => Returns (Err err)
          | (al, None) => Returns (Ok al)
          end).
Proof.
  split; [|split].
  - intros cfg. rewrite decodeAclAllowLists_unfold.
    change (len AclAllowListConfKeyPrefix) with 14.
    destruct (Z.ltb_spec (len (Name cfg)) 14) as [Hlt|Hge].
    + split; [intros _; exact Hlt|eauto].
    + split; [|lia]. intros [p Hp]. cbv zeta in Hp.
      destruct (len _ =? 0); [discriminate|].
      destruct (acl_Unmarshal _ _) as [al [e|]]; discriminate.
  - intros key value t1 t2. unfold LoadAclAllowListById, First_by_key, First.
    cbn [conn rows List.filter]. rewrite Z.eqb_refl.
    change (Z.pos key =? 0) with false. cbn [min_by_ID]. reflexivity.
  - intros key value t1 t2. unfold LoadAclAllowListById, First_by_key, First.
    cbn [conn rows List.filter]. rewrite Z.eqb_refl.
    change (Z.pos key =? 0) with false. cbn [min_by_ID].
    rewrite decodeAclAllowLists_unfold. reflexivity.
Qed.

(** C3, as amended.  Bulk loads skip the rows that fail to decode.  On a
    healthy connection and a table with unique keys and names, for each
    domain, with [N] the rows the load reads and [K] those of them its
    decoder refuses, the load returns a nil error and exactly [N - K]
    decoded objects (and as many fingerprints), and logs [K] lines; it
    does not fail and does not panic.  The rows a decoder refuses are
    those whose payload does not decode and, besides, those whose name
    is the bare prefix, whatever their payload is. *)
Theorem bulk_load_skips_failed_rows `{acl_package} `{rate_package}
    (inclusiveGroups : list string) (db : DB) :
  conn db = None -> db_wf db ->
  (exists allowLists checksums log,
      LoadAclAllowListConfigs db = Returns (allowLists, checksums, None, log)
      /\ map_len allowLists
         = (length (acl_rows db) - length (List.filter acl_fails (acl_rows db)))%nat
      /\ map_len checksums
         = (length (acl_rows db) - length (List.filter acl_fails (acl_rows db)))%nat
      /\ length log = length (List.filter acl_fails (acl_rows db)))
  /\ (exists strategies checksums log,
        LoadRateLimitStrategyConfigs db = Returns (strategies, checksums, None, log)
        /\ map_len strategies
           = (length (strategy_rows db)
              - length (List.filter strategy_fails (strategy_rows db)))%nat
        /\ map_len checksums
           = (length (strategy_rows db)
              - length (List.filter strategy_fails (strategy_rows db)))%nat
        /\ length log = length (List.filter strategy_fails (strategy_rows db)))
  /\ (exists res log,
        LoadNodeRouteGroups inclusiveGroups db = Returns (res, None, log)
        /\ map_len res
           = (length (group_rows inclusiveGroups db)
              - length (List.filter group_fails (group_rows inclusiveGroups db)))%nat
        /\ length log
           = length (List.filter group_fails (group_rows inclusiveGroups db)))
  /\ (forall cfg, In cfg (acl_rows db) ->
        acl_fails cfg
        = String.eqb (Name cfg) AclAllowListConfKeyPrefix || acl_payload_fails cfg)
  /\ (forall cfg, In cfg (strategy_rows db) ->
        strategy_fails cfg
        = String.eqb (Name cfg) RateLimitStrategyConfKeyPrefix
          || strategy_payload_fails cfg)
  /\ (forall cfg, In cfg (group_rows inclusiveGroups db) ->
        group_fails cfg
        = String.eqb (Name cfg) NodeRouteGroupConfKeyPrefix || group_payload_fails cfg).
Proof.
  intros Hc Hwf. repeat apply conj.
  - destruct (load_allowlists_count db Hc Hwf) as (a & c & l & H1 & H2 & H3 & H4 & _).
    exists a, c, l. auto.
  - destruct (load_strategies_count db Hc Hwf) as (a & c & l & H1 & H2 & H3 & H4 & _).
    exists a, c, l. auto.
  - apply load_groups_count; assumption.
  - intros cfg Hin. apply acl_fails_split. apply filter_In in Hin.
    apply (name_like_prefix AclAllowListConfKeyPrefix); [reflexivity | apply Hin].
  - intros cfg Hin. apply strategy_fails_split. apply filter_In in Hin.
    apply (name_like_prefix RateLimitStrategyConfKeyPrefix); [reflexivity | apply Hin].
  - intros cfg Hin. apply group_fails_split. exact (group_rows_prefix _ _ _ Hin).
Qed.

Lemma example_db_wf : db_wf example_db.
Proof.
  unfold db_wf, example_db. cbn [rows auto_increment map ID Name]. repeat split.
  - apply (bool_decide_unpack _). vm_compute. exact I.
  - apply (bool_decide_unpack _). vm_compute. exact I.
  - repeat constructor; cbn [ID]; lia.
Qed.


Lemma bulk_load_skips_failed_rows_witness :
  (exists allowLists checksums log,
      @LoadAclAllowListConfigs example_acl example_db
      = Returns (allowLists, checksums, None, log)
      /\ map_len allowLists = 1%nat /\ map_len checksums = 1%nat /\ length log = 1%nat)
  /\ (exists strategies checksums log,
        @LoadRateLimitStrategyConfigs example_rate example_db
        = Returns (strategies, checksums, None, log)
        /\ map_len strategies = 1%nat /\ map_len checksums = 1%nat /\ length log = 0%nat)
  /\ (exists res log,
        LoadNodeRouteGroups [] example_db = Returns (res, None, log)
        /\ map_len res = 1%nat /\ length log = 1%nat)
  /\ (forall cfg, In cfg (acl_rows example_db) ->
        @acl_fails example_acl cfg
        = String.eqb (Name cfg) AclAllowListConfKeyPrefix
          || @acl_payload_fails example_acl cfg)
  /\ (forall cfg, In cfg (strategy_rows example_db) ->
        @strategy_fails example_rate cfg
        = String.eqb (Name cfg) RateLimitStrategyConfKeyPrefix
          || @strategy_payload_fails example_rate cfg)
  /\ (forall cfg, In cfg (group_rows [] example_db) ->
        group_fails cfg
        = String.eqb (Name cfg) NodeRouteGroupConfKeyPrefix || group_payload_fails cfg).
Proof.
  apply (@bulk_load_skips_failed_rows example_acl example_rate [] example_db).
  - reflexivity.
  - exact example_db_wf.
Defined.

(** C3, as first stated, fails: [example_db] has two rows under the
    prefix of the node route groups, both with a payload that decodes,
    and the load of all groups returns one group only, for the row named
    by the bare prefix is refused for its name. *)
Lemma bulk_load_counterexample : ~ bulk_load_as_stated.
Proof.
  intros H.
  destruct (H example_acl example_rate [] example_db eq_refl example_db_wf)
    as (_ & _ & res & log & Hl & Hn).
  assert (Hd : LoadNodeRouteGroups [] example_db
               = Returns (Some {[ "cfxvip" := NodeRouteGroup.mk 4 "cfxvip" None ]}, None,
                          [mklog "Invalid node route config"
                             (mkconf 5 "noderoute.group." "{}" 16 16)
                             (errors_New "route group name is too short")]))
    by reflexivity.
  rewrite Hd in Hl. injection Hl as <- _.
  assert (Hk : List.filter group_payload_fails (group_rows [] example_db) = [])
    by reflexivity.
  rewrite Hk in Hn. cbn [map_len] in Hn. rewrite map_size_singleton in Hn.
  change (length (group_rows [] example_db)) with 2%nat in Hn.
  discriminate.
Qed.



(** C5, as amended.  Round trip of a node route group: when
    [StoreNodeRouteGroup] has stored (returned no error for) a group with
    a non-empty name, the store holds a row under the prefixed name with
    the marshalled payload as its value, and [LoadNodeRouteGroups] of that
    one name returns exactly one group, under the same name and stamped
    with the key of the row, whose list of nodes is the stored list with
    every byte that is not part of a well-formed UTF-8 sequence replaced
    by U+FFFD; when the node strings are valid UTF-8 that is the same list
    of nodes. *)
Theorem node_route_group_round_trip (now : Time) (g : NodeRouteGroup.t) (db db' : DB) :
  NodeRouteGroup.Name g <> EmptyString ->
  StoreNodeRouteGroup now g db = Returns (db', None) ->
  exists r,
    In r (rows db')
    /\ Name r = NodeRouteGroupConfKeyPrefix ++ NodeRouteGroup.Name g
    /\ Value r = fst (json_Marshal g)
    /\ LoadNodeRouteGroups [NodeRouteGroup.Name g] db'
       = Returns (Some {[ NodeRouteGroup.Name g :=
                            NodeRouteGroup.mk (ID r) (NodeRouteGroup.Name g)
                              (coerce_nodes (NodeRouteGroup.Nodes g)) ]},
                  None, [])
    /\ (valid_nodes (NodeRouteGroup.Nodes g) = true ->
        coerce_nodes (NodeRouteGroup.Nodes g) = NodeRouteGroup.Nodes g).
Proof.
  intros Hne Hs. unfold StoreNodeRouteGroup in Hs.
  change (json_Marshal g) with (fst (json_Marshal g), @None error) in Hs.
  cbv iota beta in Hs.
  destruct (StoreConfig_stored _ _ _ _ _ Hs) as (Hc & He & Hval).
  set (key := NodeRouteGroupConfKeyPrefix ++ NodeRouteGroup.Name g) in *.
  assert (Hrows : group_rows [NodeRouteGroup.Name g] db'
                  = List.filter (name_is key) (rows db')).
  { unfold group_rows. cbn [map]. apply filter_ext. intros r.
    unfold name_in, name_is. cbn [existsb]. now rewrite orb_false_r. }
  assert (Hdec : forall r, In r (List.filter (name_is key) (rows db')) ->
                 decodeNodeRouteGroup r
                 = Returns (Ok (NodeRouteGroup.mk (ID r) (NodeRouteGroup.Name g)
                                  (coerce_nodes (NodeRouteGroup.Nodes g))))).
  { intros r Hr. apply filter_In in Hr. destruct Hr as [Hin Hn].
    apply name_is_true in Hn.
    apply decodeNodeRouteGroup_stored; auto. }
  unfold LoadNodeRouteGroups. rewrite group_rows_Find by exact Hc. rewrite Hrows.
  destruct (List.filter (name_is key) (rows db')) as [|r0 cfgs] eqn:Hf.
  { apply existsb_false_filter in Hf. congruence. }
  rewrite (decode_groups_same _ _ cfgs r0 ∅ [] Hdec).
  assert (Hlast : In (List.last cfgs r0) (r0 :: cfgs)).
  { destruct cfgs as [|x l]; [now left|]. right. apply last_In. }
  rewrite <- Hf in Hlast. apply filter_In in Hlast. destruct Hlast as [Hin Hn].
  apply name_is_true in Hn.
  exists (List.last cfgs r0). split; [exact Hin|]. split; [exact Hn|].
  split; [now apply Hval|]. split; [reflexivity|]. apply coerce_nodes_valid.
Qed.

Lemma node_route_group_round_trip_witness :
  exists r,
    In r [mkconf 1 "noderoute.group.cfxvip"
            (fst (json_Marshal (NodeRouteGroup.mk 0 "cfxvip" (Some ["http://a"; "http://b"]))))
            5 5]
    /\ Name r = "noderoute.group.cfxvip"
    /\ Value r = fst (json_Marshal (NodeRouteGroup.mk 0 "cfxvip" (Some ["http://a"; "http://b"])))
    /\ LoadNodeRouteGroups ["cfxvip"]
         (mkDB [mkconf 1 "noderoute.group.cfxvip"
                  (fst (json_Marshal (NodeRouteGroup.mk 0 "cfxvip" (Some ["http://a"; "http://b"]))))
                  5 5] 2 None false)
       = Returns (Some {[ "cfxvip" :=
                            NodeRouteGroup.mk (ID r) "cfxvip" (Some ["http://a"; "http://b"]) ]},
                  None, [])
    /\ (valid_nodes (Some ["http://a"; "http://b"]) = true ->
        coerce_nodes (Some ["http://a"; "http://b"]) = Some ["http://a"; "http://b"]).
Proof.
  apply (node_route_group_round_trip 5
           (NodeRouteGroup.mk 0 "cfxvip" (Some ["http://a"; "http://b"])) fresh_db
           (mkDB [mkconf 1 "noderoute.group.cfxvip"
                    (fst (json_Marshal
                            (NodeRouteGroup.mk 0 "cfxvip" (Some ["http://a"; "http://b"]))))
                    5 5] 2 None false)).
  - discriminate.
  - reflexivity.
Defined.

(** C5, as stated, fails: a node string that is not valid UTF-8 is stored
    with its bad byte replaced by U+FFFD, so the group that is loaded does
    not carry the list that was stored. *)
Lemma round_trip_counterexample : ~ round_trip_as_stated.
Proof.
  intros H.
  destruct (H 1 group_with_bad_byte fresh_db
              (mkDB [mkconf 1 "noderoute.group.g"
                       (fst (json_Marshal group_with_bad_byte)) 1 1] 2 None false))
    as (m & grp & log & Hl & Hm & Hn).
  - discriminate.
  - reflexivity.
  - assert (Hd : decode_groups
                   [mkconf 1 "noderoute.group.g" (fst (json_Marshal group_with_bad_byte)) 1 1]
                   ∅ []
                 = Returns (<["g" := NodeRouteGroup.mk 1 "g"
                                       (Some [String (byte_of 239) (String (byte_of 191)
                                                (String (byte_of 189) EmptyString))])]> ∅, []))
      by reflexivity.
    unfold LoadNodeRouteGroups in Hl. rewrite group_rows_Find in Hl by reflexivity.
    change (group_rows [NodeRouteGroup.Name group_with_bad_byte] _)
      with [mkconf 1 "noderoute.group.g" (fst (json_Marshal group_with_bad_byte)) 1 1] in Hl.
    rewrite Hd in Hl. injection Hl as <- _.
    change (NodeRouteGroup.Name group_with_bad_byte) with "g" in Hm.
    rewrite lookup_insert_eq in Hm. injection Hm as <-. discriminate.
Qed.

(** * Further properties of the configuration store *)

(** ** The reorg version *)

(** X1. A bump of a store that holds version [k] succeeds for every [k]
    of type [int] and leaves the version [k + 1], computed in 64-bit
    arithmetic: from the largest [int] the version wraps around to the
    smallest one, and no error is reported. *)
Theorem bump_adds_one_and_wraps (now : Time) (k : Z) (db : DB) :
  holds_version k db -> minInt <= k <= maxInt ->
  exists db',
    createOrUpdateReorgVersion now db = Returns (db', None)
    /\ GetReorgVersion db' = (int_add k 1, None)
    /\ (k < maxInt -> int_add k 1 = k + 1)
    /\ (k = maxInt -> int_add k 1 = minInt).
Proof.
  intros Hh Hk. destruct (bump_holds now k db Hh Hk) as (db' & Hb & Hh').
  exists db'. split; [exact Hb|]. split.
  - apply GetReorgVersion_holds; [exact Hh'|]. apply wrap_int_range.
  - split.
    + intros Hlt. apply int_add_small. lia.
    + intros ->. reflexivity.
Qed.

Lemma bump_adds_one_and_wraps_witness :
  exists db',
    createOrUpdateReorgVersion 30
      (mkDB [mkconf 1 "reorg.version" "9223372036854775807" 10 20] 2 None false)
    = Returns (db', None)
    /\ GetReorgVersion db' = (int_add maxInt 1, None)
    /\ (maxInt < maxInt -> int_add maxInt 1 = maxInt + 1)
    /\ (maxInt = maxInt -> int_add maxInt 1 = minInt).
Proof.
  apply (bump_adds_one_and_wraps 30 maxInt
           (mkDB [mkconf 1 "reorg.version" "9223372036854775807" 10 20] 2 None false)).
  - split; [reflexivity|]. split; [reflexivity|].
    intros r [<-|[]] _. reflexivity.
  - vm_compute. split; discriminate.
Defined.

(** X2. When the value of the [reorg.version] row is a run of decimal
    digits, [GetReorgVersion] returns the number it denotes, leading
    zeros included, as long as it is within [int]; for a larger number it
    returns the largest [int] together with a range error of [Atoi]. *)
Theorem GetReorgVersion_digit_string (s : string) (v : Z) (db : DB) :
  version_text s db -> s <> EmptyString -> dval s 0 = Some v ->
  GetReorgVersion db
  = if v <=? maxInt then (v, None)
    else (maxInt, Some (NumError "Atoi" s ErrRange)).
Proof.
  intros (Hc & He & Hv) Hs Hd.
  destruct (GetReorgVersion_present db Hc He) as (c & Hin & Hn & ->).
  rewrite (Hv c Hin Hn). now apply Atoi_digits.
Qed.

Lemma GetReorgVersion_digit_string_witness :
  GetReorgVersion
    (mkDB [mkconf 1 "reorg.version" "9223372036854775808" 10 20] 2 None false)
  = if 9223372036854775808 <=? maxInt then (9223372036854775808, None)
    else (maxInt, Some (NumError "Atoi" "9223372036854775808" ErrRange)).
Proof.
  apply (GetReorgVersion_digit_string "9223372036854775808" 9223372036854775808
           (mkDB [mkconf 1 "reorg.version" "9223372036854775808" 10 20] 2 None false)).
  - split; [reflexivity|]. split; [reflexivity|].
    intros r [<-|[]] _. reflexivity.
  - discriminate.
  - reflexivity.
Defined.

(** X3. [createOrUpdateReorgVersion] never panics.  When it returns an
    error the store is as it was; when it returns none, the version it
    read was some [k] and the version the store holds afterwards is
    [k + 1] in 64-bit arithmetic. *)
Theorem bump_fails_clean_or_counts (now : Time) (db : DB) :
  exists db' err,
    createOrUpdateReorgVersion now db = Returns (db', err)
    /\ (err <> None -> db' = db)
    /\ (err = None ->
        exists k, GetReorgVersion db = (k, None)
                  /\ GetReorgVersion db' = (int_add k 1, None)).
Proof.
  unfold createOrUpdateReorgVersion.
  destruct (GetReorgVersion db) as [k [e|]] eqn:Hg.
  - exists db, (Some e). split; [reflexivity|]. split; [reflexivity|discriminate].
  - unfold StoreConfig. cbn [assert_string mbind outcome_bind mret outcome_ret].
    destruct (Create now _ _ db) as [db' err] eqn:Hcr.
    exists db', err. split; [reflexivity|]. split.
    + destruct err as [e|]; [|congruence]. intros _.
      now apply Create_failed in Hcr.
    + intros ->. exists k. split; [reflexivity|].
      assert (Hs : StoreConfig now MysqlConfKeyReorgVersion
                     (AnyString (strconv.Itoa (int_add k 1))) db = Returns (db', None)).
      { unfold StoreConfig. cbn [assert_string mbind outcome_bind mret outcome_ret].
        now rewrite Hcr. }
      apply StoreConfig_stored in Hs.
      apply GetReorgVersion_holds; [exact Hs|]. apply wrap_int_range.
Qed.

(** ** The table *)

(** X4. A call of [StoreConfig] that returns an error has written
    nothing: the store is as it was.  On a healthy connection the error
    is one the driver raised for the statement. *)
Theorem StoreConfig_error_leaves_store (now : Time) (confName : string)
    (confVal : any) (db db' : DB) (e : error) :
  StoreConfig now confName confVal db = Returns (db', Some e) ->
  db' = db /\ (conn db = None -> exists msg, e = ErrDriver msg).
Proof.
  unfold StoreConfig. destruct confVal; cbn; try discriminate.
  intros [= H]. now apply Create_failed in H.
Qed.

Lemma StoreConfig_error_leaves_store_witness :
  mkDB [] 4294967296 None false = mkDB [] 4294967296 None false
  /\ (conn (mkDB [] 4294967296 None false) = None ->
      exists msg, ErrDriver "Out of range value for column" = ErrDriver msg).
Proof.
  apply (StoreConfig_error_leaves_store 5 "a" (AnyString "b")
           (mkDB [] 4294967296 None false) (mkDB [] 4294967296 None false)
           (ErrDriver "Out of range value for column")).
  reflexivity.
Defined.

(** X5. On a healthy connection [LoadConfig] returns a map, never the nil
    map, that holds under each requested name that has a row the value
    of that row, as a string; a requested name without a row is absent
    from the map, a name that was not requested is absent too, and no
    error is returned. *)
Theorem LoadConfig_lookup (confNames : list string) (db : DB) :
  conn db = None -> NoDup (map Name (rows db)) ->
  exists m,
    LoadConfig confNames db = (Some m, None)
    /\ forall n val,
         m !! n = Some val
         <-> In n confNames
             /\ exists r, In r (rows db) /\ Name r = n /\ val = AnyString (Value r).
Proof. apply LoadConfig_spec. Qed.

Lemma LoadConfig_lookup_witness :
  exists m,
    LoadConfig ["reorg.version"; "missing"] example_db = (Some m, None)
    /\ forall n val,
         m !! n = Some val
         <-> In n ["reorg.version"; "missing"]
             /\ exists r, In r (rows example_db) /\ Name r = n
                          /\ val = AnyString (Value r).
Proof.
  apply (LoadConfig_lookup ["reorg.version"; "missing"] example_db).
  - reflexivity.
  - apply (bool_decide_unpack _). vm_compute. exact I.
Defined.

(** X6. Reading after writing: after [StoreConfig] stored [v] under a
    name, [LoadConfig] of a list of names that has that name returns the
    map it returned before the call with the entry of the name set to
    [v]; the entries of the other names are as they were. *)
Theorem StoreConfig_then_LoadConfig (now : Time) (confName v : string)
    (confNames : list string) (db db' : DB) :
  db_wf db -> In confName confNames ->
  StoreConfig now confName (AnyString v) db = Returns (db', None) ->
  exists m,
    LoadConfig confNames db = (Some m, None)
    /\ LoadConfig confNames db' = (Some (<[confName := AnyString v]> m), None).
Proof.
  intros Hwf Hin Hs.
  pose proof (StoreConfig_keeps_wf _ _ _ _ _ _ Hwf Hs) as Hwf'.
  destruct (StoreConfig_ok _ _ _ _ _ Hs) as (Hc & _).
  destruct (StoreConfig_stored _ _ _ _ _ Hs) as (Hc' & He' & Hv').
  destruct Hwf as (_ & Hnd & _). destruct Hwf' as (_ & Hnd' & _).
  destruct (LoadConfig_spec confNames db Hc Hnd) as (m & Hl & Hm).
  destruct (LoadConfig_spec confNames db' Hc' Hnd') as (m' & Hl' & Hm').
  exists m. split; [exact Hl|]. rewrite Hl'. do 2 f_equal.
  apply map_eq. intros k. apply option_ext. intros val.
  rewrite Hm', lookup_insert_Some, Hm. split.
  - intros (Hk & r & Hr & Hn & ->).
    destruct (String.eqb_spec confName k) as [<-|Hne].
    + left. split; [reflexivity|]. now rewrite (Hv' r Hr Hn).
    + right. split; [exact Hne|]. split; [exact Hk|]. exists r.
      split; [|auto]. apply (StoreConfig_frame _ _ _ _ _ r Hs); [congruence|exact Hr].
  - intros [[<- <-]|(Hne & Hk & r & Hr & Hn & ->)].
    + split; [exact Hin|]. apply existsb_name_is in He'.
      destruct He' as (c & Hcin & Hcn). exists c.
      split; [exact Hcin|]. split; [exact Hcn|]. now rewrite (Hv' c Hcin Hcn).
    + split; [exact Hk|]. exists r. split; [|auto].
      apply (StoreConfig_frame _ _ _ _ _ r Hs); [congruence|exact Hr].
Qed.

Lemma StoreConfig_then_LoadConfig_witness :
  exists m,
    LoadConfig ["a"; "b"] fresh_db = (Some m, None)
    /\ LoadConfig ["a"; "b"] (mkDB [mkconf 1 "a" "x" 7 7] 2 None false)
       = (Some (<["a" := AnyString "x"]> m), None).
Proof.
  apply (StoreConfig_then_LoadConfig 7 "a" "x" ["a"; "b"] fresh_db
           (mkDB [mkconf 1 "a" "x" 7 7] 2 None false)).
  - exact fresh_db_wf.
  - left. reflexivity.
  - reflexivity.
Defined.

(** X7. Reading after deleting: after [DeleteConfig] of a name on a
    healthy connection, [LoadConfig] returns the map it returned before
    without the entry of that name, and a second [DeleteConfig] of the
    name reports that nothing was removed and changes nothing. *)
Theorem DeleteConfig_then_LoadConfig (confName : string) (confNames : list string)
    (db : DB) :
  conn db = None -> NoDup (map Name (rows db)) ->
  exists db' m,
    DeleteConfig confName db = (db', (existsb (name_is confName) (rows db), None))
    /\ LoadConfig confNames db = (Some m, None)
    /\ LoadConfig confNames db' = (Some (delete confName m), None)
    /\ DeleteConfig confName db' = (db', (false, None)).
Proof.
  intros Hc Hnd. rewrite (DeleteConfig_rows confName db Hc).
  set (db' := with_rows db _).
  assert (Hc' : conn db' = None) by exact Hc.
  assert (Hnd' : NoDup (map Name (rows db'))) by (now apply NoDup_map_filter).
  assert (Hrows : forall r, In r (rows db') <-> In r (rows db) /\ Name r <> confName).
  { intros r. unfold db'. cbn [rows with_rows]. rewrite filter_In.
    rewrite negb_true_iff, name_is_false. reflexivity. }
  destruct (LoadConfig_spec confNames db Hc Hnd) as (m & Hl & Hm).
  destruct (LoadConfig_spec confNames db' Hc' Hnd') as (m' & Hl' & Hm').
  exists db', m. split; [reflexivity|]. split; [exact Hl|]. split.
  - rewrite Hl'. do 2 f_equal. apply map_eq. intros k. apply option_ext. intros val.
    rewrite Hm', lookup_delete_Some, Hm. split.
    + intros (Hk & r & Hr & Hn & ->). apply Hrows in Hr. destruct Hr as [Hr Hne].
      split; [congruence|]. eauto.
    + intros (Hne & Hk & r & Hr & Hn & ->). split; [exact Hk|]. exists r.
      split; [|auto]. apply Hrows. split; [exact Hr|congruence].
  - rewrite (DeleteConfig_rows confName db' Hc').
    assert (He : existsb (name_is confName) (rows db') = false).
    { destruct (existsb _ (rows db')) eqn:E; [|reflexivity].
      apply existsb_name_is in E. destruct E as (c & Hin & Hn).
      apply Hrows in Hin. tauto. }
    rewrite He. f_equal. unfold with_rows. cbn [rows].
    replace (List.filter (fun c => negb (name_is confName c)) (rows db')) with (rows db').
    + now destruct db'.
    + symmetry. apply forallb_filter_id. apply forallb_forall. intros r Hr.
      apply Hrows in Hr. apply negb_true_iff, name_is_false. tauto.
Qed.

Lemma DeleteConfig_then_LoadConfig_witness :
  exists db' m,
    DeleteConfig "reorg.version" example_db
    = (db', (existsb (name_is "reorg.version") (rows example_db), None))
    /\ LoadConfig ["reorg.version"] example_db = (Some m, None)
    /\ LoadConfig ["reorg.version"] db' = (Some (delete "reorg.version" m), None)
    /\ DeleteConfig "reorg.version" db' = (db', (false, None)).
Proof.
  apply (DeleteConfig_then_LoadConfig "reorg.version" ["reorg.version"] example_db).
  - reflexivity.
  - apply (bool_decide_unpack _). vm_compute. exact I.
Defined.

(** X8. Deleting a name and storing it again gives it a key that no row
    of the table had: unlike a second [StoreConfig], which keeps the key
    of the row, a [DeleteConfig] followed by a [StoreConfig] identifies
    the configuration by a new key. *)
Theorem delete_then_store_takes_new_key (now : Time) (v : string) (r : conf) (db : DB) :
  conn db = None -> db_wf db -> In r (rows db) ->
  len (Name r) <= nameSize -> len v <= valueSize -> auto_increment db <= maxUint32 ->
  exists db1 db2 r',
    DeleteConfig (Name r) db = (db1, (true, None))
    /\ StoreConfig now (Name r) (AnyString v) db1 = Returns (db2, None)
    /\ In r' (rows db2) /\ Name r' = Name r /\ Value r' = v
    /\ (forall r0, In r0 (rows db2) -> Name r0 = Name r -> r0 = r')
    /\ (forall r0, In r0 (rows db) -> ID r0 <> ID r').
Proof.
  intros Hc Hwf Hin Hn Hv Ha. rewrite (DeleteConfig_rows (Name r) db Hc).
  assert (He : existsb (name_is (Name r)) (rows db) = true)
    by (apply existsb_name_is; eauto).
  rewrite He. set (db1 := with_rows db _).
  assert (He1 : existsb (name_is (Name r)) (rows db1) = false).
  { destruct (existsb _ (rows db1)) eqn:E; [|reflexivity].
    apply existsb_name_is in E. destruct E as (c & Hcin & Hcn).
    unfold db1 in Hcin. cbn [rows with_rows] in Hcin. apply filter_In in Hcin.
    destruct Hcin as [_ Hf]. apply negb_true_iff, name_is_false in Hf. contradiction. }
  exists db1. rewrite StoreConfig_string by assumption. rewrite He1.
  change (auto_increment db1) with (auto_increment db).
  destruct (Z.ltb_spec maxUint32 (auto_increment db)); [lia|].
  eexists. exists (mkconf (auto_increment db) (Name r) v now now).
  split; [reflexivity|]. split; [reflexivity|]. cbn [rows ID Name Value].
  split; [apply in_app_iff; right; left; reflexivity|].
  split; [reflexivity|]. split; [reflexivity|]. split.
  - intros r0 Hr0 Hn0. apply in_app_iff in Hr0. destruct Hr0 as [Hr0|[<-|[]]].
    + assert (existsb (name_is (Name r)) (rows db1) = true)
        by (apply existsb_name_is; eauto). congruence.
    + reflexivity.
  - intros r0 Hr0. destruct Hwf as (_ & _ & Hid & _).
    rewrite Forall_forall in Hid. apply list_elem_of_In in Hr0.
    specialize (Hid r0 Hr0). cbn beta in Hid. lia.
Qed.

Lemma delete_then_store_takes_new_key_witness :
  exists db1 db2 r',
    DeleteConfig "reorg.version" example_db = (db1, (true, None))
    /\ StoreConfig 30 "reorg.version" (AnyString "8") db1 = Returns (db2, None)
    /\ In r' (rows db2) /\ Name r' = "reorg.version" /\ Value r' = "8"
    /\ (forall r0, In r0 (rows db2) -> Name r0 = "reorg.version" -> r0 = r')
    /\ (forall r0, In r0 (rows example_db) -> ID r0 <> ID r').
Proof.
  apply (delete_then_store_takes_new_key 30 "8" (mkconf 6 "reorg.version" "7" 17 18)
           example_db).
  - reflexivity.
  - exact example_db_wf.
  - vm_compute. tauto.
  - vm_compute. discriminate.
  - vm_compute. discriminate.
  - vm_compute. discriminate.
Defined.

(** X9. [StoreConfig] is idempotent: when a call stored [v] under a
    name, the same call made again succeeds and leaves every row with
    the key, name, value and creation time it had; only the update time
    can differ, and the rows are the very same when the engine does not
    refresh that time by itself. *)
Theorem StoreConfig_twice (now1 now2 : Time) (confName v : string) (db db1 : DB) :
  StoreConfig now1 confName (AnyString v) db = Returns (db1, None) ->
  exists db2,
    StoreConfig now2 confName (AnyString v) db1 = Returns (db2, None)
    /\ Forall2 (fun r r' =>
                  ID r' = ID r /\ Name r' = Name r /\ Value r' = Value r
                  /\ CreatedAt r' = CreatedAt r)
               (rows db1) (rows db2)
    /\ (refresh_updated_at db1 = false -> rows db2 = rows db1).
Proof.
  intros Hs. destruct (StoreConfig_ok _ _ _ _ _ Hs) as (_ & Hn & Hv).
  destruct (StoreConfig_stored _ _ _ _ _ Hs) as (Hc1 & He1 & Hv1).
  rewrite StoreConfig_string by assumption. rewrite He1.
  eexists. split; [reflexivity|]. cbn [rows with_rows auto_increment].
  split.
  - clear He1. induction (rows db1) as [|r rs IH]; cbn [map]; constructor.
    + destruct (name_is confName r) eqn:Hr.
      * destruct (set_value_fields db1 now2 v r) as (H1 & H2 & H3 & H4).
        apply name_is_true in Hr.
        rewrite (Hv1 r (or_introl eq_refl) Hr). auto.
      * auto.
    + apply IH. intros r0 Hin. apply Hv1. now right.
  - intros Hr. symmetry.
    clear He1. induction (rows db1) as [|r rs IH]; cbn [map]; [reflexivity|].
    rewrite <- IH by (intros r0 Hin; apply Hv1; now right). f_equal.
    destruct (name_is confName r) eqn:Hn'; [|reflexivity].
    apply name_is_true in Hn'. rewrite <- (Hv1 r (or_introl eq_refl) Hn').
    symmetry. now apply set_value_same.
Qed.

Lemma StoreConfig_twice_witness :
  exists db2,
    StoreConfig 9 "a" (AnyString "x") (mkDB [mkconf 1 "a" "x" 7 7] 2 None true)
    = Returns (db2, None)
    /\ Forall2 (fun r r' =>
                  ID r' = ID r /\ Name r' = Name r /\ Value r' = Value r
                  /\ CreatedAt r' = CreatedAt r)
               (rows (mkDB [mkconf 1 "a" "x" 7 7] 2 None true)) (rows db2)
    /\ (refresh_updated_at (mkDB [mkconf 1 "a" "x" 7 7] 2 None true) = false ->
        rows db2 = rows (mkDB [mkconf 1 "a" "x" 7 7] 2 None true)).
Proof.
  apply (StoreConfig_twice 7 9 "a" "x" (mkDB [] 1 None true)
           (mkDB [mkconf 1 "a" "x" 7 7] 2 None true)).
  reflexivity.
Defined.

(** X10. Every operation that writes keeps the constraints of the table:
    after [StoreConfig], [DeleteConfig], [createOrUpdateReorgVersion],
    [StoreNodeRouteGroup] and [DelNodeRouteGroup], whether they succeed
    or fail, keys and names are still unique, so no name ever has two
    rows, and the keys in use are below the next key. *)
Theorem writes_keep_table_constraints (db : DB) :
  db_wf db ->
  (forall now confName confVal db' err,
      StoreConfig now confName confVal db = Returns (db', err) -> db_wf db')
  /\ (forall confName, db_wf (fst (DeleteConfig confName db)))
  /\ (forall now db' err,
        createOrUpdateReorgVersion now db = Returns (db', err) -> db_wf db')
  /\ (forall now routeGrp db' err,
        StoreNodeRouteGroup now routeGrp db = Returns (db', err) -> db_wf db')
  /\ (forall group, db_wf (fst (DelNodeRouteGroup group db))).
Proof.
  intros Hwf. repeat apply conj.
  - intros now confName confVal db' err. now apply StoreConfig_keeps_wf.
  - intros confName. now apply DeleteConfig_keeps_wf.
  - intros now db' err. now apply bump_keeps_wf.
  - intros now routeGrp db' err. now apply StoreNodeRouteGroup_keeps_wf.
  - intros group. now apply DelNodeRouteGroup_keeps_wf.
Qed.

Lemma writes_keep_table_constraints_witness :
  (forall now confName confVal db' err,
      StoreConfig now confName confVal example_db = Returns (db', err) -> db_wf db')
  /\ (forall confName, db_wf (fst (DeleteConfig confName example_db)))
  /\ (forall now db' err,
        createOrUpdateReorgVersion now example_db = Returns (db', err) -> db_wf db')
  /\ (forall now routeGrp db' err,
        StoreNodeRouteGroup now routeGrp example_db = Returns (db', err) -> db_wf db')
  /\ (forall group, db_wf (fst (DelNodeRouteGroup group example_db))).
Proof.
  apply (writes_keep_table_constraints example_db). exact example_db_wf.
Defined.

(** ** Loading one object *)

(** X11. [LoadAclAllowList] by name, on a healthy connection: without a
    row under the prefixed name it fails with [ErrRecordNotFound]; with
    one it never panics and returns what [json.Unmarshal] makes of the
    value of the row on an allow list created with the key of the row
    and the requested name, the error of the decoding included; for the
    empty name it fails with the error of a name that is too short. *)
Theorem LoadAclAllowList_by_name `{acl_package} (name : string) (db : DB) :
  conn db = None -> NoDup (map Name (rows db)) ->
  (existsb (name_is (AclAllowListConfKeyPrefix ++ name)) (rows db) = false ->
   LoadAclAllowList name db = Returns (Err ErrRecordNotFound))
  /\ (forall r, In r (rows db) -> Name r = AclAllowListConfKeyPrefix ++ name ->
        LoadAclAllowList name db
        = Returns (if String.eqb name EmptyString
                   then Err (errors_New "allowlist name is too short")
                   else match acl_Unmarshal (Value r) (acl_NewAllowList (ID r) name) with
                        | (_, Some err) => Err err
                        | (al, None) => Ok al
                        end)).
Proof.
  intros Hc Hnd. unfold LoadAclAllowList. split.
  - intros He. now rewrite First_absent.
  - intros r Hin Hn. rewrite (First_by_name _ r db Hc Hnd Hin Hn).
    now apply decodeAclAllowLists_named.
Qed.

Lemma LoadAclAllowList_by_name_witness :
  (existsb (name_is (AclAllowListConfKeyPrefix ++ "fluent")) (rows example_db) = false ->
   @LoadAclAllowList example_acl "fluent" example_db = Returns (Err ErrRecordNotFound))
  /\ (forall r, In r (rows example_db) -> Name r = AclAllowListConfKeyPrefix ++ "fluent" ->
        @LoadAclAllowList example_acl "fluent" example_db
        = Returns (if String.eqb "fluent" EmptyString
                   then Err (errors_New "allowlist name is too short")
                   else match @acl_Unmarshal example_acl (Value r)
                                  (@acl_NewAllowList example_acl (ID r) "fluent") with
                        | (_, Some err) => Err err
                        | (al, None) => Ok al
                        end)).
Proof.
  apply (@LoadAclAllowList_by_name example_acl "fluent" example_db).
  - reflexivity.
  - apply (bool_decide_unpack _). vm_compute. exact I.
Defined.

(** X12. [LoadRateLimitStrategy] by name, on a healthy connection:
    without a row under the prefixed name it fails with
    [ErrRecordNotFound]; with one it never panics and returns what
    [json.Unmarshal] makes of the value of the row on a strategy created
    with the key of the row and the requested name, the error of the
    decoding included; for the empty name it fails with the error of a
    name that is too short. *)
Theorem LoadRateLimitStrategy_by_name `{rate_package} (name : string) (db : DB) :
  conn db = None -> NoDup (map Name (rows db)) ->
  (existsb (name_is (RateLimitStrategyConfKeyPrefix ++ name)) (rows db) = false ->
   LoadRateLimitStrategy name db = Returns (Err ErrRecordNotFound))
  /\ (forall r, In r (rows db) -> Name r = RateLimitStrategyConfKeyPrefix ++ name ->
        LoadRateLimitStrategy name db
        = Returns (if String.eqb name EmptyString
                   then Err (errors_New "strategy name is too short")
                   else match rate_Unmarshal (Value r) (rate_NewStrategy (ID r) name) with
                        | (_, Some err) => Err err
                        | (stg, None) => Ok stg
                        end)).
Proof.
  intros Hc Hnd. unfold LoadRateLimitStrategy. split.
  - intros He. now rewrite First_absent.
  - intros r Hin Hn. rewrite (First_by_name _ r db Hc Hnd Hin Hn).
    now apply decodeRateLimitStrategy_named.
Qed.

Lemma LoadRateLimitStrategy_by_name_witness :
  (existsb (name_is (RateLimitStrategyConfKeyPrefix ++ "vip")) (rows example_db) = false ->
   @LoadRateLimitStrategy example_rate "vip" example_db = Returns (Err ErrRecordNotFound))
  /\ (forall r, In r (rows example_db) -> Name r = RateLimitStrategyConfKeyPrefix ++ "vip" ->
        @LoadRateLimitStrategy example_rate "vip" example_db
        = Returns (if String.eqb "vip" EmptyString
                   then Err (errors_New "strategy name is too short")
                   else match @rate_Unmarshal example_rate (Value r)
                                  (@rate_NewStrategy example_rate (ID r) "vip") with
                        | (_, Some err) => Err err
                        | (stg, None) => Ok stg
                        end)).
Proof.
  apply (@LoadRateLimitStrategy_by_name example_rate "vip" example_db).
  - reflexivity.
  - apply (bool_decide_unpack _). vm_compute. exact I.
Defined.

(** X13. [LoadAclAllowListById] with a key other than zero, on a healthy
    connection: when no row has the key it fails with
    [ErrRecordNotFound]; otherwise it returns whatever
    [decodeAclAllowLists] does on the row of that key. *)
Theorem LoadAclAllowListById_nonzero `{acl_package} (aclID : Z) (db : DB) :
  conn db = None -> NoDup (map ID (rows db)) -> aclID <> 0 ->
  ((forall r, In r (rows db) -> ID r <> aclID) ->
   LoadAclAllowListById aclID db = Returns (Err ErrRecordNotFound))
  /\ (forall r, In r (rows db) -> ID r = aclID ->
        LoadAclAllowListById aclID db = decodeAclAllowLists r).
Proof.
  intros Hc Hnd Hz. unfold LoadAclAllowListById, First_by_key, First. rewrite Hc.
  destruct (Z.eqb_spec aclID 0) as [|_]; [contradiction|]. split.
  - intros Hno.
    replace (List.filter (fun c => ID c =? aclID) (rows db)) with (@nil conf); [reflexivity|].
    symmetry. apply existsb_false_filter.
    destruct (existsb _ (rows db)) eqn:He; [|reflexivity].
    apply existsb_exists in He. destruct He as (c & Hin & E).
    apply Z.eqb_eq in E. now apply Hno in Hin.
  - intros r Hin <-. now rewrite (filter_ID_unique _ _ Hnd Hin).
Qed.

Lemma LoadAclAllowListById_nonzero_witness :
  ((forall r, In r (rows example_db) -> ID r <> 2) ->
   @LoadAclAllowListById example_acl 2 example_db = Returns (Err ErrRecordNotFound))
  /\ (forall r, In r (rows example_db) -> ID r = 2 ->
        @LoadAclAllowListById example_acl 2 example_db
        = @decodeAclAllowLists example_acl r).
Proof.
  apply (@LoadAclAllowListById_nonzero example_acl 2 example_db).
  - reflexivity.
  - apply (bool_decide_unpack _). vm_compute. exact I.
  - discriminate.
Defined.

(** X14. [LoadAclAllowListById] with the key zero: the zero key of the
    destination is no condition of the query, so on a table that has rows
    the call decodes the row with the smallest key, of whatever domain,
    and reports [ErrRecordNotFound] only on an empty table. *)
Theorem LoadAclAllowListById_zero `{acl_package} (db : DB) :
  conn db = None ->
  (rows db = [] -> LoadAclAllowListById 0 db = Returns (Err ErrRecordNotFound))
  /\ (rows db <> [] ->
      exists r, In r (rows db)
                /\ (forall x, In x (rows db) -> ID r <= ID x)
                /\ LoadAclAllowListById 0 db = decodeAclAllowLists r).
Proof.
  intros Hc. unfold LoadAclAllowListById, First_by_key, First. rewrite Hc.
  change (0 =? 0) with true. cbv iota. rewrite filter_all. split.
  - intros ->. reflexivity.
  - intros Hne. destruct (rows db) as [|x l] eqn:E; [contradiction|].
    destruct (min_by_ID_cons x l) as [c Hm]. rewrite Hm.
    exists c. split; [now apply min_by_ID_in|]. split; [|reflexivity].
    now apply min_by_ID_least.
Qed.

Lemma LoadAclAllowListById_zero_witness :
  (rows example_db = [] ->
   @LoadAclAllowListById example_acl 0 example_db = Returns (Err ErrRecordNotFound))
  /\ (rows example_db <> [] ->
      exists r, In r (rows example_db)
                /\ (forall x, In x (rows example_db) -> ID r <= ID x)
                /\ @LoadAclAllowListById example_acl 0 example_db
                   = @decodeAclAllowLists example_acl r).
Proof.
  apply (@LoadAclAllowListById_zero example_acl example_db). reflexivity.
Defined.

(** ** Loading a whole domain *)

(** X15. What [LoadAclAllowListConfigs] returns on a healthy connection,
    the keys of the table being unique: no error; the two maps are nil
    exactly when no row matches the pattern; otherwise the map of allow
    lists holds, under the key of each matching row that decodes, the
    decoded allow list, the map of fingerprints holds under the same keys
    the MD5 digest of the value, and the rows that do not decode are the
    rows logged, in the order of the table, each with the error of its
    decoding. *)
Theorem LoadAclAllowListConfigs_contents `{acl_package} (db : DB) :
  conn db = None -> NoDup (map ID (rows db)) ->
  exists allowLists checksums log,
    LoadAclAllowListConfigs db = Returns (allowLists, checksums, None, log)
    /\ (allowLists = None <-> acl_rows db = [])
    /\ (checksums = None <-> acl_rows db = [])
    /\ (forall id al,
          default ∅ allowLists !! id = Some al
          <-> exists v, In v (acl_rows db) /\ ID v = id
                        /\ decodeAclAllowLists v = Returns (Ok al))
    /\ (forall id d,
          default ∅ checksums !! id = Some d
          <-> exists v, In v (acl_rows db) /\ ID v = id /\ acl_fails v = false
                        /\ d = md5.Sum (Value v))
    /\ map log_cfg log = List.filter acl_fails (acl_rows db)
    /\ (forall e, In e log ->
          log_msg e = "Invalid access control allowlist config"
          /\ decodeAclAllowLists (log_cfg e) = Returns (Err (log_err e))).
Proof. apply load_allowlists_spec. Qed.

Lemma LoadAclAllowListConfigs_contents_witness :
  exists allowLists checksums log,
    @LoadAclAllowListConfigs example_acl example_db
    = Returns (allowLists, checksums, None, log)
    /\ (allowLists = None <-> acl_rows example_db = [])
    /\ (checksums = None <-> acl_rows example_db = [])
    /\ (forall id al,
          default ∅ allowLists !! id = Some al
          <-> exists v, In v (acl_rows example_db) /\ ID v = id
                        /\ @decodeAclAllowLists example_acl v = Returns (Ok al))
    /\ (forall id d,
          default ∅ checksums !! id = Some d
          <-> exists v, In v (acl_rows example_db) /\ ID v = id
                        /\ @acl_fails example_acl v = false
                        /\ d = md5.Sum (Value v))
    /\ map log_cfg log = List.filter (@acl_fails example_acl) (acl_rows example_db)
    /\ (forall e, In e log ->
          log_msg e = "Invalid access control allowlist config"
          /\ @decodeAclAllowLists example_acl (log_cfg e) = Returns (Err (log_err e))).
Proof.
  apply (@LoadAclAllowListConfigs_contents example_acl example_db).
  - reflexivity.
  - apply (bool_decide_unpack _). vm_compute. exact I.
Defined.

(** X16. What [LoadRateLimitStrategyConfigs] returns on a healthy
    connection, the keys of the table being unique: no error; the two
    maps are nil exactly when no row matches the pattern; otherwise the
    map of strategies holds, under the key of each matching row that
    decodes, the decoded strategy, the map of fingerprints holds under
    the same keys the MD5 digest of the value, and the rows that do not
    decode are the rows logged, in the order of the table, each with the
    error of its decoding. *)
Theorem LoadRateLimitStrategyConfigs_contents `{rate_package} (db : DB) :
  conn db = None -> NoDup (map ID (rows db)) ->
  exists strategies checksums log,
    LoadRateLimitStrategyConfigs db = Returns (strategies, checksums, None, log)
    /\ (strategies = None <-> strategy_rows db = [])
    /\ (checksums = None <-> strategy_rows db = [])
    /\ (forall id stg,
          default ∅ strategies !! id = Some stg
          <-> exists v, In v (strategy_rows db) /\ ID v = id
                        /\ decodeRateLimitStrategy v = Returns (Ok stg))
    /\ (forall id d,
          default ∅ checksums !! id = Some d
          <-> exists v, In v (strategy_rows db) /\ ID v = id /\ strategy_fails v = false
                        /\ d = md5.Sum (Value v))
    /\ map log_cfg log = List.filter strategy_fails (strategy_rows db)
    /\ (forall e, In e log ->
          log_msg e = "Invalid rate limit strategy config"
          /\ decodeRateLimitStrategy (log_cfg e) = Returns (Err (log_err e))).
Proof. apply load_strategies_spec. Qed.

Lemma LoadRateLimitStrategyConfigs_contents_witness :
  exists strategies checksums log,
    @LoadRateLimitStrategyConfigs example_rate example_db
    = Returns (strategies, checksums, None, log)
    /\ (strategies = None <-> strategy_rows example_db = [])
    /\ (checksums = None <-> strategy_rows example_db = [])
    /\ (forall id stg,
          default ∅ strategies !! id = Some stg
          <-> exists v, In v (strategy_rows example_db) /\ ID v = id
                        /\ @decodeRateLimitStrategy example_rate v = Returns (Ok stg))
    /\ (forall id d,
          default ∅ checksums !! id = Some d
          <-> exists v, In v (strategy_rows example_db) /\ ID v = id
                        /\ @strategy_fails example_rate v = false
                        /\ d = md5.Sum (Value v))
    /\ map log_cfg log
       = List.filter (@strategy_fails example_rate) (strategy_rows example_db)
    /\ (forall e, In e log ->
          log_msg e = "Invalid rate limit strategy config"
          /\ @decodeRateLimitStrategy example_rate (log_cfg e)
             = Returns (Err (log_err e))).
Proof.
  apply (@LoadRateLimitStrategyConfigs_contents example_rate example_db).
  - reflexivity.
  - apply (bool_decide_unpack _). vm_compute. exact I.
Defined.

(** X17. What [LoadNodeRouteGroups] returns on a healthy connection, the
    names of the table being unique: no error; the map is nil exactly
    when the query finds no row; otherwise it holds, under each logical
    name whose row was found and decodes, the decoded group, which
    carries that logical name and the key of the row; the rows that do
    not decode are the rows logged, in the order of the table, each with
    the error of its decoding. *)
Theorem LoadNodeRouteGroups_contents (inclusiveGroups : list string) (db : DB) :
  conn db = None -> NoDup (map Name (rows db)) ->
  exists res log,
    LoadNodeRouteGroups inclusiveGroups db = Returns (res, None, log)
    /\ (res = None <-> group_rows inclusiveGroups db = [])
    /\ (forall k grp,
          default ∅ res !! k = Some grp
          <-> exists v, In v (group_rows inclusiveGroups db)
                        /\ Name v = NodeRouteGroupConfKeyPrefix ++ k
                        /\ decodeNodeRouteGroup v = Returns (Ok grp))
    /\ (forall k grp,
          default ∅ res !! k = Some grp ->
          NodeRouteGroup.Name grp = k
          /\ exists v, In v (rows db) /\ Name v = NodeRouteGroupConfKeyPrefix ++ k
                       /\ NodeRouteGroup.ID grp = ID v)
    /\ map log_cfg log = List.filter group_fails (group_rows inclusiveGroups db)
    /\ (forall e, In e log ->
          log_msg e = "Invalid node route config"
          /\ decodeNodeRouteGroup (log_cfg e) = Returns (Err (log_err e))).
Proof.
  intros Hc Hnd.
  destruct (load_groups_spec inclusiveGroups db Hc Hnd) as (res & log & Hl & H0 & H1 & H3 & H4).
  exists res, log. split; [exact Hl|]. split; [exact H0|]. split; [exact H1|].
  split; [|split; [exact H3|exact H4]].
  intros k grp Hk. apply H1 in Hk. destruct Hk as (v & Hv & Hn & Hd).
  destruct (decodeNodeRouteGroup_name v grp Hd) as [Hgn Hgi]. split.
  - rewrite Hgn, Hn. apply (drop_bytes_app NodeRouteGroupConfKeyPrefix).
  - exists v. split; [|auto]. unfold group_rows in Hv.
    destruct inclusiveGroups; apply filter_In in Hv; apply Hv.
Qed.

Lemma LoadNodeRouteGroups_contents_witness :
  exists res log,
    LoadNodeRouteGroups [] example_db = Returns (res, None, log)
    /\ (res = None <-> group_rows [] example_db = [])
    /\ (forall k grp,
          default ∅ res !! k = Some grp
          <-> exists v, In v (group_rows [] example_db)
                        /\ Name v = NodeRouteGroupConfKeyPrefix ++ k
                        /\ decodeNodeRouteGroup v = Returns (Ok grp))
    /\ (forall k grp,
          default ∅ res !! k = Some grp ->
          NodeRouteGroup.Name grp = k
          /\ exists v, In v (rows example_db) /\ Name v = NodeRouteGroupConfKeyPrefix ++ k
                       /\ NodeRouteGroup.ID grp = ID v)
    /\ map log_cfg log = List.filter group_fails (group_rows [] example_db)
    /\ (forall e, In e log ->
          log_msg e = "Invalid node route config"
          /\ decodeNodeRouteGroup (log_cfg e) = Returns (Err (log_err e))).
Proof.
  apply (LoadNodeRouteGroups_contents [] example_db).
  - reflexivity.
  - apply (bool_decide_unpack _). vm_compute. exact I.
Defined.

(** X18. [LoadNodeRouteGroups] with a list of names never panics and
    returns only groups that were asked for: every key of the map is one
    of the requested names, taken literally, and the group under it
    carries that name and the key of the row stored under the prefixed
    name. *)
Theorem LoadNodeRouteGroups_only_requested (inclusiveGroups : list string) (db : DB) :
  inclusiveGroups <> [] ->
  exists res err log,
    LoadNodeRouteGroups inclusiveGroups db = Returns (res, err, log)
    /\ forall k grp,
         default ∅ res !! k = Some grp ->
         In k inclusiveGroups /\ NodeRouteGroup.Name grp = k
         /\ exists v, In v (rows db) /\ Name v = NodeRouteGroupConfKeyPrefix ++ k
                      /\ NodeRouteGroup.ID grp = ID v.
Proof.
  intros Hne.
  destruct (LoadNodeRouteGroups_cases inclusiveGroups db)
    as [(e & _ & ->)|[(_ & _ & ->)|(res & log & _ & Hd & ->)]].
  - exists None, (Some e), []. split; [reflexivity|]. intros k grp Hk.
    cbn in Hk. now rewrite lookup_empty in Hk.
  - exists None, None, []. split; [reflexivity|]. intros k grp Hk.
    cbn in Hk. now rewrite lookup_empty in Hk.
  - exists (Some res), None, log. split; [reflexivity|]. intros k grp Hk.
    cbn [default from_option id] in Hk.
    destruct (decode_groups_keys _ _ _ _ _ Hd k grp Hk) as [Hm|(v & Hv & Hdec & Hn)].
    { now rewrite lookup_empty in Hm. }
    destruct (decodeNodeRouteGroup_name v grp Hdec) as [Hgn Hgi].
    unfold group_rows in Hv. destruct inclusiveGroups as [|g gs]; [contradiction|].
    apply filter_In in Hv. destruct Hv as [Hin Hf].
    apply name_in_spec, in_map_iff in Hf. destruct Hf as (g0 & Hg0 & Hin0).
    assert (Hk0 : k = g0).
    { rewrite <- Hn, Hgn, <- Hg0. apply (drop_bytes_app NodeRouteGroupConfKeyPrefix). }
    rewrite Hk0. split; [exact Hin0|]. split; [congruence|]. exists v. auto.
Qed.

Lemma LoadNodeRouteGroups_only_requested_witness :
  exists res err log,
    LoadNodeRouteGroups ["cfxvip"; "%"] example_db = Returns (res, err, log)
    /\ forall k grp,
         default ∅ res !! k = Some grp ->
         In k ["cfxvip"; "%"] /\ NodeRouteGroup.Name grp = k
         /\ exists v, In v (rows example_db) /\ Name v = NodeRouteGroupConfKeyPrefix ++ k
                      /\ NodeRouteGroup.ID grp = ID v.
Proof.
  apply (LoadNodeRouteGroups_only_requested ["cfxvip"; "%"] example_db). discriminate.
Defined.

(** X19. The domains do not overlap: no name matches the patterns of
    two domains, and the name of the reorg version matches none of the
    three, so a row is read by the bulk load of at most one domain. *)
Theorem config_domains_do_not_overlap (r : conf) :
  name_like aclAllowListSqlMatchPattern r && name_like rateLimitStrategySqlMatchPattern r
  = false
  /\ name_like aclAllowListSqlMatchPattern r && name_like nodeRouteGroupSqlMatchPattern r
     = false
  /\ name_like rateLimitStrategySqlMatchPattern r
     && name_like nodeRouteGroupSqlMatchPattern r
     = false
  /\ name_is MysqlConfKeyReorgVersion r
     && (name_like aclAllowListSqlMatchPattern r
         || name_like rateLimitStrategySqlMatchPattern r
         || name_like nodeRouteGroupSqlMatchPattern r)
     = false.
Proof.
  unfold name_like, aclAllowListSqlMatchPattern, rateLimitStrategySqlMatchPattern,
    nodeRouteGroupSqlMatchPattern.
  rewrite !like_prefix by reflexivity.
  split; [apply prefix_clash; reflexivity|].
  split; [apply prefix_clash; reflexivity|].
  split; [apply prefix_clash; reflexivity|].
  destruct (name_is MysqlConfKeyReorgVersion r) eqn:Hn; [|reflexivity].
  apply name_is_true in Hn. rewrite Hn. reflexivity.
Qed.


(** ** Node route groups *)

(** X21. A group with the empty name is stored, under the bare prefix,
    and cannot be loaded: [StoreNodeRouteGroup] does not check the name,
    and [LoadNodeRouteGroups] of the empty name then finds the row,
    fails to decode it for its name, logs it and returns an empty map
    that is not nil, with no error; the load of all groups skips it
    too. *)
Theorem empty_group_name_is_stored_but_not_loaded (now : Time) (g : NodeRouteGroup.t)
    (db db' : DB) :
  NodeRouteGroup.Name g = EmptyString -> db_wf db ->
  StoreNodeRouteGroup now g db = Returns (db', None) ->
  exists r,
    In r (rows db') /\ Name r = NodeRouteGroupConfKeyPrefix
    /\ Value r = fst (json_Marshal g)
    /\ LoadNodeRouteGroups [EmptyString] db'
       = Returns (Some ∅, None,
                  [mklog "Invalid node route config" r
                     (errors_New "route group name is too short")])
    /\ exists res log,
         LoadNodeRouteGroups [] db' = Returns (res, None, log)
         /\ default ∅ res !! EmptyString = None
         /\ In r (map log_cfg log).
Proof.
  intros Hg Hwf Hs.
  pose proof (StoreNodeRouteGroup_keeps_wf _ _ _ _ _ Hwf Hs) as (_ & Hnd' & _).
  unfold StoreNodeRouteGroup in Hs.
  change (json_Marshal g) with (fst (json_Marshal g), @None error) in Hs.
  cbv iota beta in Hs. rewrite Hg, app_Empty_r in Hs.
  destruct (StoreConfig_stored _ _ _ _ _ Hs) as (Hc' & He' & Hv').
  apply existsb_name_is in He'. destruct He' as (r & Hin & Hn).
  assert (Hdec : decodeNodeRouteGroup r
                 = Returns (Err (errors_New "route group name is too short"))).
  { rewrite (decodeNodeRouteGroup_named EmptyString r); [reflexivity|].
    now rewrite app_Empty_r. }
  exists r. split; [exact Hin|]. split; [exact Hn|]. split; [now apply Hv'|]. split.
  - unfold LoadNodeRouteGroups. rewrite group_rows_Find by exact Hc'.
    unfold group_rows. cbn [map]. rewrite app_Empty_r.
    rewrite (filter_ext _ _ (name_in_single NodeRouteGroupConfKeyPrefix)).
    rewrite <- Hn, (filter_name_unique _ _ Hnd' Hin).
    cbn [decode_groups]. rewrite Hdec. reflexivity.
  - destruct (load_groups_spec [] db' Hc' Hnd') as (res & log & Hl & _ & H1 & H3 & _).
    assert (Hgr : In r (group_rows [] db')).
    { unfold group_rows. apply filter_In. split; [exact Hin|].
      unfold name_like. rewrite Hn. reflexivity. }
    exists res, log. split; [exact Hl|]. split.
    + destruct (default ∅ res !! EmptyString) as [grp|] eqn:E; [|reflexivity].
      apply H1 in E. destruct E as (v & Hv & Hvn & Hvd).
      rewrite app_Empty_r in Hvn. rewrite (decodeNodeRouteGroup_named EmptyString v) in Hvd
        by (now rewrite app_Empty_r). discriminate.
    + rewrite H3. apply filter_In. split; [exact Hgr|].
      unfold group_fails. now rewrite Hdec.
Qed.

Lemma empty_group_name_is_stored_but_not_loaded_witness :
  exists r,
    In r (rows (mkDB [mkconf 1 "noderoute.group."
                        (fst (json_Marshal (NodeRouteGroup.mk 0 EmptyString (Some ["http://a"]))))
                        5 5] 2 None false))
    /\ Name r = NodeRouteGroupConfKeyPrefix
    /\ Value r = fst (json_Marshal (NodeRouteGroup.mk 0 EmptyString (Some ["http://a"])))
    /\ LoadNodeRouteGroups [EmptyString]
         (mkDB [mkconf 1 "noderoute.group."
                  (fst (json_Marshal (NodeRouteGroup.mk 0 EmptyString (Some ["http://a"]))))
                  5 5] 2 None false)
       = Returns (Some ∅, None,
                  [mklog "Invalid node route config" r
                     (errors_New "route group name is too short")])
    /\ exists res log,
         LoadNodeRouteGroups []
           (mkDB [mkconf 1 "noderoute.group."
                    (fst (json_Marshal (NodeRouteGroup.mk 0 EmptyString (Some ["http://a"]))))
                    5 5] 2 None false)
         = Returns (res, None, log)
         /\ default ∅ res !! EmptyString = None
         /\ In r (map log_cfg log).
Proof.
  apply (empty_group_name_is_stored_but_not_loaded 5
           (NodeRouteGroup.mk 0 EmptyString (Some ["http://a"])) fresh_db
           (mkDB [mkconf 1 "noderoute.group."
                    (fst (json_Marshal (NodeRouteGroup.mk 0 EmptyString (Some ["http://a"]))))
                    5 5] 2 None false)).
  - reflexivity.
  - exact fresh_db_wf.
  - reflexivity.
Defined.

(** X22. [DelNodeRouteGroup] on a healthy connection returns no error
    whether the group existed or not, removes the row of the group and
    no other, and is idempotent; a load of that group then finds nothing
    and returns the nil map. *)
Theorem DelNodeRouteGroup_then_load (group : string) (db : DB) :
  conn db = None ->
  exists db',
    DelNodeRouteGroup group db = (db', None)
    /\ (forall r, In r (rows db')
                  <-> In r (rows db) /\ Name r <> NodeRouteGroupConfKeyPrefix ++ group)
    /\ LoadNodeRouteGroups [group] db' = Returns (None, None, [])
    /\ DelNodeRouteGroup group db' = (db', None).
Proof.
  intros Hc. unfold DelNodeRouteGroup.
  set (key := NodeRouteGroupConfKeyPrefix ++ group).
  rewrite (DeleteConfig_rows key db Hc). set (db' := with_rows db _).
  assert (Hc' : conn db' = None) by exact Hc.
  assert (Hrows : forall r, In r (rows db') <-> In r (rows db) /\ Name r <> key).
  { intros r. unfold db'. cbn [rows with_rows]. rewrite filter_In.
    rewrite negb_true_iff, name_is_false. reflexivity. }
  assert (He : existsb (name_is key) (rows db') = false).
  { destruct (existsb _ (rows db')) eqn:E; [|reflexivity].
    apply existsb_name_is in E. destruct E as (c & Hin & Hn).
    apply Hrows in Hin. tauto. }
  exists db'. split; [reflexivity|]. split; [exact Hrows|]. split.
  - unfold LoadNodeRouteGroups. rewrite group_rows_Find by exact Hc'.
    unfold group_rows. cbn [map]. fold key.
    rewrite (filter_ext _ _ (name_in_single key)).
    apply existsb_false_filter in He. now rewrite He.
  - rewrite (DeleteConfig_rows key db' Hc'). f_equal. unfold with_rows. cbn [rows].
    replace (List.filter (fun c => negb (name_is key c)) (rows db')) with (rows db').
    + now destruct db'.
    + symmetry. apply forallb_filter_id. apply forallb_forall. intros r Hr.
      apply Hrows in Hr. apply negb_true_iff, name_is_false. tauto.
Qed.

Lemma DelNodeRouteGroup_then_load_witness :
  exists db',
    DelNodeRouteGroup "cfxvip" example_db = (db', None)
    /\ (forall r, In r (rows db')
                  <-> In r (rows example_db)
                      /\ Name r <> NodeRouteGroupConfKeyPrefix ++ "cfxvip")
    /\ LoadNodeRouteGroups ["cfxvip"] db' = Returns (None, None, [])
    /\ DelNodeRouteGroup "cfxvip" db' = (db', None).
Proof.
  apply (DelNodeRouteGroup_then_load "cfxvip" example_db). reflexivity.
Defined.

(** X23. Storing a group under the name of a group that is stored
    replaces it in place: the row keeps its key, its value becomes the
    payload of the new group whatever it was before, the table has as
    many rows as before, and a load of that name returns the new group
    stamped with the key the row always had. *)
Theorem StoreNodeRouteGroup_replaces_in_place (now : Time) (g : NodeRouteGroup.t)
    (r : conf) (db : DB) :
  conn db = None -> db_wf db -> In r (rows db) ->
  Name r = NodeRouteGroupConfKeyPrefix ++ NodeRouteGroup.Name g ->
  NodeRouteGroup.Name g <> EmptyString ->
  len (Name r) <= nameSize -> len (fst (json_Marshal g)) <= valueSize ->
  exists db',
    StoreNodeRouteGroup now g db = Returns (db', None)
    /\ length (rows db') = length (rows db)
    /\ LoadNodeRouteGroups [NodeRouteGroup.Name g] db'
       = Returns (Some {[ NodeRouteGroup.Name g :=
                            NodeRouteGroup.mk (ID r) (NodeRouteGroup.Name g)
                              (coerce_nodes (NodeRouteGroup.Nodes g)) ]},
                  None, []).
Proof.
  intros Hc Hwf Hin Hn Hne Hln Hlv.
  set (key := NodeRouteGroupConfKeyPrefix ++ NodeRouteGroup.Name g) in *.
  set (v := fst (json_Marshal g)) in *.
  assert (Hs : StoreNodeRouteGroup now g db = StoreConfig now key (AnyString v) db)
    by reflexivity.
  assert (He : existsb (name_is key) (rows db) = true)
    by (apply existsb_name_is; eauto).
  rewrite Hs. pose proof (StoreConfig_string now key v db Hc) as Hst.
  rewrite Hn in Hln. specialize (Hst Hln Hlv). rewrite He in Hst.
  eexists. split; [exact Hst|].
  pose proof (StoreConfig_keeps_wf _ _ _ _ _ _ Hwf Hst) as (_ & Hnd' & _).
  cbn [rows with_rows] in *. split; [apply length_map|].
  set (f := fun r0 => if name_is key r0 then set_value db now v r0 else r0) in *.
  assert (Hr' : In (f r) (map f (rows db))) by now apply in_map.
  assert (Hfr : f r = set_value db now v r).
  { unfold f. apply name_is_true in Hn. now rewrite Hn. }
  destruct (set_value_fields db now v r) as (Hid & Hnm & Hval & _).
  rewrite <- Hfr in Hid, Hnm, Hval.
  unfold LoadNodeRouteGroups. rewrite group_rows_Find by exact Hc.
  unfold group_rows. cbn [map rows with_rows]. fold key.
  rewrite (filter_ext _ _ (name_in_single key)).
  assert (Hfilt : List.filter (name_is key) (map f (rows db)) = [f r]).
  { pose proof (filter_name_unique _ _ Hnd' Hr') as Hu. rewrite Hnm, Hn in Hu. exact Hu. }
  rewrite Hfilt.
  rewrite (decode_groups_same (NodeRouteGroup.Name g)
             (coerce_nodes (NodeRouteGroup.Nodes g)) [] (f r) ∅ []).
  - cbn [List.last]. rewrite Hid. reflexivity.
  - intros r0 [<-|[]].
    apply decodeNodeRouteGroup_stored; [exact Hne|now rewrite Hnm|exact Hval].
Qed.

Lemma StoreNodeRouteGroup_replaces_in_place_witness :
  exists db',
    StoreNodeRouteGroup 30 (NodeRouteGroup.mk 0 "cfxvip" (Some ["http://a"])) example_db
    = Returns (db', None)
    /\ length (rows db') = length (rows example_db)
    /\ LoadNodeRouteGroups ["cfxvip"] db'
       = Returns (Some {[ "cfxvip" :=
                            NodeRouteGroup.mk (ID (mkconf 4 "noderoute.group.cfxvip" "{}" 14 15))
                              "cfxvip" (coerce_nodes (Some ["http://a"])) ]},
                  None, []).
Proof.
  apply (StoreNodeRouteGroup_replaces_in_place 30
           (NodeRouteGroup.mk 0 "cfxvip" (Some ["http://a"]))
           (mkconf 4 "noderoute.group.cfxvip" "{}" 14 15) example_db).
  - reflexivity.
  - exact example_db_wf.
  - vm_compute. tauto.
  - reflexivity.
  - discriminate.
  - vm_compute. discriminate.
  - vm_compute. discriminate.
Defined.

(** ** The rate limit configuration *)

(** X24. [LoadRateLimitConfigs] on a healthy connection, the keys of the
    table being unique, returns a configuration and no error, whatever
    rows fail to decode: its strategies and allow lists, with their
    fingerprints, are what the two bulk loads return, the lines logged
    are theirs, strategies first, every object has its fingerprint and
    every fingerprint its object, and when no row of either domain
    exists the four maps of the configuration are nil. *)
Theorem LoadRateLimitConfigs_combines `{acl_package} `{rate_package} (db : DB) :
  conn db = None -> NoDup (map ID (rows db)) ->
  exists cfg log1 log2,
    LoadRateLimitConfigs db = Returns (Some cfg, None, (log1 ++ log2)%list)
    /\ LoadRateLimitStrategyConfigs db
       = Returns (Strategies cfg, CheckSums_Strategies (CheckSums cfg), None, log1)
    /\ LoadAclAllowListConfigs db
       = Returns (AllowLists cfg, CheckSums_AllowLists (CheckSums cfg), None, log2)
    /\ (forall id,
          is_Some (default ∅ (Strategies cfg) !! id)
          <-> is_Some (default ∅ (CheckSums_Strategies (CheckSums cfg)) !! id))
    /\ (forall id,
          is_Some (default ∅ (AllowLists cfg) !! id)
          <-> is_Some (default ∅ (CheckSums_AllowLists (CheckSums cfg)) !! id))
    /\ (strategy_rows db = [] -> acl_rows db = [] ->
        cfg = mkConfig (mkConfigCheckSums None None) None None).
Proof.
  intros Hc Hnd.
  destruct (load_strategies_spec db Hc Hnd)
    as (s & cs & l1 & Hs & Hs0 & Hcs0 & Hs1 & Hs2 & _).
  destruct (load_allowlists_spec db Hc Hnd)
    as (a & ca & l2 & Ha & Ha0 & Hca0 & Ha1 & Ha2 & _).
  exists (mkConfig (mkConfigCheckSums cs ca) s a), l1, l2.
  cbn [Strategies AllowLists CheckSums CheckSums_Strategies CheckSums_AllowLists].
  split; [unfold LoadRateLimitConfigs; rewrite Hs; cbn [mbind outcome_bind];
          rewrite Ha; reflexivity|].
  split; [exact Hs|]. split; [exact Ha|]. split; [|split].
  - intros k. unfold is_Some. split.
    + intros [stg Hk]. apply Hs1 in Hk. destruct Hk as (v & Hv & Hid & Hd).
      exists (md5.Sum (Value v)). apply Hs2. exists v.
      split; [exact Hv|]. split; [exact Hid|]. split; [|reflexivity].
      unfold strategy_fails. now rewrite Hd.
    + intros [d Hk]. apply Hs2 in Hk. destruct Hk as (v & Hv & Hid & Hf & _).
      unfold strategy_fails in Hf.
      destruct (decodeRateLimitStrategy v) as [[stg|e]|p] eqn:Hd; try discriminate.
      * exists stg. apply Hs1. eauto.
      * pose proof (strategy_rows_len db v Hv) as Hl.
        rewrite decodeRateLimitStrategy_unfold in Hd.
        destruct (Z.ltb_spec (len (Name v)) 19); [lia|]. cbv zeta in Hd.
        destruct (len _ =? 0); [discriminate|].
        destruct (rate_Unmarshal _ _) as [x [e|]]; discriminate.
  - intros k. unfold is_Some. split.
    + intros [al Hk]. apply Ha1 in Hk. destruct Hk as (v & Hv & Hid & Hd).
      exists (md5.Sum (Value v)). apply Ha2. exists v.
      split; [exact Hv|]. split; [exact Hid|]. split; [|reflexivity].
      unfold acl_fails. now rewrite Hd.
    + intros [d Hk]. apply Ha2 in Hk. destruct Hk as (v & Hv & Hid & Hf & _).
      unfold acl_fails in Hf.
      destruct (decodeAclAllowLists v) as [[al|e]|p] eqn:Hd; try discriminate.
      * exists al. apply Ha1. eauto.
      * pose proof (acl_rows_len db v Hv) as Hl.
        rewrite decodeAclAllowLists_unfold in Hd.
        destruct (Z.ltb_spec (len (Name v)) 14); [lia|]. cbv zeta in Hd.
        destruct (len _ =? 0); [discriminate|].
        destruct (acl_Unmarshal _ _) as [x [e|]]; discriminate.
  - intros E1 E2. apply Hs0 in E1 as Es. apply Hcs0 in E1 as Ecs.
    apply Ha0 in E2 as Ea. apply Hca0 in E2 as Eca. now subst.
Qed.

Lemma LoadRateLimitConfigs_combines_witness :
  exists cfg log1 log2,
    @LoadRateLimitConfigs example_acl example_rate example_db
    = Returns (Some cfg, None, (log1 ++ log2)%list)
    /\ @LoadRateLimitStrategyConfigs example_rate example_db
       = Returns (Strategies cfg, CheckSums_Strategies (CheckSums cfg), None, log1)
    /\ @LoadAclAllowListConfigs example_acl example_db
       = Returns (AllowLists cfg, CheckSums_AllowLists (CheckSums cfg), None, log2)
    /\ (forall id,
          is_Some (default ∅ (Strategies cfg) !! id)
          <-> is_Some (default ∅ (CheckSums_Strategies (CheckSums cfg)) !! id))
    /\ (forall id,
          is_Some (default ∅ (AllowLists cfg) !! id)
          <-> is_Some (default ∅ (CheckSums_AllowLists (CheckSums cfg)) !! id))
    /\ (strategy_rows example_db = [] -> acl_rows example_db = [] ->
        cfg = mkConfig (mkConfigCheckSums None None) None None).
Proof.
  apply (@LoadRateLimitConfigs_combines example_acl example_rate example_db).
  - reflexivity.
  - apply (bool_decide_unpack _). vm_compute. exact I.
Defined.

(** ** Failures *)



(** X26. The two shapes of load treat a row that does not decode
    differently: for a row of the allow list domain whose decoding fails
    with [e], the load by its name and the load by its key return [e],
    while the bulk load returns no error, leaves the row out of both
    maps and logs it. *)
Theorem single_load_reports_what_bulk_load_skips `{acl_package}
    (r : conf) (e : error) (db : DB) :
  conn db = None -> db_wf db -> In r (acl_rows db) ->
  decodeAclAllowLists r = Returns (Err e) ->
  LoadAclAllowList (drop_bytes (String.length AclAllowListConfKeyPrefix) (Name r)) db
  = Returns (Err e)
  /\ LoadAclAllowListById (ID r) db = Returns (Err e)
  /\ exists allowLists checksums log,
       LoadAclAllowListConfigs db = Returns (allowLists, checksums, None, log)
       /\ default ∅ allowLists !! ID r = None
       /\ default ∅ checksums !! ID r = None
       /\ In r (map log_cfg log).
Proof.
  intros Hc (Hid & Hnm & Hpos & _) Hr Hdec.
  pose proof Hr as Hr0. apply filter_In in Hr0. destruct Hr0 as [Hin Hl].
  apply name_like_prefix in Hl; [|reflexivity]. apply HasPrefix_split in Hl.
  split; [|split].
  - unfold LoadAclAllowList. rewrite (First_by_name _ r db Hc Hnm Hin); [exact Hdec|].
    now rewrite <- Hl.
  - unfold LoadAclAllowListById, First_by_key, First. rewrite Hc.
    rewrite Forall_forall in Hpos. pose proof (Hpos r) as Hp.
    apply list_elem_of_In in Hin as Hin'. specialize (Hp Hin'). cbn beta in Hp.
    destruct (Z.eqb_spec (ID r) 0); [lia|].
    now rewrite (filter_ID_unique _ _ Hid Hin).
  - destruct (load_allowlists_spec db Hc Hid) as (a & c & log & Hload & _ & _ & H1 & H2 & H3 & _).
    exists a, c, log. split; [exact Hload|].
    assert (Hsame : forall v, In v (acl_rows db) -> ID v = ID r -> v = r).
    { intros v Hv E. apply filter_In in Hv. destruct Hv as [Hv _].
      exact (NoDup_map_inj ID _ _ _ Hid Hv Hin E). }
    split; [|split].
    + destruct (default ∅ a !! ID r) as [al|] eqn:E; [|reflexivity].
      apply H1 in E. destruct E as (v & Hv & Ev & Hd).
      rewrite (Hsame v Hv Ev) in Hd. congruence.
    + destruct (default ∅ c !! ID r) as [d|] eqn:E; [|reflexivity].
      apply H2 in E. destruct E as (v & Hv & Ev & Hf & _).
      rewrite (Hsame v Hv Ev) in Hf. unfold acl_fails in Hf.
      rewrite Hdec in Hf. discriminate.
    + rewrite H3. apply filter_In. split; [exact Hr|].
      unfold acl_fails. now rewrite Hdec.
Qed.

Lemma single_load_reports_what_bulk_load_skips_witness :
  @LoadAclAllowList example_acl
    (drop_bytes (String.length AclAllowListConfKeyPrefix)
       (Name (mkconf 2 "acl.allowlist.broken" "{" 11 12))) example_db
  = Returns (Err (SyntaxError "invalid JSON text"))
  /\ @LoadAclAllowListById example_acl (ID (mkconf 2 "acl.allowlist.broken" "{" 11 12))
       example_db
     = Returns (Err (SyntaxError "invalid JSON text"))
  /\ exists allowLists checksums log,
       @LoadAclAllowListConfigs example_acl example_db
       = Returns (allowLists, checksums, None, log)
       /\ default ∅ allowLists !! ID (mkconf 2 "acl.allowlist.broken" "{" 11 12) = None
       /\ default ∅ checksums !! ID (mkconf 2 "acl.allowlist.broken" "{" 11 12) = None
       /\ In (mkconf 2 "acl.allowlist.broken" "{" 11 12) (map log_cfg log).
Proof.
  apply (@single_load_reports_what_bulk_load_skips example_acl
           (mkconf 2 "acl.allowlist.broken" "{" 11 12)
           (SyntaxError "invalid JSON text") example_db).
  - reflexivity.
  - exact example_db_wf.
  - vm_compute. tauto.
  - reflexivity.
Defined.
